(** * BseePortal: password-reset flow and bulk / broadcast writes

  A shallow embedding of the control flow of three React components
  ([SettingsPage], [MonitorPage], [MayorPage]) and of the properties their
  specification states about them, followed by the handlers of these
  components the specification does not speak of and by those of
  [PostDetailModal] and [Header], with the properties their code shows.

  Conventions of the embedding:
  - a JavaScript string is the list of its UTF-16 code units;
  - an instant is its time value, a number of milliseconds, in [Z];
  - a component's [useState] cells are the fields of a record, and a handler
    is a function from the state its closure captured, and from the answers
    of the backend, to the state after all its setters have run, together
    with the backend calls it issued, in order;
  - a Firestore document is a finite map from field names to values. *)

From Stdlib Require Import ZArith NArith Lia String Ascii.
From stdpp Require Import base option list gmap strings fin_maps.

Local Open Scope Z_scope.
Local Open Scope nat_scope.

(* ===================================================================== *)
(** * Part I: definitions                                                  *)
(* ===================================================================== *)

(** ** JavaScript strings *)
Module JS.

(** A string value: its UTF-16 code units. *)
Abbreviation str := (list N).

(** The code units of an ASCII literal of the source. *)
Definition lit (s : string) : str :=
  N_of_ascii <$> list_ascii_of_string s.

(** [WhiteSpace] and [LineTerminator] code points of ECMAScript, the
    characters [String.prototype.trim] strips. *)
Definition isWhiteSpace (c : N) : bool :=
  ((9 <=? c) && (c <=? 13) || (c =? 32) || (c =? 160) || (c =? 0x1680)
   || (0x2000 <=? c) && (c <=? 0x200A)
   || (c =? 0x2028) || (c =? 0x2029) || (c =? 0x202F) || (c =? 0x205F)
   || (c =? 0x3000) || (c =? 0xFEFF))%N.

Fixpoint trimStart (s : str) : str :=
  match s with
  | c :: s' => if isWhiteSpace c then trimStart s' else s
  | [] => []
  end.

Definition trimEnd (s : str) : str := reverse (trimStart (reverse s)).

(** [s.trim()] *)
Definition trim (s : str) : str := trimEnd (trimStart s).

(** [!s] for a string: only the empty string is falsy. *)
Definition falsy (s : str) : bool :=
  match s with [] => true | _ => false end.

(** Decimal digits of a natural number, most significant first. *)
Fixpoint digits (fuel : nat) (n : N) (acc : str) : str :=
  let acc' := (48 + n mod 10)%N :: acc in
  match fuel with
  | O => acc'
  | S fuel' => if (n / 10 =? 0)%N then acc' else digits fuel' (n / 10)%N acc'
  end.

(** [n.toString()] for a non-negative integer [n]. *)
Definition toString (n : N) : str := digits (N.to_nat (N.log2 n)) n [].

(** The number a string of decimal digits reads as. *)
Definition decimal (s : str) : N :=
  foldl (λ value c, 10 * value + (c - 48))%N 0%N s.

End JS.

(** ** MayorPage.tsx: helper function *)
Module Chunk.

(** [array.slice(i, j)] for indices [0 <= i <= j]. *)
Definition slice {T} (array : list T) (i j : nat) : list T :=
  take (j - i) (drop i array).

(** The [for (let i = 0; i < array.length; i += size)] loop of
    [chunkArray]; [None] when the loop is still running after [fuel]
    iterations (with [size = 0] it never leaves). *)
Fixpoint chunkArray_loop {T} (fuel : nat) (array : list T) (size i : nat)
    (result : list (list T)) : option (list (list T)) :=
  if bool_decide (i < length array) then
    match fuel with
    | O => None
    | S fuel' =>
        chunkArray_loop fuel' array size (i + size)
          (result ++ [slice array i (i + size)])
    end
  else Some result.

(** [chunkArray(array, size)] for an integral [size]. *)
Definition chunkArray {T} (array : list T) (size : nat)
    : option (list (list T)) :=
  chunkArray_loop (length array) array size 0 [].

End Chunk.

(** ** The document store, as the components use it *)
Module Firestore.

(** A stored field value. *)
Inductive Value :=
| VStr (s : JS.str)
| VTime (t : Z)
| VBool (b : bool)
| VNull.

(** What a client writes into a field: a plain value, or one of the
    sentinels [FieldValue.serverTimestamp()] and [FieldValue.delete()]. *)
Inductive FieldValue :=
| Plain (v : Value)
| ServerTimestamp
| DeleteField.

#[global] Instance Value_eq_dec : EqDecision Value.
Proof. solve_decision. Defined.

#[global] Instance FieldValue_eq_dec : EqDecision FieldValue.
Proof. solve_decision. Defined.

(** A document, and the object of field updates passed to [update]. *)
Abbreviation Doc := (gmap string Value).
Abbreviation Fields := (gmap string FieldValue).

(** The field [k] after an update that says [fv] about it (or nothing),
    committed at server time [now]. *)
Definition resolve (now : Z) (fv : option FieldValue) (old : option Value)
    : option Value :=
  match fv with
  | Some (Plain v) => Some v
  | Some ServerTimestamp => Some (VTime now)
  | Some DeleteField => None
  | None => old
  end.

(** [ref.update(fields)] on an existing document. *)
Definition apply_update (now : Z) (fields : Fields) (d : Doc) : Doc :=
  merge (resolve now) fields d.

(** [!v] for a field read from [doc.data()] ([None]: the field, or the
    document, is absent). *)
Definition falsy (v : option Value) : bool :=
  match v with
  | None | Some VNull | Some (VBool false) => true
  | Some (VStr s) => JS.falsy s
  | Some (VBool true) | Some (VTime _) => false
  end.

(** [v !== s] for a string [s]. *)
Definition strict_ne_str (v : option Value) (s : JS.str) : bool :=
  match v with
  | Some (VStr s') => bool_decide (s' ≠ s)
  | _ => true
  end.

End Firestore.

(** ** SettingsPage.tsx: the password-reset flow *)
Module SettingsPage.
Import Firestore.

Inductive PasswordStep := request | verify_token | set_password.

Inductive MessageType := success | error | warning.

Record Message := { type : MessageType; text : JS.str }.

(** The fields of the [profile] prop the flow reads. [last_password_change]
    is what the three conversion branches of the effect make of it: a [Date]
    with a time value, or an invalid one. *)
Inductive Date := ValidDate (t : Z) | InvalidDate.

Record Profile := {
  id : JS.str;
  email : option JS.str;
  last_password_change : option Date;
  special_password_token : option JS.str;
}.

(** The [useState] cells of the security tab. *)
Record State := {
  step : PasswordStep;
  verificationToken : JS.str;
  generatedToken : JS.str;
  devTokenDisplay : option JS.str;
  newPassword : JS.str;
  confirmPassword : JS.str;
  isUsingSpecialToken : bool;
  daysRemaining : Z;
  isProcessing : bool;
  message : option Message;
}.

Definition initialState : State :=
  {| step := request; verificationToken := []; generatedToken := [];
     devTokenDisplay := None; newPassword := []; confirmPassword := [];
     isUsingSpecialToken := false; daysRemaining := 0%Z;
     isProcessing := false; message := None |}.

Definition setStep (v : PasswordStep) (st : State) : State :=
  {| step := v; verificationToken := verificationToken st;
     generatedToken := generatedToken st;
     devTokenDisplay := devTokenDisplay st; newPassword := newPassword st;
     confirmPassword := confirmPassword st;
     isUsingSpecialToken := isUsingSpecialToken st;
     daysRemaining := daysRemaining st; isProcessing := isProcessing st;
     message := message st |}.

Definition setVerificationToken (v : JS.str) (st : State) : State :=
  {| step := step st; verificationToken := v;
     generatedToken := generatedToken st;
     devTokenDisplay := devTokenDisplay st; newPassword := newPassword st;
     confirmPassword := confirmPassword st;
     isUsingSpecialToken := isUsingSpecialToken st;
     daysRemaining := daysRemaining st; isProcessing := isProcessing st;
     message := message st |}.

Definition setGeneratedToken (v : JS.str) (st : State) : State :=
  {| step := step st; verificationToken := verificationToken st;
     generatedToken := v;
     devTokenDisplay := devTokenDisplay st; newPassword := newPassword st;
     confirmPassword := confirmPassword st;
     isUsingSpecialToken := isUsingSpecialToken st;
     daysRemaining := daysRemaining st; isProcessing := isProcessing st;
     message := message st |}.

Definition setDevTokenDisplay (v : option JS.str) (st : State) : State :=
  {| step := step st; verificationToken := verificationToken st;
     generatedToken := generatedToken st;
     devTokenDisplay := v; newPassword := newPassword st;
     confirmPassword := confirmPassword st;
     isUsingSpecialToken := isUsingSpecialToken st;
     daysRemaining := daysRemaining st; isProcessing := isProcessing st;
     message := message st |}.

Definition setNewPassword (v : JS.str) (st : State) : State :=
  {| step := step st; verificationToken := verificationToken st;
     generatedToken := generatedToken st;
     devTokenDisplay := devTokenDisplay st; newPassword := v;
     confirmPassword := confirmPassword st;
     isUsingSpecialToken := isUsingSpecialToken st;
     daysRemaining := daysRemaining st; isProcessing := isProcessing st;
     message := message st |}.

Definition setConfirmPassword (v : JS.str) (st : State) : State :=
  {| step := step st; verificationToken := verificationToken st;
     generatedToken := generatedToken st;
     devTokenDisplay := devTokenDisplay st; newPassword := newPassword st;
     confirmPassword := v;
     isUsingSpecialToken := isUsingSpecialToken st;
     daysRemaining := daysRemaining st; isProcessing := isProcessing st;
     message := message st |}.

Definition setIsUsingSpecialToken (v : bool) (st : State) : State :=
  {| step := step st; verificationToken := verificationToken st;
     generatedToken := generatedToken st;
     devTokenDisplay := devTokenDisplay st; newPassword := newPassword st;
     confirmPassword := confirmPassword st;
     isUsingSpecialToken := v;
     daysRemaining := daysRemaining st; isProcessing := isProcessing st;
     message := message st |}.

Definition setDaysRemaining (v : Z) (st : State) : State :=
  {| step := step st; verificationToken := verificationToken st;
     generatedToken := generatedToken st;
     devTokenDisplay := devTokenDisplay st; newPassword := newPassword st;
     confirmPassword := confirmPassword st;
     isUsingSpecialToken := isUsingSpecialToken st;
     daysRemaining := v; isProcessing := isProcessing st;
     message := message st |}.

Definition setIsProcessing (v : bool) (st : State) : State :=
  {| step := step st; verificationToken := verificationToken st;
     generatedToken := generatedToken st;
     devTokenDisplay := devTokenDisplay st; newPassword := newPassword st;
     confirmPassword := confirmPassword st;
     isUsingSpecialToken := isUsingSpecialToken st;
     daysRemaining := daysRemaining st; isProcessing := v;
     message := message st |}.

Definition setMessage (v : option Message) (st : State) : State :=
  {| step := step st; verificationToken := verificationToken st;
     generatedToken := generatedToken st;
     devTokenDisplay := devTokenDisplay st; newPassword := newPassword st;
     confirmPassword := confirmPassword st;
     isUsingSpecialToken := isUsingSpecialToken st;
     daysRemaining := daysRemaining st; isProcessing := isProcessing st;
     message := v |}.

(** [n.toString()] for an integral number. *)
Definition numToString (n : Z) : JS.str :=
  if (n <? 0)%Z then 45%N :: JS.toString (Z.to_N (- n))
  else JS.toString (Z.to_N n).

(** [err.message || fallback] *)
Definition messageOr (m fallback : JS.str) : JS.str :=
  if JS.falsy m then fallback else m.

(** [!s] for an optional string ([None]: null or undefined). *)
Definition absent (s : option JS.str) : bool :=
  match s with Some s => JS.falsy s | None => true end.

(** *** The 30-day restriction (the effect on [profile.last_password_change]) *)

Definition msPerDay : Z := 1000 * 60 * 60 * 24.

(** [Math.ceil(a / b)] for integral [a] and [b > 0]. *)
Definition ceilDiv (a b : Z) : Z := (- ((- a) / b))%Z.

(** The local time zone of the browser, as ECMAScript sees it: the offset
    of local time from UTC, in ms, at an instant ([LocalTZA(t, true)]) and
    at a local time value ([LocalTZA(t, false)]). *)
Record TimeZone := {
  offsetAt : Z → Z;
  offsetOfLocal : Z → Z;
}.

(** The abstract operations of ECMAScript on time values. *)
Definition LocalTime (tz : TimeZone) (t : Z) : Z := (t + offsetAt tz t)%Z.
Definition UTC (tz : TimeZone) (t : Z) : Z := (t - offsetOfLocal tz t)%Z.
Definition Day (t : Z) : Z := (t / msPerDay)%Z.
Definition TimeWithinDay (t : Z) : Z := (t mod msPerDay)%Z.
Definition MakeDate (day time : Z) : Z := (day * msPerDay + time)%Z.

(** [TimeClip]: a time value is at most 8.64e15 ms from the epoch; [None]
    is [NaN]. *)
Definition maxTime : Z := 8640000000000000.

Definition TimeClip (t : Z) : option Z :=
  if (Z.abs t <=? maxTime)%Z then Some t else None.

(** [d.setDate(d.getDate() + n)] on the time value [t] of [d]: the date is
    taken apart in local time, [MakeDay] of its year, its month and its day
    of the month plus [n] is the day [n] days after its own, the time within
    the day is kept, and the result is read as a local time. The instant is
    that of the same wall-clock time [n] calendar days later: [n] days of 24
    hours later only when the offset of the zone is the same at both. *)
Definition addDays (tz : TimeZone) (t n : Z) : option Z :=
  let local := LocalTime tz t in
  TimeClip (UTC tz (MakeDate (Day local + n) (TimeWithinDay local))).

(** The effect, run when the clock reads [now]. A comparison with [NaN] is
    false. The quotient of [Math.ceil] is computed on doubles: it rounds to
    the same whole number as the exact quotient as long as the time left is
    under 2^27 days, which it is for every clock that is not before the
    epoch. *)
Definition restrictionEffect (tz : TimeZone) (profile : Profile) (now : Z)
    (st : State) : State :=
  match last_password_change profile with
  | Some (ValidDate lastDate) =>
      match addDays tz lastDate 30 with
      | Some nextDate =>
          if (now <? nextDate)%Z then
            let diffTime := Z.abs (nextDate - now) in
            let diffDays := ceilDiv diffTime msPerDay in
            setDaysRemaining diffDays st
          else setDaysRemaining 0%Z st
      | None => setDaysRemaining 0%Z st
      end
  | Some InvalidDate | None => st
  end.

(** *** Backend calls and what a handler produces *)

Inductive Call :=
| AuthGetUser
| InvokeSendEmail (to token : JS.str)
| ProfilesGet (docId : JS.str)
| AuthUpdateUser (password : JS.str)
| ProfilesUpdate (docId : JS.str) (fields : Fields).

Record Outcome := { state : State; calls : list Call }.

(** The writes to the [profiles] collection among some calls. *)
Definition profileWrites (made : list Call) : list (JS.str * Fields) :=
  omap (λ c, match c with
             | ProfilesUpdate docId fields => Some (docId, fields)
             | _ => None
             end) made.

(** *** [handleRequestToken] *)

(** What the handler gets from outside: [random_code] is
    [Math.floor(100000 + Math.random() * 900000)], [auth_user_email] the
    email of [supabase.auth.getUser()], and [send_email_ok] tells whether the
    [send-email] function answered without an error. *)
Record RequestEnv := {
  random_code : N;
  auth_user_email : option JS.str;
  send_email_ok : bool;
}.

Definition securityLimitText (days : Z) : JS.str :=
  JS.lit "Security Limit: You can only change your password once every 30 days. Please wait "
  ++ numToString days ++ JS.lit " more day(s).".

Definition codeSentText (to : JS.str) : JS.str :=
  JS.lit "Verification code sent to " ++ to.

(** The [catch] branch: the code goes to the developer-mode display. *)
Definition requestFallback (token : JS.str) (st : State) : State :=
  setIsProcessing false (setStep verify_token (setDevTokenDisplay (Some token) st)).

Definition handleRequestToken (profile : Profile) (env : RequestEnv)
    (st0 : State) : Outcome :=
  let st := setDevTokenDisplay None (setMessage None st0) in
  if (0 <? daysRemaining st0)%Z && negb (isUsingSpecialToken st0) then
    {| state :=
         setMessage
           (Some {| type := error;
                    text := securityLimitText (daysRemaining st0) |}) st;
       calls := [] |}
  else
    let st := setIsProcessing true st in
    let token := JS.toString (random_code env) in
    let st := setGeneratedToken token st in
    let '(emailToSend, lookups) :=
      if absent (email profile) then (auth_user_email env, [AuthGetUser])
      else (email profile, []) in
    match emailToSend with
    | Some to =>
        if JS.falsy to then
          {| state := requestFallback token st; calls := lookups |}
        else if send_email_ok env then
          {| state :=
               setIsProcessing false
                 (setStep verify_token
                    (setMessage
                       (Some {| type := success; text := codeSentText to |})
                       st));
             calls := lookups ++ [InvokeSendEmail to token] |}
        else
          {| state := requestFallback token st;
             calls := lookups ++ [InvokeSendEmail to token] |}
    | None => {| state := requestFallback token st; calls := lookups |}
    end.

(** The "I have an Administrative Token" button of the request step. *)
Definition useAdministrativeToken (st : State) : State :=
  setDevTokenDisplay None
    (setMessage None (setStep verify_token (setIsUsingSpecialToken true st))).

(** What the banner of the verify step shows:
    [devTokenDisplay && !isUsingSpecialToken]. *)
Definition devTokenBanner (st : State) : option JS.str :=
  match step st, devTokenDisplay st with
  | verify_token, Some t =>
      if JS.falsy t || isUsingSpecialToken st then None else Some t
  | _, _ => None
  end.

(** *** [handleVerifyToken] *)

(** The [profiles] collection at the time of the read, and the error
    message of the read when it is rejected. *)
Record VerifyEnv := {
  profiles_now : gmap JS.str Doc;
  get_error : option JS.str;
}.

Definition invalidAdminTokenText : JS.str :=
  JS.lit "Invalid Administrative Token.".

Definition invalidCodeText : JS.str := JS.lit "Invalid verification code.".

(** The body of the [try]: the message of the error thrown, if any, and the
    calls made. *)
Definition verifyAttempt (profile : Profile) (env : VerifyEnv) (st : State)
    : option JS.str * list Call :=
  if isUsingSpecialToken st then
    match get_error env with
    | Some m => (Some m, [ProfilesGet (id profile)])
    | None =>
        let currentData := profiles_now env !! id profile in
        let stored := currentData ≫= (λ d : Doc, d !! "special_password_token"%string) in
        if falsy stored
           || strict_ne_str stored (JS.trim (verificationToken st))
        then (Some invalidAdminTokenText, [ProfilesGet (id profile)])
        else (None, [ProfilesGet (id profile)])
    end
  else if bool_decide (JS.trim (verificationToken st) ≠ generatedToken st)
  then (Some invalidCodeText, [])
  else (None, []).

Definition handleVerifyToken (profile : Profile) (env : VerifyEnv)
    (st0 : State) : Outcome :=
  let st := setIsProcessing true (setMessage None st0) in
  let '(thrown, made) := verifyAttempt profile env st in
  match thrown with
  | None =>
      {| state := setIsProcessing false (setMessage None (setStep set_password st));
         calls := made |}
  | Some m =>
      {| state :=
           setIsProcessing false
             (setMessage (Some {| type := error; text := m |}) st);
         calls := made |}
  end.

(** *** [handlePasswordUpdate] *)

(** The persistent state the last step writes: the credential of the signed-in
    user in the auth service, and the [profiles] collection. *)
Record Backend := {
  credential : JS.str;
  profiles : gmap JS.str Doc;
}.

(** The answers of the two services: the message of the error
    [supabase.auth.updateUser] returns, the message of the error that rejects
    the profile update for a reason of the network or the rules, and the
    clocks of the server and of the browser. *)
Record UpdateEnv := {
  update_user_error : option JS.str;
  profile_update_error : option JS.str;
  server_now : Z;
  client_now : Z;
}.

Definition passwordsDoNotMatchText : JS.str :=
  JS.lit "Passwords do not match.".

Definition passwordTooShortText : JS.str :=
  JS.lit "Password must be at least 6 characters.".

Definition passwordUpdatedText : JS.str :=
  JS.lit "Password updated successfully. You are now restricted from changing it for 30 days.".

Definition failedToUpdateText : JS.str := JS.lit "Failed to update password.".

Definition documentNotFoundText : JS.str :=
  JS.lit "No document to update".

(** The [dbUpdates] object. *)
Definition dbUpdates (usingSpecialToken : bool) : Fields :=
  let updates : Fields := {[ "last_password_change"%string := ServerTimestamp ]} in
  if usingSpecialToken
  then <[ "special_password_token"%string := DeleteField ]> updates
  else updates.

(** The [localUpdates] object handed to [onProfileUpdate]. *)
Definition localUpdates (usingSpecialToken : bool) (now : Z) : Doc :=
  let updates : Doc := {[ "last_password_change"%string := VTime now ]} in
  if usingSpecialToken
  then <[ "special_password_token"%string := VNull ]> updates
  else updates.

(** [db.collection('profiles').doc(id).update(fields)]: rejected when the
    service says so or when there is no such document. *)
Definition profilesUpdate (env : UpdateEnv) (docId : JS.str) (fields : Fields)
    (store : gmap JS.str Doc) : JS.str + gmap JS.str Doc :=
  match profile_update_error env with
  | Some m => inl m
  | None =>
      match store !! docId with
      | Some d => inr (<[ docId := apply_update (server_now env) fields d ]> store)
      | None => inl documentNotFoundText
      end
  end.

Record UpdateOutcome := {
  after : Outcome;
  backend : Backend;
  onProfileUpdate : option Doc;
}.

(** The form as it is reset after a success. *)
Definition resetForm (st : State) : State :=
  setIsUsingSpecialToken false
    (setDevTokenDisplay None
       (setGeneratedToken []
          (setVerificationToken []
             (setConfirmPassword [] (setNewPassword [] (setStep request st)))))).

Definition handlePasswordUpdate (profile : Profile) (env : UpdateEnv)
    (db : Backend) (st0 : State) : UpdateOutcome :=
  let st := setMessage None st0 in
  let failed (m : JS.str) (st : State) (made : list Call) (db : Backend) :=
    {| after := {| state := setMessage (Some {| type := error; text := m |}) st;
                   calls := made |};
       backend := db; onProfileUpdate := None |} in
  if bool_decide (newPassword st0 ≠ confirmPassword st0) then
    failed passwordsDoNotMatchText st [] db
  else if bool_decide (length (newPassword st0) < 6) then
    failed passwordTooShortText st [] db
  else
    let st := setIsProcessing true st in
    let updateUser := AuthUpdateUser (newPassword st0) in
    match update_user_error env with
    | Some m =>
        failed (messageOr m failedToUpdateText) (setIsProcessing false st)
          [updateUser] db
    | None =>
        let db1 := {| credential := newPassword st0; profiles := profiles db |} in
        let fields := dbUpdates (isUsingSpecialToken st0) in
        let update := ProfilesUpdate (id profile) fields in
        match profilesUpdate env (id profile) fields (profiles db1) with
        | inl m =>
            failed (messageOr m failedToUpdateText) (setIsProcessing false st)
              [updateUser; update] db1
        | inr store =>
            {| after :=
                 {| state :=
                      setIsProcessing false
                        (resetForm
                           (setMessage
                              (Some {| type := success;
                                       text := passwordUpdatedText |}) st));
                    calls := [updateUser; update] |};
               backend := {| credential := credential db1; profiles := store |};
               onProfileUpdate :=
                 Some (localUpdates (isUsingSpecialToken st0) (client_now env)) |}
        end
    end.

End SettingsPage.

(** ** MonitorPage: attendance marking *)
Module MonitorPage.

Inductive Status := Present | Absent | Late | Excused.

(** The [timestamp] field of a record: the server-timestamp sentinel written
    to the store, the local placeholder [{ toDate: () => new Date() }] of an
    optimistic record, or a stored instant. *)
Inductive Stamp := ServerStamp | LocalPlaceholder | StoredAt (t : Z).

Record AttendanceRecord := {
  rec_id : option JS.str;
  userId : JS.str;
  date : JS.str;
  status : Status;
  markedBy : JS.str;
  timestamp : Stamp;
}.

Record Profile := { id : JS.str; full_name : JS.str; student_id : JS.str }.

(** The cells the two handlers read and write. *)
Record State := {
  selectedDate : JS.str;
  attendanceData : gmap JS.str AttendanceRecord;
  error : option JS.str;
  isBulkUpdating : bool;
}.

(** A write queued in a batch or sent alone: [set(doc(docId), record)]. *)
Abbreviation SetOp := (JS.str * AttendanceRecord)%type.

Inductive Call :=
| DocSet (w : SetOp)
| BatchCommit (batch : list SetOp).

(** The [attendance] collection after the writes of a committed batch. *)
Definition applyBatch (batch : list SetOp)
    (store : gmap JS.str AttendanceRecord) : gmap JS.str AttendanceRecord :=
  foldl (λ s w, <[ w.1 := w.2 ]> s) store batch.

Record Outcome := {
  state : State;
  calls : list Call;
  attendance : gmap JS.str AttendanceRecord;
}.

(** [`${selectedDate}_${userId}`] *)
Definition docIdOf (selectedDate userId : JS.str) : JS.str :=
  selectedDate ++ JS.lit "_" ++ userId.

Definition newRecord (selectedDate monitor target : JS.str) (s : Status)
    : AttendanceRecord :=
  {| rec_id := None; userId := target; date := selectedDate; status := s;
     markedBy := monitor; timestamp := ServerStamp |}.

(** [{ ...record, id: docId, timestamp: { toDate: () => new Date() } }] *)
Definition optimistic (docId : JS.str) (r : AttendanceRecord)
    : AttendanceRecord :=
  {| rec_id := Some docId; userId := userId r; date := date r;
     status := status r; markedBy := markedBy r;
     timestamp := LocalPlaceholder |}.

Definition failedToSaveText : JS.str :=
  JS.lit "Failed to save attendance update.".

Definition failedToUpdateAllText : JS.str :=
  JS.lit "Failed to update all records. Please try again.".

(** [handleStatusUpdate(targetUserId, status)]; [write_ok] tells whether the
    store accepted the write. *)
Definition handleStatusUpdate (user targetUserId : JS.str) (s : Status)
    (write_ok : bool) (store : gmap JS.str AttendanceRecord) (st : State)
    : Outcome :=
  let prevData := attendanceData st in
  let docId := docIdOf (selectedDate st) targetUserId in
  let record := newRecord (selectedDate st) user targetUserId s in
  let shown := <[ targetUserId := optimistic docId record ]> (attendanceData st) in
  if write_ok then
    {| state := {| selectedDate := selectedDate st; attendanceData := shown;
                   error := error st; isBulkUpdating := isBulkUpdating st |};
       calls := [DocSet (docId, record)];
       attendance := <[ docId := record ]> store |}
  else
    {| state := {| selectedDate := selectedDate st; attendanceData := prevData;
                   error := Some failedToSaveText;
                   isBulkUpdating := isBulkUpdating st |};
       calls := [DocSet (docId, record)];
       attendance := store |}.

(** The body of [filteredProfiles.forEach]: one more write in the batch, one
    more entry in the optimistic map. *)
Definition bulkStep (selectedDate user : JS.str) (s : Status)
    (acc : list SetOp * gmap JS.str AttendanceRecord) (profile : Profile)
    : list SetOp * gmap JS.str AttendanceRecord :=
  let docId := docIdOf selectedDate (id profile) in
  let record := newRecord selectedDate user (id profile) s in
  (acc.1 ++ [(docId, record)],
   <[ id profile := optimistic docId record ]> acc.2).

(** The write [forEach] queues for the row of [uid], and the record it puts
    in the optimistic map for it. *)
Definition queuedWrite (selectedDate user : JS.str) (s : Status)
    (uid : JS.str) : SetOp :=
  (docIdOf selectedDate uid, newRecord selectedDate user uid s).

Definition shownRecord (selectedDate user : JS.str) (s : Status)
    (uid : JS.str) : AttendanceRecord :=
  optimistic (docIdOf selectedDate uid) (newRecord selectedDate user uid s).

(** [handleBulkStatusUpdate(status)] over the rows in [filteredProfiles];
    [commit_ok] tells whether the store committed the batch. *)
Definition handleBulkStatusUpdate (user : JS.str)
    (filteredProfiles : list Profile) (s : Status) (commit_ok : bool)
    (store : gmap JS.str AttendanceRecord) (st : State) : Outcome :=
  if bool_decide (length filteredProfiles = 0) then
    {| state := st; calls := []; attendance := store |}
  else
    let prevData := attendanceData st in
    let '(batch, newAttendanceMap) :=
      foldl (bulkStep (selectedDate st) user s) ([], attendanceData st)
        filteredProfiles in
    if commit_ok then
      {| state := {| selectedDate := selectedDate st;
                     attendanceData := newAttendanceMap;
                     error := None; isBulkUpdating := false |};
         calls := [BatchCommit batch];
         attendance := applyBatch batch store |}
    else
      {| state := {| selectedDate := selectedDate st;
                     attendanceData := prevData;
                     error := Some failedToUpdateAllText;
                     isBulkUpdating := false |};
         calls := [BatchCommit batch];
         attendance := store |}.

End MonitorPage.

(** ** MayorPage.tsx: the broadcast tab *)
Module MayorPage.
Import Firestore.

Inductive StatusType := success | error.

Record Status := { type : StatusType; msg : JS.str }.

Record State := {
  title : JS.str;
  message : JS.str;
  isSending : bool;
  status : option Status;
  isConfirmOpen : bool;
}.

(** A document of the [notifications] collection as the client writes it. *)
Record Notification := {
  n_title : JS.str;
  n_message : JS.str;
  is_read : bool;
  notification_type : JS.str;
  created_at : FieldValue;
  user_id : JS.str;
}.

(** The [profiles] collection as read, the message of the error when the
    read is rejected, and, for the [k]-th commit, the message of the error
    when the store rejects it. *)
Record Env := {
  profiles : gmap JS.str Doc;
  get_error : option JS.str;
  commit_error : nat → option JS.str;
}.

(** [`📢 ${title}`]: the megaphone is the surrogate pair D83D DCE2. *)
Definition announcementTitle (title : JS.str) : JS.str :=
  [0xD83D; 0xDCE2; 32]%N ++ title.

(** [{ ...notificationData, user_id: uid }] *)
Definition notificationFor (title message uid : JS.str) : Notification :=
  {| n_title := announcementTitle title; n_message := message;
     is_read := false; notification_type := JS.lit "announcement";
     created_at := ServerTimestamp; user_id := uid |}.

(** What the loop over the chunks has done so far: the value of [count],
    the batches it asked the store to commit, and the documents created. *)
Record Progress := {
  count : nat;
  commits : list (list Notification);
  created : list Notification;
}.

(** [for (const chunk of chunks)], from the [k]-th commit on. Every
    [doc()] has a new automatic id, so that every write of a committed batch
    creates one more document. The result is the progress, and the message
    of the error that ended the loop, if any. *)
Fixpoint broadcastLoop (env : Env) (title message : JS.str) (k : nat)
    (chunks : list (list JS.str)) (p : Progress)
    : Progress * option JS.str :=
  match chunks with
  | [] => (p, None)
  | chunk :: chunks' =>
      let batch := notificationFor title message <$> chunk in
      let count' := count p + length chunk in
      match commit_error env k with
      | Some m =>
          ({| count := count'; commits := commits p ++ [batch];
              created := created p |}, Some m)
      | None =>
          broadcastLoop env title message (S k) chunks'
            {| count := count'; commits := commits p ++ [batch];
               created := created p ++ batch |}
      end
  end.

Definition noUsersText : JS.str := JS.lit "No users found to broadcast to.".

Definition sentText (count : nat) : JS.str :=
  JS.lit "Broadcast successfully sent to "
  ++ JS.toString (N.of_nat count) ++ JS.lit " users.".

Definition failedText (m : JS.str) : JS.str :=
  JS.lit "Broadcast failed. "
  ++ (if JS.falsy m then JS.lit "Unknown error" else m).

Record Outcome := {
  state : State;
  batches : list (list Notification);
  notifications : list Notification;
}.

(** [executeBroadcast()]; [store] is the [notifications] collection.
    [None]: [chunkArray] does not return. *)
Definition executeBroadcast (env : Env) (store : list Notification)
    (st : State) : option Outcome :=
  let failed (m : JS.str) (p : Progress) :=
    {| state := {| title := title st; message := message st;
                   isSending := false;
                   status := Some {| type := error; msg := failedText m |};
                   isConfirmOpen := false |};
       batches := commits p; notifications := store ++ created p |} in
  let start := {| count := 0; commits := []; created := [] |} in
  match get_error env with
  | Some m => Some (failed m start)
  | None =>
      let docs := map_to_list (profiles env) in
      if bool_decide (docs = []) then Some (failed noUsersText start)
      else
        let userIds := fst <$> docs in
        chunks ← Chunk.chunkArray userIds 450;
        match broadcastLoop env (title st) (message st) 0 chunks start with
        | (p, Some m) => Some (failed m p)
        | (p, None) =>
            Some
              {| state := {| title := []; message := []; isSending := false;
                             status := Some {| type := success;
                                               msg := sentText (count p) |};
                             isConfirmOpen := false |};
                 batches := commits p; notifications := store ++ created p |}
        end
  end.

(** A notification as the store holds it: at the commit of its batch the
    server has put the instant of the commit in the place of the
    [serverTimestamp] sentinel. *)
Record StoredNotification := {
  s_title : JS.str;
  s_message : JS.str;
  s_is_read : bool;
  s_notification_type : JS.str;
  s_created_at : option Value;
  s_user_id : JS.str;
}.

Definition storedAt (now : Z) (n : Notification) : StoredNotification :=
  {| s_title := n_title n; s_message := n_message n; s_is_read := is_read n;
     s_notification_type := notification_type n;
     s_created_at := resolve now (Some (created_at n)) None;
     s_user_id := user_id n |}.

(** The documents the commits of some batches create, the [k]-th of them
    taking place at the instant [commit_time k] of the server. *)
Definition storedDocs (commit_time : nat → Z)
    (committed : list (list Notification)) : list StoredNotification :=
  concat (imap (λ k batch, storedAt (commit_time k) <$> batch) committed).

End MayorPage.

(** ** Concrete inputs, used by the examples of Part II *)
Module Samples.
Import Firestore.

(** A profile whose password was last changed at instant 0 and to which an
    administrator has issued the bypass token [ABC123]. *)
Definition holder : SettingsPage.Profile :=
  {| SettingsPage.id := JS.lit "u1";
     SettingsPage.email := Some (JS.lit "u1@bsee.test");
     SettingsPage.last_password_change := Some (SettingsPage.ValidDate 0);
     SettingsPage.special_password_token := Some (JS.lit "ABC123") |}.

(** Its document in the [profiles] collection. *)
Definition holderDoc : Doc :=
  {[ "special_password_token"%string := VStr (JS.lit "ABC123");
     "last_password_change"%string := VTime 0;
     "full_name"%string := VStr (JS.lit "U One") ]}.

Definition tokenStore : SettingsPage.VerifyEnv :=
  {| SettingsPage.profiles_now := {[ JS.lit "u1" := holderDoc ]};
     SettingsPage.get_error := None |}.

(** A session in the verify step. *)
Definition verifying (bypass : bool) (generated entered : JS.str)
    : SettingsPage.State :=
  {| SettingsPage.step := SettingsPage.verify_token;
     SettingsPage.verificationToken := entered;
     SettingsPage.generatedToken := generated;
     SettingsPage.devTokenDisplay := None;
     SettingsPage.newPassword := []; SettingsPage.confirmPassword := [];
     SettingsPage.isUsingSpecialToken := bypass;
     SettingsPage.daysRemaining := 0%Z;
     SettingsPage.isProcessing := false; SettingsPage.message := None |}.

(** A session in the last step, with the two password fields filled. *)
Definition settingPassword (bypass : bool) (new confirm : JS.str)
    : SettingsPage.State :=
  {| SettingsPage.step := SettingsPage.set_password;
     SettingsPage.verificationToken := JS.lit "ABC123";
     SettingsPage.generatedToken := [];
     SettingsPage.devTokenDisplay := None;
     SettingsPage.newPassword := new; SettingsPage.confirmPassword := confirm;
     SettingsPage.isUsingSpecialToken := bypass;
     SettingsPage.daysRemaining := 0%Z;
     SettingsPage.isProcessing := false; SettingsPage.message := None |}.

(** A zone without changes of offset, and one that goes from UTC+1 to UTC+2
    on 2025-03-30 at 01:00 UTC (a local time in the hour skipped is read
    with the offset before the change). *)
Definition utc : SettingsPage.TimeZone :=
  {| SettingsPage.offsetAt := λ _, 0%Z;
     SettingsPage.offsetOfLocal := λ _, 0%Z |}.

Definition centralEurope : SettingsPage.TimeZone :=
  {| SettingsPage.offsetAt :=
       λ t, if (t <? 1743296400000)%Z then 3600000%Z else 7200000%Z;
     SettingsPage.offsetOfLocal :=
       λ t, if (t <? 1743296400000 + 7200000)%Z then 3600000%Z
            else 7200000%Z |}.

(** A profile whose password was last changed on 2025-03-15 at 12:00 UTC. *)
Definition changedInMarch : SettingsPage.Profile :=
  {| SettingsPage.id := JS.lit "u1";
     SettingsPage.email := Some (JS.lit "u1@bsee.test");
     SettingsPage.last_password_change :=
       Some (SettingsPage.ValidDate 1742040000000);
     SettingsPage.special_password_token := None |}.

Definition mailerDown : SettingsPage.RequestEnv :=
  {| SettingsPage.random_code := 123456;
     SettingsPage.auth_user_email := None;
     SettingsPage.send_email_ok := false |}.

Definition servicesUp : SettingsPage.UpdateEnv :=
  {| SettingsPage.update_user_error := None;
     SettingsPage.profile_update_error := None;
     SettingsPage.server_now := 5000; SettingsPage.client_now := 4990 |}.

(** [n] rows of the attendance table, with the ids [0], [1], ... *)
Definition rows (n : nat) : list MonitorPage.Profile :=
  (λ i, {| MonitorPage.id := JS.toString (N.of_nat i);
           MonitorPage.full_name := JS.lit "Student";
           MonitorPage.student_id := JS.toString (N.of_nat i) |}) <$> seq 0 n.

(** The monitor page on a day for which nothing is marked yet. *)
Definition unmarked : MonitorPage.State :=
  {| MonitorPage.selectedDate := JS.lit "2025-01-15";
     MonitorPage.attendanceData := ∅;
     MonitorPage.error := None; MonitorPage.isBulkUpdating := false |}.

(** Two registered users, and a store that commits every batch. *)
Definition twoUsers : MayorPage.Env :=
  {| MayorPage.profiles :=
       {[ JS.lit "u1" := holderDoc; JS.lit "u2" := (∅ : Doc) ]};
     MayorPage.get_error := None;
     MayorPage.commit_error := λ _, None |}.

(** 451 registered users, with the ids [0], [1], ..., and a store that
    commits every batch; the [k]-th commit takes place [k] seconds after
    the first. *)
Definition manyUsers : MayorPage.Env :=
  {| MayorPage.profiles :=
       list_to_map ((λ i, (JS.toString (N.of_nat i), (∅ : Doc))) <$> seq 0 451);
     MayorPage.get_error := None;
     MayorPage.commit_error := λ _, None |}.

Definition everySecond (k : nat) : Z := (Z.of_nat k * 1000)%Z.

Definition announcement : MayorPage.State :=
  {| MayorPage.title := JS.lit "Exam"; MayorPage.message := JS.lit "Room 2";
     MayorPage.isSending := false; MayorPage.status := None;
     MayorPage.isConfirmOpen := true |}.

Definition backend0 : SettingsPage.Backend :=
  {| SettingsPage.credential := JS.lit "old-secret";
     SettingsPage.profiles := {[ JS.lit "u1" := holderDoc ]} |}.

End Samples.

(** ** SettingsPage.tsx: the buttons around the flow, and the privacy tab *)
Module SettingsNav.
Import Firestore SettingsPage.

Inductive SettingsTab := overview | security | privacy | about.

(** The [onChange] of the token input. *)
Definition typeToken (value : JS.str) (st : State) : State :=
  setVerificationToken value st.

(** The Cancel button of the verify step. *)
Definition cancelVerify (st : State) : State :=
  setMessage None (setDevTokenDisplay None (setStep request st)).

(** The Cancel button of the last step. *)
Definition cancelSetPassword (st : State) : State :=
  setDevTokenDisplay None (setStep request st).

Record BackOutcome := {
  tab : SettingsTab;
  session : State;
  onBackCalled : bool;
}.

(** [handleBack]: from a tab back to the overview, resetting the form; from
    the overview, [onBack]. *)
Definition handleBack (activeTab : SettingsTab) (st : State) : BackOutcome :=
  match activeTab with
  | overview => {| tab := overview; session := st; onBackCalled := true |}
  | _ =>
      {| tab := overview;
         session :=
           setIsUsingSpecialToken false
             (setDevTokenDisplay None
                (setStep request
                   (setVerificationToken []
                      (setConfirmPassword []
                         (setNewPassword [] (setMessage None st))))));
         onBackCalled := false |}
  end.

(** *** [handlePrivacySave] *)

Record PrivacySettings := {
  p_email : JS.str;
  p_studentId : JS.str;
  p_lastSeen : JS.str;
}.

(** [value || 'only_me'] *)
Definition orOnlyMe (value : JS.str) : JS.str :=
  if JS.falsy value then JS.lit "only_me" else value.

(** The [newSettings] object. *)
Definition newSettings (ps : PrivacySettings) : Doc :=
  {[ "privacy_email"%string := VStr (orOnlyMe (p_email ps));
     "privacy_student_id"%string := VStr (orOnlyMe (p_studentId ps));
     "privacy_last_seen"%string := VStr (orOnlyMe (p_lastSeen ps)) ]}.

(** What a rejected call throws, as the [catch] tells the shapes apart: a
    string, an [Error], another object with or without a [message], or
    anything else. *)
Inductive Thrown :=
| ThrownString (s : JS.str)
| ThrownError (message : JS.str)
| ThrownObject (message : option JS.str)
| ThrownOther.

Definition failedToSaveText : JS.str := JS.lit "Failed to save settings.".

Definition privacySavedText : JS.str := JS.lit "Privacy settings saved.".

(** The text the [catch] shows. *)
Definition errMsgOf (err : Thrown) : JS.str :=
  match err with
  | ThrownString s => s
  | ThrownError m => m
  | ThrownObject (Some m) => m
  | ThrownObject None | ThrownOther => failedToSaveText
  end.

(** What the primary store throws, if it rejects the write, and whether the
    mirror write to the secondary store throws (its own [catch] then logs a
    warning and goes on). *)
Record PrivacyEnv := {
  primary_error : option Thrown;
  mirror_throws : bool;
}.

Inductive PrivacyCall :=
| PrimarySetMerge (docId : JS.str) (fields : Doc)
| MirrorUpdate (docId : JS.str) (fields : Doc).

Record PrivacyOutcome := {
  shown : option Message;
  isSavingPrivacy : bool;
  made : list PrivacyCall;
  primary : gmap JS.str Doc;
  handedUp : option Doc;
  mirrorWarned : bool;
}.

(** [ref.set(fields, { merge: true })] with plain values: the fields
    written replace those of the document, the others stay; a missing
    document is created. *)
Definition setMerge (docId : JS.str) (fields : Doc) (store : gmap JS.str Doc)
    : gmap JS.str Doc :=
  <[ docId := fields ∪ default ∅ (store !! docId) ]> store.

Definition handlePrivacySave (profile : Profile) (ps : PrivacySettings)
    (env : PrivacyEnv) (store : gmap JS.str Doc) : PrivacyOutcome :=
  let fields := newSettings ps in
  match primary_error env with
  | Some err =>
      {| shown := Some {| type := error; text := errMsgOf err |};
         isSavingPrivacy := false;
         made := [PrimarySetMerge (id profile) fields];
         primary := store; handedUp := None; mirrorWarned := false |}
  | None =>
      {| shown := Some {| type := success; text := privacySavedText |};
         isSavingPrivacy := false;
         made := [PrimarySetMerge (id profile) fields;
                  MirrorUpdate (id profile) fields];
         primary := setMerge (id profile) fields store;
         handedUp := Some fields;
         mirrorWarned := mirror_throws env |}
  end.

End SettingsNav.

(** ** MayorPage.tsx: the other tabs *)
Module MayorTabs.
Import Firestore.

(** *** BroadcastTab: the submit button of the form *)

(** [handleBroadcastClick]: the confirmation opens unless the title or the
    message is blank. *)
Definition handleBroadcastClick (st : MayorPage.State) : MayorPage.State :=
  if JS.falsy (JS.trim (MayorPage.title st))
     || JS.falsy (JS.trim (MayorPage.message st))
  then st
  else {| MayorPage.title := MayorPage.title st;
          MayorPage.message := MayorPage.message st;
          MayorPage.isSending := MayorPage.isSending st;
          MayorPage.status := MayorPage.status st;
          MayorPage.isConfirmOpen := true |}.

(** *** SecurityExceptionsTab *)

(** A row of [users]: [{ id: doc.id, ...doc.data() }]. *)
Record Profile := {
  id : JS.str;
  full_name : option JS.str;
  student_id : option JS.str;
  special_password_token : option JS.str;
}.

Record State := {
  users : list Profile;
  selectedUser : option Profile;
  generatedToken : option JS.str;
  isGenerating : bool;
  isRevokeModalOpen : bool;
  tokenToRevokeId : option JS.str;
  isRevoking : bool;
}.

(** [u.special_password_token] as a condition. *)
Definition hasToken (u : Profile) : bool :=
  match special_password_token u with
  | Some t => negb (JS.falsy t)
  | None => false
  end.

(** [activeExceptions] *)
Definition activeExceptions (us : list Profile) : list Profile :=
  List.filter hasToken us.

Definition chars : JS.str :=
  JS.lit "ABCDEFGHIJKLMNOPQRSTUVWXYZabcdefghijklmnopqrstuvwxyz0123456789".

(** [s.charAt(i)]: the empty string out of range. *)
Definition charAt (s : JS.str) (i : nat) : JS.str :=
  match s !! i with Some c => [c] | None => [] end.

(** The loop of [handleGenerate]; [draw i] is
    [Math.floor(Math.random() * chars.length)] at iteration [i]. *)
Definition randomPart (draw : nat → nat) : JS.str :=
  foldl (λ part i, part ++ charAt chars (draw i)) [] (seq 0 32).

Definition newToken (draw : nat → nat) : JS.str :=
  JS.lit "sk_live_" ++ randomPart draw.

(** [{ ...u, special_password_token: token }] *)
Definition withToken (token : option JS.str) (u : Profile) : Profile :=
  {| id := id u; full_name := full_name u; student_id := student_id u;
     special_password_token := token |}.

(** [prev.map(u => u.id === target ? { ...u, special_password_token } : u)] *)
Definition markUser (target : JS.str) (token : option JS.str)
    (us : list Profile) : list Profile :=
  (λ u, if bool_decide (id u = target) then withToken token u else u) <$> us.

(** [doc(docId).update(fields)]: rejected when the service says so
    ([rejected]) or when there is no such document. *)
Definition updateDoc (rejected : bool) (now : Z) (docId : JS.str)
    (fields : Fields) (store : gmap JS.str Doc) : option (gmap JS.str Doc) :=
  if rejected then None
  else d ← store !! docId;
       Some (<[ docId := apply_update now fields d ]> store).

Record Outcome := {
  state : State;
  store : gmap JS.str Doc;
  alerted : bool;
}.

(** [handleGenerate] *)
Definition handleGenerate (draw : nat → nat) (rejected : bool) (now : Z)
    (profiles : gmap JS.str Doc) (st : State) : Outcome :=
  match selectedUser st with
  | None => {| state := st; store := profiles; alerted := false |}
  | Some sel =>
      let token := newToken draw in
      match updateDoc rejected now (id sel)
              {[ "special_password_token"%string := Plain (VStr token) ]}
              profiles with
      | Some profiles' =>
          {| state :=
               {| users := markUser (id sel) (Some token) (users st);
                  selectedUser := selectedUser st;
                  generatedToken := Some token; isGenerating := false;
                  isRevokeModalOpen := isRevokeModalOpen st;
                  tokenToRevokeId := tokenToRevokeId st;
                  isRevoking := isRevoking st |};
             store := profiles'; alerted := false |}
      | None =>
          {| state :=
               {| users := users st; selectedUser := selectedUser st;
                  generatedToken := generatedToken st; isGenerating := false;
                  isRevokeModalOpen := isRevokeModalOpen st;
                  tokenToRevokeId := tokenToRevokeId st;
                  isRevoking := isRevoking st |};
             store := profiles; alerted := true |}
      end
  end.

(** [initiateRevoke(userId)] *)
Definition initiateRevoke (userId : JS.str) (st : State) : State :=
  {| users := users st; selectedUser := selectedUser st;
     generatedToken := generatedToken st; isGenerating := isGenerating st;
     isRevokeModalOpen := true; tokenToRevokeId := Some userId;
     isRevoking := isRevoking st |}.

(** [confirmRevoke] *)
Definition confirmRevoke (rejected : bool) (now : Z)
    (profiles : gmap JS.str Doc) (st : State) : Outcome :=
  match tokenToRevokeId st with
  | None => {| state := st; store := profiles; alerted := false |}
  | Some target =>
      if JS.falsy target then
        {| state := st; store := profiles; alerted := false |}
      else
        let closed us :=
          {| users := us; selectedUser := selectedUser st;
             generatedToken := generatedToken st;
             isGenerating := isGenerating st;
             isRevokeModalOpen := false; tokenToRevokeId := None;
             isRevoking := false |} in
        match updateDoc rejected now target
                {[ "special_password_token"%string := DeleteField ]}
                profiles with
        | Some profiles' =>
            {| state := closed (markUser target None (users st));
               store := profiles'; alerted := false |}
        | None =>
            {| state := closed (users st); store := profiles; alerted := true |}
        end
  end.

(** *** EventManagement *)

Record EventWithId := {
  docId : JS.str;
  ev_title : JS.str;
  eventDate : JS.str;
}.

Record EventsState := {
  events : list EventWithId;
  isConfirmModalOpen : bool;
  eventToDelete : option JS.str;
  isDeleting : bool;
}.

(** [handleDeleteClick(docId)] *)
Definition handleDeleteClick (target : JS.str) (st : EventsState)
    : EventsState :=
  {| events := events st; isConfirmModalOpen := true;
     eventToDelete := Some target; isDeleting := isDeleting st |}.

(** [confirmDeleteEvent]; [rejected] tells whether the store rejects the
    delete. The result is the state and the [events] collection. *)
Definition confirmDeleteEvent (rejected : bool) (coll : gmap JS.str Doc)
    (st : EventsState) : EventsState * gmap JS.str Doc :=
  match eventToDelete st with
  | None => (st, coll)
  | Some target =>
      if JS.falsy target then (st, coll)
      else if rejected then
        ({| events := events st; isConfirmModalOpen := false;
            eventToDelete := None; isDeleting := false |}, coll)
      else
        ({| events :=
              List.filter (λ e, bool_decide (docId e ≠ target)) (events st);
            isConfirmModalOpen := false; eventToDelete := None;
            isDeleting := false |},
         delete target coll)
  end.

(** *** SystemSettingsTab *)

Definition defaultTreasurerUrl : JS.str :=
  JS.lit "https://treasurer-s-portal-nchx.vercel.app/".

Definition globalConfig : JS.str := JS.lit "global_config".

(** [fetchSettings]: the value [treasurerUrl] gets. [read_fails] tells
    whether the read is rejected. *)
Definition fetchSettings (read_fails : bool) (settings : gmap JS.str Doc)
    : Value :=
  if read_fails then VStr defaultTreasurerUrl
  else
    match settings !! globalConfig
            ≫= (λ d : Doc, d !! "treasurer_portal_url"%string) with
    | Some url => if falsy (Some url) then VStr defaultTreasurerUrl else url
    | None => VStr defaultTreasurerUrl
    end.

Inductive SaveMessage := ConfigurationSaved | FailedToSave.

(** [handleSave]: [set({ treasurer_portal_url }, { merge: true })]. *)
Definition handleSave (rejected : bool) (treasurerUrl : JS.str)
    (settings : gmap JS.str Doc) : SaveMessage * gmap JS.str Doc :=
  if rejected then (FailedToSave, settings)
  else
    (ConfigurationSaved,
     SettingsNav.setMerge globalConfig
       {[ "treasurer_portal_url"%string := VStr treasurerUrl ]} settings).

End MayorTabs.

(** ** MonitorPage: loading the attendance of a day, and monitor names *)
Module MonitorData.
Import MonitorPage.

(** [{ ...data, id: doc.id }] *)
Definition withId (docId : JS.str) (data : AttendanceRecord)
    : AttendanceRecord :=
  {| rec_id := Some docId; userId := userId data; date := date data;
     status := status data; markedBy := markedBy data;
     timestamp := timestamp data |}.

(** [db.collection('attendance').where('date', '==', selectedDate).get()]:
    the documents of the day, with their ids. *)
Definition attendanceOf (store : gmap JS.str AttendanceRecord)
    (selectedDate : JS.str) : list (JS.str * AttendanceRecord) :=
  List.filter (λ doc, bool_decide (date doc.2 = selectedDate))
    (map_to_list store).

(** The [attendanceMap] that [fetchData] builds with
    [attendanceSnapshot.forEach]. *)
Definition attendanceMapOf (docs : list (JS.str * AttendanceRecord))
    : gmap JS.str AttendanceRecord :=
  foldl (λ m doc, <[ userId doc.2 := withId doc.1 doc.2 ]> m) ∅ docs.

Definition failedToLoadText : JS.str :=
  JS.lit "Failed to load data. Please try again.".

(** The attendance part of [fetchData]; [read_fails] tells whether a read
    is rejected. *)
Definition fetchData (read_fails : bool)
    (store : gmap JS.str AttendanceRecord) (st : State) : State :=
  if read_fails then
    {| selectedDate := selectedDate st; attendanceData := attendanceData st;
       error := Some failedToLoadText; isBulkUpdating := isBulkUpdating st |}
  else
    {| selectedDate := selectedDate st;
       attendanceData := attendanceMapOf (attendanceOf store (selectedDate st));
       error := None; isBulkUpdating := isBulkUpdating st |}.

(** The names of the members every plain object inherits from
    [Object.prototype] (ECMAScript 20.1.3 and B.2.2.1 to B.2.2.5). *)
Definition objectPrototypeKeys : list JS.str :=
  JS.lit <$> ["constructor"; "hasOwnProperty"; "isPrototypeOf";
              "propertyIsEnumerable"; "toLocaleString"; "toString";
              "valueOf"; "__proto__"; "__defineGetter__";
              "__defineSetter__"; "__lookupGetter__";
              "__lookupSetter__"]%string.

Definition protoKey : JS.str := JS.lit "__proto__".

(** [map[k] = v] on a plain object, for a string [v]: the setter of
    [__proto__] ignores a value that is neither an object nor null, and any
    other key becomes an own property. *)
Definition setProperty (k v : JS.str) (own : gmap JS.str JS.str)
    : gmap JS.str JS.str :=
  if bool_decide (k = protoKey) then own else <[ k := v ]> own.

(** What [map[k]] gives: the own property, the member inherited under that
    name (a function, or the prototype itself), or [undefined]. *)
Inductive Property :=
| OwnString (v : JS.str)
| InheritedMember (k : JS.str)
| Undefined.

Definition getProperty (k : JS.str) (own : gmap JS.str JS.str) : Property :=
  match own !! k with
  | Some v => OwnString v
  | None =>
      if bool_decide (k ∈ objectPrototypeKeys) then InheritedMember k
      else Undefined
  end.

(** [profileMap]: the own properties of the object built from [{}], the
    name of each profile under its id. *)
Definition profileMap (profiles : list Profile) : gmap JS.str JS.str :=
  foldl (λ m p, setProperty (id p) (full_name p) m) ∅ profiles.

(** What [getMonitorName] returns: a text, or a member of
    [Object.prototype], which is truthy and no string. *)
Inductive Shown :=
| Text (s : JS.str)
| Member (k : JS.str).

(** [getMonitorName(monitorId)] *)
Definition getMonitorName (user : JS.str) (profiles : list Profile)
    (monitorId : JS.str) : Shown :=
  if bool_decide (monitorId = user) then Text (JS.lit "You")
  else
    match getProperty monitorId (profileMap profiles) with
    | OwnString name =>
        Text (if JS.falsy name then JS.lit "Unknown" else name)
    | InheritedMember k => Member k
    | Undefined => Text (JS.lit "Unknown")
    end.

(** Every document of the collection is under the id made of its date and
    its user: what the two handlers write. *)
Definition keyed (store : gmap JS.str AttendanceRecord) : Prop :=
  ∀ k r, store !! k = Some r → k = docIdOf (date r) (userId r).

End MonitorData.

(** ** More of the string methods *)
Module JSText.

(** An index argument of [slice] made an offset into a string of length
    [len]: negative indices count from the end, and all are clamped. *)
Definition clampIndex (i : Z) (len : nat) : nat :=
  if (i <? 0)%Z then Z.to_nat (Z.of_nat len + i) else Z.to_nat i `min` len.

(** [s.slice(i, j)] *)
Definition slice (s : JS.str) (i j : Z) : JS.str :=
  let from := clampIndex i (length s) in
  let to := clampIndex j (length s) in
  take (to - from) (drop from s).

(** [s.slice(i)] *)
Definition sliceFrom (s : JS.str) (i : Z) : JS.str :=
  drop (clampIndex i (length s)) s.

(** [s.split(/\s/)], with [cur] the piece being read. *)
Fixpoint splitWhiteFrom (s cur : JS.str) : list JS.str :=
  match s with
  | [] => [cur]
  | c :: s' =>
      if JS.isWhiteSpace c then cur :: splitWhiteFrom s' []
      else splitWhiteFrom s' (cur ++ [c])
  end.

Definition splitWhite (s : JS.str) : list JS.str := splitWhiteFrom s [].

(** [s.startsWith(String.fromCharCode(c))] *)
Definition startsWithChar (c : N) (s : JS.str) : bool :=
  match s with c' :: _ => (c' =? c)%N | [] => false end.

(** The index of the first element of [s] that satisfies [p], counted from
    [i]; -1 when there is none. *)
Fixpoint indexFrom (p : N → bool) (s : JS.str) (i : Z) : Z :=
  match s with
  | [] => (-1)%Z
  | c :: s' => if p c then i else indexFrom p s' (i + 1)%Z
  end.

(** [s.search(/\s/)] *)
Definition searchWhite (s : JS.str) : Z := indexFrom JS.isWhiteSpace s 0.

(** The index of the last element of [s] equal to [c], counted from [i],
    [found] being the last one seen so far. *)
Fixpoint lastIndexFrom (c : N) (s : JS.str) (i found : Z) : Z :=
  match s with
  | [] => found
  | c' :: s' => lastIndexFrom c s' (i + 1)%Z (if (c' =? c)%N then i else found)
  end.

(** [s.lastIndexOf(String.fromCharCode(c))] *)
Definition lastIndexOfChar (c : N) (s : JS.str) : Z :=
  lastIndexFrom c s 0 (-1).

(** The code unit of [@]. *)
Definition at_sign : N := 64.

End JSText.

(** ** PostDetailModal.tsx: mentions, reactions, relative times *)
Module PostDetail.

(** *** Mentions in the comment box *)

Record Composer := {
  commentText : JS.str;
  mentionQuery : option JS.str;
  mentionIndex : Z;
}.

(** [handleInputChange]: [val] is the new text and [selectionEnd] the
    position of the cursor. *)
Definition handleInputChange (val : JS.str) (selectionEnd : nat)
    (st : Composer) : Composer :=
  let textBeforeCursor := JSText.slice val 0 (Z.of_nat selectionEnd) in
  let words := JSText.splitWhite textBeforeCursor in
  let currentWord := default [] (last words) in
  if JSText.startsWithChar JSText.at_sign currentWord then
    {| commentText := val;
       mentionQuery := Some (JSText.sliceFrom currentWord 1);
       mentionIndex := JSText.lastIndexOfChar JSText.at_sign textBeforeCursor |}
  else
    {| commentText := val; mentionQuery := None;
       mentionIndex := mentionIndex st |}.

(** [handleMentionSelect(profile)], with the name of the profile. *)
Definition handleMentionSelect (full_name : JS.str) (st : Composer)
    : Composer :=
  if (mentionIndex st =? -1)%Z then st
  else
    let beforeMention := JSText.slice (commentText st) 0 (mentionIndex st) in
    let afterCursor := JSText.sliceFrom (commentText st) (mentionIndex st) in
    let nextSpaceIndex := JSText.searchWhite afterCursor in
    let afterMention :=
      if (nextSpaceIndex =? -1)%Z then []
      else JSText.sliceFrom afterCursor nextSpaceIndex in
    {| commentText :=
         beforeMention ++ [JSText.at_sign] ++ full_name ++ JS.lit " "
         ++ afterMention;
       mentionQuery := None;
       mentionIndex := mentionIndex st |}.

(** A word can start after [prefix]: it is empty or ends in white space. *)
Definition atWordStart (prefix : JS.str) : Prop :=
  prefix = [] ∨ ∃ p c, prefix = p ++ [c] ∧ JS.isWhiteSpace c = true.

(** *** Relative times *)

Inductive TimeLabel :=
| JustNow
| MinutesAgo (n : Z)
| HoursAgo (n : Z)
| OnDate (t : Z).

(** [formatTime(timestamp)] when the clock reads [now]: which of the four
    texts is shown. [None] is an absent time stamp, [Some date] one with a
    valid time value; times are in ms. *)
Definition formatTime (now : Z) (timestamp : option Z) : TimeLabel :=
  match timestamp with
  | None => JustNow
  | Some date =>
      let diff := ((now - date) / 1000)%Z in
      if (diff <? 60)%Z then JustNow
      else if (diff <? 3600)%Z then MinutesAgo (diff / 60)
      else if (diff <? 86400)%Z then HoursAgo (diff / 3600)
      else OnDate date
  end.

(** The text of a label; that of a date is the locale's. *)
Definition labelText (toLocaleDateString : Z → JS.str) (l : TimeLabel)
    : JS.str :=
  match l with
  | JustNow => JS.lit "Just now"
  | MinutesAgo n => SettingsPage.numToString n ++ JS.lit "m"
  | HoursAgo n => SettingsPage.numToString n ++ JS.lit "h"
  | OnDate t => toLocaleDateString t
  end.

End PostDetail.

(** ** PostDetailModal.tsx: reactions to a comment and to the post *)
Module PostReactions.

(** A [reactions] object as the client holds it: for each emoji, the ids of
    the users who reacted with it, in the order of [Object.entries]. *)
Abbreviation Reactions := (list (JS.str * list JS.str)).

(** The array sentinels of [firestore.FieldValue]. *)
Inductive ArrayOp :=
| ArrayUnion (u : JS.str)
| ArrayRemove (u : JS.str).

Record Notification := {
  user_id : JS.str;
  title : JS.str;
  message : JS.str;
  notification_type : JS.str;
  event_id : option JS.str;
}.

(** The operations queued in a batch: an [update] of the document reacted
    to, which changes [reactions.<emoji>] and, for a post, may change
    [likes] too; and the [set] of a new notification. *)
Inductive BatchOp :=
| UpdateReaction (emoji : JS.str) (op : ArrayOp) (likes : option ArrayOp)
| SetNotification (n : Notification).

(** The fields of the document reacted to that the batch changes. *)
Record Reacted := {
  reactions : gmap JS.str (list JS.str);
  likes : list JS.str;
}.

(** What the store makes of an array sentinel: [arrayUnion] appends the
    element unless it is there, [arrayRemove] removes all its occurrences; a
    field that is absent counts as an empty array. *)
Definition applyArrayOp (op : ArrayOp) (l : list JS.str) : list JS.str :=
  match op with
  | ArrayUnion u => if bool_decide (u ∈ l) then l else l ++ [u]
  | ArrayRemove u => filter (λ v, v ≠ u) l
  end.

Definition applyOp (d : Reacted) (op : BatchOp) : Reacted :=
  match op with
  | UpdateReaction emoji aop lop =>
      {| reactions :=
           <[ emoji := applyArrayOp aop (default [] (reactions d !! emoji)) ]>
             (reactions d);
         likes := match lop with
                  | Some o => applyArrayOp o (likes d)
                  | None => likes d
                  end |}
  | SetNotification _ => d
  end.

(** [batch.commit()] accepted by the store. *)
Definition commit (batch : list BatchOp) (d : Reacted) : Reacted :=
  foldl applyOp d batch.

(** The [for (const [key, users] of Object.entries(...))] loop: the first
    emoji whose users include [userId]. *)
Definition existingOf (userId : JS.str) (current : Reactions)
    : option JS.str :=
  fst <$> List.find (λ entry, bool_decide (userId ∈ entry.2)) current.

(** [existingEmoji] as a condition. *)
Definition truthy (e : option JS.str) : bool :=
  match e with Some k => negb (JS.falsy k) | None => false end.

(** [currentUserProfile?.full_name || 'Someone'] *)
Definition senderNameOf (full_name : option JS.str) : JS.str :=
  match full_name with
  | Some n => if JS.falsy n then JS.lit "Someone" else n
  | None => JS.lit "Someone"
  end.

Record Comment := { c_id : JS.str; c_userId : JS.str }.

Definition reactionNotice (recipient sender emoji target : JS.str)
    (postId : option JS.str) : Notification :=
  {| user_id := recipient; title := JS.lit "New Reaction";
     message := sender ++ JS.lit " reacted " ++ emoji ++ JS.lit " to your "
                ++ target ++ JS.lit ".";
     notification_type := JS.lit "reaction"; event_id := postId |}.

(** The batch of [handleCommentReaction(commentId, emoji,
    currentReactions)]; [currentReactions] is [None] when the comment has no
    [reactions]. *)
Definition handleCommentReaction (comments : list Comment)
    (userId : JS.str) (full_name : option JS.str) (postId : option JS.str)
    (commentId emoji : JS.str) (currentReactions : option Reactions)
    : list BatchOp :=
  let comment := List.find (λ c, bool_decide (c_id c = commentId)) comments in
  let existingEmoji := currentReactions ≫= existingOf userId in
  if bool_decide (existingEmoji = Some emoji) then
    [UpdateReaction emoji (ArrayRemove userId) None]
  else
    (match existingEmoji with
     | Some e =>
         if JS.falsy e then []
         else [UpdateReaction e (ArrayRemove userId) None]
     | None => []
     end)
    ++ [UpdateReaction emoji (ArrayUnion userId) None]
    ++ (match comment with
        | Some c =>
            if bool_decide (c_userId c ≠ userId) && negb (truthy existingEmoji)
            then [SetNotification
                    (reactionNotice (c_userId c) (senderNameOf full_name)
                       emoji (JS.lit "comment") postId)]
            else []
        | None => []
        end).

(** The red heart: U+2764 U+FE0F. *)
Definition heart : JS.str := [0x2764; 0xFE0F]%N.

Record Post := {
  p_id : JS.str;
  p_userId : JS.str;
  p_reactions : option Reactions;
  p_likes : option (list JS.str);
}.

(** The [currentReactions] of [handleReaction], after the likes of an old
    post have been entered under the heart. *)
Definition effectiveReactions (targetPost : Post) : Reactions :=
  let currentReactions := default [] (p_reactions targetPost) in
  match p_likes targetPost with
  | Some (u :: us) =>
      if bool_decide (heart ∈ (currentReactions.*1)) then currentReactions
      else currentReactions ++ [(heart, u :: us)]
  | _ => currentReactions
  end.

(** [...(emoji === heart ? { likes: op } : {})] *)
Definition likesOp (emoji : JS.str) (op : ArrayOp) : option ArrayOp :=
  if bool_decide (emoji = heart) then Some op else None.

(** The batch of [handleReaction(targetPost, emoji)]. *)
Definition handleReaction (userId : JS.str) (full_name : option JS.str)
    (targetPost : Post) (emoji : JS.str) : list BatchOp :=
  let existingReactionKey := existingOf userId (effectiveReactions targetPost) in
  if bool_decide (existingReactionKey = Some emoji) then
    [UpdateReaction emoji (ArrayRemove userId)
       (likesOp emoji (ArrayRemove userId))]
  else
    (match existingReactionKey with
     | Some e =>
         if JS.falsy e then []
         else [UpdateReaction e (ArrayRemove userId)
                 (likesOp e (ArrayRemove userId))]
     | None => []
     end)
    ++ [UpdateReaction emoji (ArrayUnion userId)
          (likesOp emoji (ArrayUnion userId))]
    ++ (if bool_decide (p_userId targetPost ≠ userId)
           && negb (truthy existingReactionKey)
        then [SetNotification
                (reactionNotice (p_userId targetPost) (senderNameOf full_name)
                   emoji (JS.lit "post") (Some (p_id targetPost)))]
        else []).

(** The notifications a batch creates. *)
Definition notificationsOf (batch : list BatchOp) : list Notification :=
  omap (λ op, match op with
              | SetNotification n => Some n
              | UpdateReaction _ _ _ => None
              end) batch.

(** The user has reacted with the emoji, in the stored document. *)
Definition reactedWith (d : Reacted) (u emoji : JS.str) : Prop :=
  u ∈ default [] (reactions d !! emoji).

(** The view of the client is the stored object, and shows the user under
    at most one emoji, none of the emojis being the empty string. *)
Definition mirrors (current : Reactions) (stored : gmap JS.str (list JS.str))
    : Prop :=
  NoDup (current.*1) ∧ stored = list_to_map current.

Definition oneReactionOf (u : JS.str) (current : Reactions) : Prop :=
  ([] ∉ current.*1)
  ∧ (∀ k1 l1 k2 l2, (k1, l1) ∈ current → (k2, l2) ∈ current →
       u ∈ l1 → u ∈ l2 → k1 = k2).

End PostReactions.

(** ** PostDetailModal: deleting a comment *)
Module PostComments.

Record CommentDoc := { content : JS.str; isEdited : bool }.

(** The field of a stored post the handler touches; [None]: the post has no
    [replyCount] yet. *)
Record PostDoc := { replyCount : option Z }.

Record Backend := {
  comments : gmap JS.str CommentDoc;
  posts : gmap JS.str PostDoc;
}.

Record State := {
  commentToDeleteId : option JS.str;
  isDeletingComment : bool;
  activeCommentMenuId : option JS.str;
}.

(** Which of the two writes the store rejects. *)
Record Env := { delete_rejected : bool; update_rejected : bool }.

Definition initiateDeleteComment (commentId : JS.str) (st : State) : State :=
  {| commentToDeleteId := Some commentId;
     isDeletingComment := isDeletingComment st;
     activeCommentMenuId := None |}.

(** [FieldValue.increment(n)] on [replyCount]: a field that is absent
    counts as 0. *)
Definition increment (n : Z) (d : PostDoc) : PostDoc :=
  {| replyCount := Some (default 0%Z (replyCount d) + n)%Z |}.

(** [confirmDeleteComment()]: the comment is deleted, then the count of the
    post is updated; a rejected write ends the [try] block, and the
    [finally] block closes the dialog. An [update] of a document that does
    not exist is rejected. *)
Definition confirmDeleteComment (env : Env) (post : option PostReactions.Post)
    (st : State) (b : Backend) : State * Backend :=
  match commentToDeleteId st, post with
  | Some commentId, Some p =>
      if JS.falsy commentId then (st, b)
      else
        let closed := {| commentToDeleteId := None;
                         isDeletingComment := false;
                         activeCommentMenuId := activeCommentMenuId st |} in
        if delete_rejected env then (closed, b)
        else
          let deleted := {| comments := delete commentId (comments b);
                            posts := posts b |} in
          match posts b !! PostReactions.p_id p with
          | Some d =>
              if update_rejected env then (closed, deleted)
              else (closed,
                    {| comments := comments deleted;
                       posts := <[PostReactions.p_id p := increment (-1) d]>
                                  (posts b) |})
          | None => (closed, deleted)
          end
  | _, _ => (st, b)
  end.

End PostComments.

(** ** PostDetailModal: the statistics of the reactions of a post *)
Module PostStats.
Import PostReactions.

(** [o[k]] and [o[k] = v] on an object, as the list of its entries: an
    assignment to a key of the object keeps its place, a new key goes
    last. *)
Definition getKey (k : JS.str) (o : Reactions) : option (list JS.str) :=
  snd <$> List.find (λ entry, bool_decide (entry.1 = k)) o.

Fixpoint setKey (k : JS.str) (v : list JS.str) (o : Reactions) : Reactions :=
  match o with
  | [] => [(k, v)]
  | (k', v') :: o' =>
      if bool_decide (k' = k) then (k, v) :: o' else (k', v') :: setKey k v o'
  end.

(** [Array.from(new Set(l))]: the elements of [l], each at its first
    occurrence. *)
Definition uniq (l : list JS.str) : list JS.str :=
  foldl (λ acc x, if bool_decide (x ∈ acc) then acc else acc ++ [x]) [] l.

Record EmojiCount := { emoji : JS.str; count : nat }.

Record Stats := {
  total : nat;
  topEmojis : list EmojiCount;
  effectivePostReactions : Reactions;
  myReaction : option JS.str;
}.

(** The [reactions] object of [getPostStats], after the likes have been
    merged into the hearts. *)
Definition withLikes (livePost : Post) : Reactions :=
  let reactions := default [] (p_reactions livePost) in
  match p_likes livePost with
  | Some (u :: us) =>
      let existingHearts := default [] (getKey heart reactions) in
      let mergedHearts := uniq (existingHearts ++ u :: us) in
      if bool_decide (0 < length mergedHearts)
      then setKey heart mergedHearts reactions
      else reactions
  | _ => reactions
  end.

(** One round of the loop over [Object.entries(reactions)]. *)
Definition tally (userId : JS.str)
    (acc : nat * list EmojiCount * option JS.str)
    (entry : JS.str * list JS.str) : nat * list EmojiCount * option JS.str :=
  let '(total, topEmojis, myReaction) := acc in
  (total + length entry.2,
   if bool_decide (0 < length entry.2)
   then topEmojis ++ [{| emoji := entry.1; count := length entry.2 |}]
   else topEmojis,
   if bool_decide (userId ∈ entry.2) then Some entry.1 else myReaction).

(** [topEmojis.sort((a, b) => b.count - a.count)]: a stable sort, the
    larger count first. *)
Fixpoint insertDesc (x : EmojiCount) (l : list EmojiCount)
    : list EmojiCount :=
  match l with
  | [] => [x]
  | y :: l' =>
      if bool_decide (count y < count x) then x :: y :: l'
      else y :: insertDesc x l'
  end.

Definition sortDesc (l : list EmojiCount) : list EmojiCount :=
  foldl (λ acc x, insertDesc x acc) [] l.

Definition getPostStats (userId : JS.str) (livePost : option Post) : Stats :=
  match livePost with
  | None => {| total := 0; topEmojis := []; effectivePostReactions := [];
               myReaction := None |}
  | Some p =>
      let reactions := withLikes p in
      let '(total, topEmojis, myReaction) :=
        foldl (tally userId) (0, [], None) reactions in
      {| total := total; topEmojis := take 3 (sortDesc topEmojis);
         effectivePostReactions := reactions; myReaction := myReaction |}
  end.

(** The larger counts come first. *)
Fixpoint descending (l : list EmojiCount) : Prop :=
  match l with
  | [] => True
  | x :: l' => Forall (λ y, count y ≤ count x) l' ∧ descending l'
  end.

(** The entry of an emoji in [topEmojis]. *)
Definition counted (entry : JS.str * list JS.str) : EmojiCount :=
  {| emoji := entry.1; count := length entry.2 |}.

End PostStats.

(** ** Header: the search history *)
Module SearchHistory.

(** The profile chosen in the search results. *)
Record Target := {
  t_id : JS.str;
  t_full_name : JS.str;
  t_avatar_url : option JS.str;
  t_student_id : JS.str;
  t_role : JS.str;
}.

(** A document of the [search_history] of the user. *)
Record HistoryDoc := {
  targetId : JS.str;
  full_name : JS.str;
  avatar_url : option JS.str;
  student_id : JS.str;
  timestamp : Z;
}.

(** A [SearchHistoryItem]: the id of the document and its data. *)
Abbreviation Item := (JS.str * HistoryDoc)%type.

Record Ui := {
  searchQuery : JS.str;
  isSearchActive : bool;
  mobileSearchOpen : bool;
}.

Record Outcome := {
  ui : Ui;
  store : gmap JS.str HistoryDoc;
  viewed : option Target;
  thrown : bool;
}.

(** [targetUser.avatar_url || null] *)
Definition orNull (s : option JS.str) : option JS.str :=
  match s with
  | Some a => if JS.falsy a then None else Some a
  | None => None
  end.

Definition touch (now : Z) (d : HistoryDoc) : HistoryDoc :=
  {| targetId := targetId d; full_name := full_name d;
     avatar_url := avatar_url d; student_id := student_id d;
     timestamp := now |}.

Definition entryOf (now : Z) (targetUser : Target) : HistoryDoc :=
  {| targetId := t_id targetUser; full_name := t_full_name targetUser;
     avatar_url := orNull (t_avatar_url targetUser);
     student_id := t_student_id targetUser; timestamp := now |}.

(** The write of [handleSelectUser]: [None] when the store rejects it (an
    [update] of a document that does not exist is rejected); [newId] is
    the id [add] gives the new document. *)
Definition recordSelection (rejected : bool) (newId : JS.str) (now : Z)
    (searchHistory : list Item) (targetUser : Target)
    (history : gmap JS.str HistoryDoc) : option (gmap JS.str HistoryDoc) :=
  if rejected then None
  else
    match List.find (λ h : Item, bool_decide (targetId h.2 = t_id targetUser))
            searchHistory with
    | Some existing =>
        d ← history !! existing.1;
        Some (<[existing.1 := touch now d]> history)
    | None => Some (<[newId := entryOf now targetUser]> history)
    end.

(** [handleSelectUser(targetUser)]. The write is awaited outside any [try]:
    when it is rejected, the handler ends there. [onViewProfile] tells
    whether the component was given the callback. *)
Definition handleSelectUser (profileId : option JS.str) (onViewProfile : bool)
    (rejected : bool) (newId : JS.str) (now : Z)
    (searchHistory : list Item) (targetUser : Target)
    (st : Ui) (history : gmap JS.str HistoryDoc) : Outcome :=
  let finish history' :=
    {| ui := {| searchQuery := []; isSearchActive := false;
                mobileSearchOpen := false |};
       store := history';
       viewed := if onViewProfile then Some targetUser else None;
       thrown := false |} in
  match profileId with
  | Some pid =>
      if JS.falsy pid then finish history
      else
        match recordSelection rejected newId now searchHistory targetUser
                history with
        | Some history' => finish history'
        | None => {| ui := st; store := history; viewed := None;
                     thrown := true |}
        end
  | None => finish history
  end.

(** [handleSelectHistory(item)] *)
Definition handleSelectHistory (profileId : option JS.str)
    (onViewProfile : bool) (rejected : bool) (newId : JS.str) (now : Z)
    (searchHistory : list Item) (item : Item)
    (st : Ui) (history : gmap JS.str HistoryDoc) : Outcome :=
  let dummyProfile :=
    {| t_id := targetId item.2; t_full_name := full_name item.2;
       t_avatar_url := avatar_url item.2;
       t_student_id := student_id item.2; t_role := JS.lit "user" |} in
  handleSelectUser profileId onViewProfile rejected newId now searchHistory
    dummyProfile st history.

(** The history shown is the history stored. *)
Definition shows (searchHistory : list Item)
    (history : gmap JS.str HistoryDoc) : Prop :=
  ∀ i d, (i, d) ∈ searchHistory ↔ history !! i = Some d.

(** No two documents of the history are about the same profile. *)
Definition oneEntryPerTarget (history : gmap JS.str HistoryDoc) : Prop :=
  ∀ i j d e, history !! i = Some d → history !! j = Some e →
    targetId d = targetId e → i = j.

End SearchHistory.

(* ===================================================================== *)
(** * Part II: theorems                                                   *)
(* ===================================================================== *)

Module ChunkFacts.
Import Chunk.

Section Loop.
Context {T : Type}.
Implicit Types (xs : list T) (acc chunks : list (list T)).

Lemma slice_length xs i s :
  length (slice xs i (i + s)) = s `min` (length xs - i).
Proof.
  unfold slice. rewrite length_take, length_drop.
  replace (i + s - i) with s by lia. done.
Qed.

Lemma slice_drop xs i s :
  slice xs i (i + s) ++ drop (i + s) xs = drop i xs.
Proof.
  unfold slice. replace (i + s - i) with s by lia.
  rewrite <- (drop_drop xs s i). apply take_drop.
Qed.

(** The loop started at index [i] with [acc] already pushed: it leaves, and
    what it pushes partitions the elements from [i] on. *)
Lemma chunkArray_loop_spec fuel xs s i acc :
  0 < s → length xs ≤ i + fuel →
  ∃ rest,
    chunkArray_loop fuel xs s i acc = Some (acc ++ rest)
    ∧ concat rest = drop i xs
    ∧ Forall (λ c, 0 < length c ≤ s) rest
    ∧ (∀ k c, rest !! k = Some c → S k < length rest → length c = s)
    ∧ (rest = [] ↔ length xs ≤ i)
    ∧ length rest = (length xs - i + (s - 1)) / s.
Proof.
  intros Hs. revert i acc.
  assert (∀ i acc, length xs ≤ i →
    ∃ rest : list (list T),
      Some acc = Some (acc ++ rest)
      ∧ concat rest = drop i xs
      ∧ Forall (λ c, 0 < length c ≤ s) rest
      ∧ (∀ k c, rest !! k = Some c → S k < length rest → length c = s)
      ∧ (rest = [] ↔ length xs ≤ i)
      ∧ length rest = (length xs - i + (s - 1)) / s) as Hstop.
  { intros i acc Hi. exists []. rewrite app_nil_r, drop_ge by lia.
    split; [done|]. split; [done|]. split; [constructor|].
    split; [intros k c Hk; by rewrite lookup_nil in Hk|].
    split; [split; [lia|done]|].
    simpl. symmetry. apply Nat.div_small. lia. }
  induction fuel as [|fuel IH]; intros i acc Hfuel; simpl.
  - rewrite bool_decide_eq_false_2 by lia. apply Hstop. lia.
  - case_bool_decide as Hi; [|apply Hstop; lia].
    destruct (IH (i + s) (acc ++ [slice xs i (i + s)])) as
      (rest & Hrun & Hcat & Hlen & Hfull & Hnil & Hcount); [lia|].
    exists (slice xs i (i + s) :: rest).
    rewrite Hrun, <- app_assoc. simpl.
    split; [done|]. split; [by rewrite Hcat, slice_drop|].
    split; [constructor; [rewrite slice_length; lia|done]|].
    split; [|split; [split; [done|lia]|]].
    + intros [|k] c Hk Hlast; simpl in *.
      * injection Hk as <-. rewrite slice_length.
        assert (rest ≠ []) as Hne by (intros ->; simpl in *; lia).
        assert (¬ length xs ≤ i + s) by (intros ?; apply Hne, Hnil; done).
        lia.
      * apply (Hfull k c Hk). lia.
    + rewrite Hcount. destruct (decide (length xs ≤ i + s)) as [Hle|Hgt].
      * replace (length xs - (i + s) + (s - 1)) with (s - 1) by lia.
        rewrite Nat.div_small by lia.
        replace (length xs - i + (s - 1)) with
          ((length xs - i - 1) + 1 * s) by lia.
        rewrite Nat.div_add, Nat.div_small by lia. done.
      * replace (length xs - i + (s - 1)) with
          (length xs - (i + s) + (s - 1) + 1 * s) by lia.
        rewrite Nat.div_add by lia. lia.
Qed.
End Loop.

(** [chunkArray] returns, and what it returns. *)
Lemma chunkArray_chunks {T} (xs : list T) (s : nat) :
  0 < s →
  ∃ chunks,
    chunkArray xs s = Some chunks
    ∧ concat chunks = xs
    ∧ Forall (λ c, 0 < length c ≤ s) chunks
    ∧ (∀ k c, chunks !! k = Some c → S k < length chunks → length c = s)
    ∧ (chunks = [] ↔ xs = [])
    ∧ length chunks = (length xs + (s - 1)) / s.
Proof.
  intros Hs.
  destruct (chunkArray_loop_spec (length xs) xs s 0 [] Hs) as
    (rest & Hrun & Hcat & Hlen & Hfull & Hnil & Hcount); [lia|].
  exists rest. unfold chunkArray. rewrite Hrun. simpl in *.
  split; [done|]. split; [done|]. split; [done|]. split; [exact Hfull|].
  split; [|by rewrite Hcount, Nat.sub_0_r].
  rewrite Hnil. split; [intros ?; apply length_zero_iff_nil; lia|].
  intros ->. simpl. lia.
Qed.

(** C10. For every array [xs] and every chunk size [s > 0],
    [chunkArray(xs, s)] returns a list of chunks whose concatenation is
    [xs]; every chunk has at most [s] elements, every chunk but possibly
    the last exactly [s], and the result is empty iff [xs] is. *)
Theorem chunkArray_partition {T} (xs : list T) (s : nat) :
  0 < s →
  ∃ chunks,
    chunkArray xs s = Some chunks
    ∧ concat chunks = xs
    ∧ Forall (λ c, length c ≤ s) chunks
    ∧ (∀ k c, chunks !! k = Some c → S k < length chunks → length c = s)
    ∧ (chunks = [] ↔ xs = []).
Proof.
  intros Hs.
  destruct (chunkArray_chunks xs s Hs) as
    (chunks & Hrun & Hcat & Hlen & Hfull & Hnil & _).
  exists chunks. split; [done|]. split; [done|].
  split; [eapply Forall_impl; [exact Hlen|]; simpl; lia|]. done.
Qed.

Lemma chunkArray_partition_witness :
  0 < 2
  ∧ ∃ chunks,
      chunkArray [10; 20; 30; 40; 50] 2 = Some chunks
      ∧ concat chunks = [10; 20; 30; 40; 50]
      ∧ Forall (λ c, length c ≤ 2) chunks
      ∧ (∀ k c, chunks !! k = Some c → S k < length chunks → length c = 2)
      ∧ (chunks = [] ↔ [10; 20; 30; 40; 50] = []).
Proof.
  split; [lia|]. apply (chunkArray_partition [10; 20; 30; 40; 50] 2). lia.
Defined.

Example chunkArray_5_by_2 :
  chunkArray [10; 20; 30; 40; 50] 2 = Some [[10; 20]; [30; 40]; [50]].
Proof. reflexivity. Qed.

(** With a chunk size of 0 the loop does not leave, whatever the fuel. *)
Lemma chunkArray_loop_zero_size {T} fuel (xs : list T) i acc :
  i < length xs → chunkArray_loop fuel xs 0 i acc = None.
Proof.
  intros Hi. revert acc. induction fuel as [|fuel IH]; intros acc; simpl;
    rewrite bool_decide_eq_true_2 by done; [done|].
  rewrite Nat.add_0_r. apply IH.
Qed.

End ChunkFacts.

Module JSFacts.
Import JS.

Lemma trimStart_id (s : str) :
  head (isWhiteSpace <$> s) ≠ Some true → trimStart s = s.
Proof. destruct s as [|c s]; simpl; [done|]. by destruct (isWhiteSpace c). Qed.

(** Trimming leaves a string without white space at either end as it is. *)
Lemma trim_id (s : str) :
  Forall (λ c, isWhiteSpace c = false) s → trim s = s.
Proof.
  intros Hall. unfold trim, trimEnd.
  rewrite (trimStart_id s), (trimStart_id (reverse s)).
  - apply reverse_involutive.
  - apply Forall_reverse in Hall.
    destruct Hall as [|c ? Hc _]; simpl; [done|]. by rewrite Hc.
  - destruct Hall as [|c ? Hc _]; simpl; [done|]. by rewrite Hc.
Qed.

Lemma digit_not_white (c : N) : (48 <= c <= 57)%N → isWhiteSpace c = false.
Proof.
  intros Hc.
  assert (c = 48 ∨ c = 49 ∨ c = 50 ∨ c = 51 ∨ c = 52 ∨ c = 53 ∨ c = 54
          ∨ c = 55 ∨ c = 56 ∨ c = 57)%N as Hcases by lia.
  repeat destruct Hcases as [->|Hcases]; try reflexivity. by subst.
Qed.

Lemma digit_range (n : N) : (48 <= 48 + n mod 10 <= 57)%N.
Proof.
  assert (n mod 10 < 10)%N as Hlt by (apply N.mod_upper_bound; discriminate).
  revert Hlt. generalize (n mod 10)%N. intros d Hd. lia.
Qed.

Lemma digits_are_digits fuel n acc :
  Forall (λ c, (48 <= c <= 57)%N) acc →
  Forall (λ c, (48 <= c <= 57)%N) (digits fuel n acc).
Proof.
  revert n acc. induction fuel as [|fuel IH]; intros n acc Hacc; simpl.
  - constructor; [|done]. apply digit_range.
  - assert (Forall (λ c, (48 <= c <= 57)%N) ((48 + n mod 10)%N :: acc)).
    { constructor; [|done]. apply digit_range. }
    destruct (n / 10 =? 0)%N; [done|]. by apply IH.
Qed.

Lemma digits_nonempty fuel n acc : digits fuel n acc ≠ [].
Proof.
  revert n acc. induction fuel as [|fuel IH]; intros n acc; simpl; [done|].
  destruct (n / 10 =? 0)%N; [done|]. apply IH.
Qed.

(** A number printed in decimal has no white space to trim, *)
Lemma trim_toString (n : N) : trim (toString n) = toString n.
Proof.
  apply trim_id. eapply Forall_impl; [by apply digits_are_digits|].
  intros c Hc. by apply digit_not_white.
Qed.

(** and is a truthy string. *)
Lemma toString_truthy (n : N) : falsy (toString n) = false.
Proof.
  unfold toString. pose proof (digits_nonempty (N.to_nat (N.log2 n)) n []).
  by destruct (digits _ _ _).
Qed.

Example toString_123456 : toString 123456 = lit "123456".
Proof. reflexivity. Qed.

Example toString_small :
  toString 0 = lit "0" ∧ toString 10 = lit "10" ∧ toString 999999 = lit "999999".
Proof. repeat split; reflexivity. Qed.

Example trim_padded : trim (lit "  ab c ") = lit "ab c".
Proof. reflexivity. Qed.

Lemma decimal_digits fuel (n : N) (acc : str) :
  (n < 10 ^ N.of_nat (S fuel))%N →
  foldl (λ value c, 10 * value + (c - 48))%N 0%N (digits fuel n acc)
  = foldl (λ value c, 10 * value + (c - 48))%N n acc.
Proof.
  revert n acc. induction fuel as [|fuel IH]; intros n acc Hn.
  - simpl. f_equal. change (10 ^ N.of_nat 1)%N with 10%N in Hn.
    rewrite N.mod_small by done. lia.
  - cbn [digits]. destruct (N.eqb_spec (n / 10) 0) as [Hz|Hnz].
    + simpl. f_equal.
      pose proof (N.div_mod n 10 ltac:(discriminate)) as Hdm.
      rewrite Hz in Hdm. revert Hdm. generalize (n mod 10)%N. intros d ->. lia.
    + rewrite IH.
      * simpl. f_equal.
        pose proof (N.div_mod n 10 ltac:(discriminate)) as Hdm.
        revert Hdm. generalize (n mod 10)%N (n / 10)%N. intros d q ->. lia.
      * apply N.Div0.div_lt_upper_bound.
        rewrite Nat2N.inj_succ, N.pow_succ_r' in Hn. exact Hn.
Qed.

(** Reading the decimal digits of a number gives the number back. *)
Lemma decimal_toString (n : N) : decimal (toString n) = n.
Proof.
  unfold decimal, toString. rewrite decimal_digits; [done|].
  rewrite Nat2N.inj_succ, N2Nat.id.
  destruct (N.eq_dec n 0%N) as [->|Hn]; [done|].
  pose proof (N.log2_spec n ltac:(lia)) as [_ Hlt].
  eapply N.lt_le_trans; [exact Hlt|].
  apply N.pow_le_mono_l. lia.
Qed.

End JSFacts.

Module SettingsFacts.
Import Firestore SettingsPage.

(** [ceilDiv a b] is the least integer not below [a / b]. *)
Lemma ceilDiv_bounds (a b : Z) :
  (0 < b)%Z → ((ceilDiv a b - 1) * b < a ≤ ceilDiv a b * b)%Z.
Proof.
  intros Hb. unfold ceilDiv.
  pose proof (Z.mul_div_le (- a) b Hb).
  pose proof (Z.mul_succ_div_gt (- a) b Hb).
  nia.
Qed.

Lemma msPerDay_pos : (0 < msPerDay)%Z.
Proof. reflexivity. Qed.

(** The guard of [handleRequestToken] refuses: nothing but the message
    changes (the developer-mode display is cleared) and nothing is called. *)
Lemma handleRequestToken_refuses profile env st :
  (0 < daysRemaining st)%Z → isUsingSpecialToken st = false →
  handleRequestToken profile env st =
    {| state :=
         setMessage
           (Some {| type := error;
                    text := securityLimitText (daysRemaining st) |})
           (setDevTokenDisplay None st);
       calls := [] |}.
Proof.
  intros Hd Hu. unfold handleRequestToken.
  apply Z.ltb_lt in Hd. rewrite Hd, Hu. reflexivity.
Qed.

(** The guard lets the request through: the session is in the verify step
    with the new code, and the message is not an error. *)
Lemma handleRequestToken_passes profile env st :
  (0 <? daysRemaining st)%Z && negb (isUsingSpecialToken st) = false →
  let r := handleRequestToken profile env st in
  step (state r) = verify_token
  ∧ generatedToken (state r) = JS.toString (random_code env)
  ∧ isProcessing (state r) = false
  ∧ isUsingSpecialToken (state r) = isUsingSpecialToken st
  ∧ (message (state r) = None
     ∧ devTokenDisplay (state r) = Some (JS.toString (random_code env))
     ∨ ∃ to, message (state r) =
               Some {| type := success; text := codeSentText to |}
             ∧ send_email_ok env = true
             ∧ devTokenDisplay (state r) = None).
Proof.
  intros Hguard. unfold handleRequestToken. rewrite Hguard.
  assert (∀ to : JS.str, send_email_ok env = true →
            Some {| type := success; text := codeSentText to |} = None
            ∧ None = Some (JS.toString (random_code env))
            ∨ ∃ to', Some {| type := success; text := codeSentText to |} =
                       Some {| type := success; text := codeSentText to' |}
                     ∧ send_email_ok env = true
                     ∧ @None JS.str = None) as Hsent
    by (intros to Hok; right; by exists to).
  destruct (absent (email profile)).
  - destruct (auth_user_email env) as [to|]; simpl; [|by intuition].
    destruct (JS.falsy to); simpl; [by intuition|].
    destruct (send_email_ok env) eqn:Hok; simpl; [|by intuition].
    split; [done|]. split; [done|]. split; [done|]. split; [done|].
    by apply Hsent.
  - destruct (email profile) as [to|]; simpl; [|by intuition].
    destruct (JS.falsy to); simpl; [by intuition|].
    destruct (send_email_ok env) eqn:Hok; simpl; [|by intuition].
    split; [done|]. split; [done|]. split; [done|]. split; [done|].
    by apply Hsent.
Qed.

(** [MakeDate] of the day [n] days after that of a time value and of its
    time within the day: [n] days of 24 hours later. *)
Lemma MakeDate_Day (t n : Z) :
  MakeDate (Day t + n) (TimeWithinDay t) = (t + n * msPerDay)%Z.
Proof.
  unfold MakeDate, Day, TimeWithinDay.
  pose proof (Z.div_mod t msPerDay ltac:(done)) as Hdm.
  revert Hdm. generalize (t / msPerDay)%Z (t mod msPerDay)%Z.
  intros q m ->. lia.
Qed.

(** [setDate] in terms of the offsets of the zone. *)
Lemma addDays_spec tz t n next :
  addDays tz t n = Some next →
  next = (LocalTime tz t + n * msPerDay
          - offsetOfLocal tz (LocalTime tz t + n * msPerDay))%Z.
Proof.
  unfold addDays, TimeClip, UTC. rewrite MakeDate_Day.
  destruct (_ <=? _)%Z; [|done]. by intros [= <-].
Qed.

(** In a zone whose offset is the same at a date and [n] calendar days
    later, [setDate] adds [n] days of 24 hours. *)
Lemma addDays_same_offset tz t n next :
  addDays tz t n = Some next →
  offsetOfLocal tz (LocalTime tz t + n * msPerDay) = offsetAt tz t →
  next = (t + n * msPerDay)%Z.
Proof.
  intros ->%addDays_spec Hsame. rewrite Hsame. unfold LocalTime. lia.
Qed.

(** The effect on a valid date of last change, in terms of the instant at
    which the restriction ends. *)
Lemma restrictionEffect_valid tz profile now st lastChange nextDate :
  last_password_change profile = Some (ValidDate lastChange) →
  addDays tz lastChange 30 = Some nextDate →
  restrictionEffect tz profile now st =
    setDaysRemaining
      (if (now <? nextDate)%Z then ceilDiv (nextDate - now) msPerDay
       else 0%Z) st.
Proof.
  intros Hlast Hnext. unfold restrictionEffect. rewrite Hlast, Hnext.
  destruct (Z.ltb_spec now nextDate); [|done].
  by rewrite Z.abs_eq by lia.
Qed.

(** The text of the refusal carries the day count in decimal. *)
Lemma securityLimitText_count (days : Z) :
  (0 ≤ days)%Z →
  ∃ count,
    securityLimitText days =
      JS.lit "Security Limit: You can only change your password once every 30 days. Please wait "
      ++ count ++ JS.lit " more day(s)."
    ∧ Z.of_N (JS.decimal count) = days.
Proof.
  intros Hdays. exists (JS.toString (Z.to_N days)). split.
  - unfold securityLimitText, numToString.
    by destruct (Z.ltb_spec days 0) as [?|_]; [lia|].
  - rewrite JSFacts.decimal_toString. lia.
Qed.

(** C1. The restriction runs from the date of the last change to
    [nextDate], the instant with the same local wall-clock time 30 calendar
    days later, and is computed when the effect runs, [now] being the clock
    it read. A reset request without bypass flag is refused with the
    rate-limit error iff [now] is before [nextDate], and the day count in
    its message is the least whole number of days not below the time left;
    otherwise, and when [nextDate] is no valid date, the request goes on to
    the verify step. In a zone whose offset is the same at both dates
    [nextDate] is 30 days of 24 hours after the last change: with
    [lastPasswordChangeAt = now - d days] the request is then refused iff
    [d < 30] and the count is [ceil(30 - d)]. Without a (valid) date of
    last change the effect leaves the count as it was, and with the count
    at 0, as it is at first, the request goes on. Times are in ms. *)
Theorem request_rate_limited tz profile env st now :
  isUsingSpecialToken st = false →
  let r :=
    handleRequestToken profile env (restrictionEffect tz profile now st) in
  let refused days :=
    (∃ count,
       message (state r) =
         Some {| type := error;
                 text :=
                   JS.lit "Security Limit: You can only change your password once every 30 days. Please wait "
                   ++ count ++ JS.lit " more day(s)." |}
       ∧ Z.of_N (JS.decimal count) = days)
    ∧ step (state r) = step st ∧ calls r = [] in
  let proceeds :=
    step (state r) = verify_token
    ∧ generatedToken (state r) = JS.toString (random_code env)
    ∧ ∀ days, ¬ refused days in
  match last_password_change profile with
  | Some (ValidDate lastChange) =>
      match addDays tz lastChange 30 with
      | Some nextDate =>
          let left := (nextDate - now)%Z in
          let elapsed := (now - lastChange)%Z in
          ((∃ days, refused days) ↔ (now < nextDate)%Z)
          ∧ ((now < nextDate)%Z →
             ∃ days, refused days
               ∧ days = ceilDiv left msPerDay
               ∧ ((days - 1) * msPerDay < left ≤ days * msPerDay)%Z)
          ∧ ((nextDate ≤ now)%Z → proceeds)
          ∧ (offsetOfLocal tz (LocalTime tz lastChange + 30 * msPerDay)
               = offsetAt tz lastChange →
             nextDate = (lastChange + 30 * msPerDay)%Z
             ∧ ((∃ days, refused days) ↔ (elapsed < 30 * msPerDay)%Z)
             ∧ ((elapsed < 30 * msPerDay)%Z →
                refused (ceilDiv (30 * msPerDay - elapsed) msPerDay)))
      | None => proceeds
      end
  | Some InvalidDate | None =>
      restrictionEffect tz profile now st = st
      ∧ (daysRemaining st = 0%Z → proceeds)
  end.
Proof.
  intros Hu r refused proceeds.
  assert (∀ st', (0 <? daysRemaining st')%Z && negb (isUsingSpecialToken st')
                 = false →
            r = handleRequestToken profile env st' → proceeds) as Hpass.
  { intros st' Hguard ->.
    destruct (handleRequestToken_passes profile env st' Hguard)
      as (Hstep & Hgen & _ & _ & Hmsg).
    split; [done|]. split; [done|]. intros days ((count & Hm & _) & _ & _).
    destruct Hmsg as [[Hnone _]|(to & Hsent & _)]; congruence. }
  destruct (last_password_change profile) as [[lastChange|]|] eqn:Hlast;
    [|(split; [unfold restrictionEffect; by rewrite Hlast|]);
      intros H0; apply (Hpass st); [by rewrite H0|];
      unfold r, restrictionEffect; by rewrite Hlast..].
  destruct (addDays tz lastChange 30) as [nextDate|] eqn:Hnext; last first.
  { apply (Hpass (setDaysRemaining 0%Z st)); [done|].
    unfold r, restrictionEffect. by rewrite Hlast, Hnext. }
  intros left elapsed.
  pose proof (restrictionEffect_valid tz profile now st lastChange nextDate
                Hlast Hnext) as Heff.
  fold left in Heff.
  assert (((∃ days, refused days) ↔ (now < nextDate)%Z)
          ∧ ((now < nextDate)%Z → refused (ceilDiv left msPerDay))
          ∧ ((nextDate ≤ now)%Z → proceeds)) as (Hiff & Hcount & Hgo).
  { destruct (Z.ltb_spec now nextDate) as [Hel|Hel].
    - pose proof (ceilDiv_bounds left msPerDay msPerDay_pos) as Hceil.
      pose proof msPerDay_pos as Hday.
      assert (0 < ceilDiv left msPerDay)%Z as Hpos by (unfold left in *; nia).
      assert (refused (ceilDiv left msPerDay)) as Href.
      { unfold refused, r. rewrite Heff.
        rewrite handleRequestToken_refuses; [|done..]. simpl.
        destruct (securityLimitText_count (ceilDiv left msPerDay))
          as (count & -> & Hvalue); [lia|]. eauto. }
      split; [split; [done|by eexists]|]. split; [done|lia].
    - assert (proceeds) as Hp
        by (apply (Hpass (setDaysRemaining 0%Z st));
            [done|unfold r; by rewrite Heff]).
      split; [split; [intros [days Href]; by apply Hp in Href|lia]|].
      split; [lia|done]. }
  split; [done|]. split.
  { intros Hlt. exists (ceilDiv left msPerDay). split; [by apply Hcount|].
    split; [done|]. by apply ceilDiv_bounds, msPerDay_pos. }
  split; [done|].
  intros Hsame.
  pose proof (addDays_same_offset tz lastChange 30 nextDate Hnext Hsame)
    as Hdate.
  split; [done|]. split.
  - rewrite Hiff. unfold elapsed. lia.
  - intros Hlt.
    replace (30 * msPerDay - elapsed)%Z with left
      by (unfold left, elapsed; lia).
    apply Hcount. unfold elapsed in Hlt. lia.
Qed.

(** In a session without bypass flag the fallback shows the code: when the
    request passes the rate-limit guard and the mailer does not deliver,
    the code generated is put in the developer-mode display, the session
    advances to the verify step, no error message is shown, and the banner
    of the verify step shows the code. *)
Lemma delivery_failure_falls_back profile env st :
  (0 <? daysRemaining st)%Z && negb (isUsingSpecialToken st) = false →
  send_email_ok env = false →
  let r := handleRequestToken profile env st in
  let token := JS.toString (random_code env) in
  step (state r) = verify_token
  ∧ generatedToken (state r) = token
  ∧ devTokenDisplay (state r) = Some token
  ∧ message (state r) = None
  ∧ isProcessing (state r) = false
  ∧ (isUsingSpecialToken st = false → devTokenBanner (state r) = Some token).
Proof.
  intros Hguard Hmail r token.
  destruct (handleRequestToken_passes profile env st Hguard)
    as (Hstep & Hgen & Hproc & Husing & [[Hmsg Hdev]|(to & _ & Hok & _)]);
    [|congruence].
  fold r in Hstep, Hgen, Hproc, Husing, Hmsg, Hdev. fold token in Hgen, Hdev.
  repeat (split; [done|]).
  intros Hplain. unfold devTokenBanner.
  rewrite Hstep, Hdev, Husing, Hplain. unfold token.
  by rewrite JSFacts.toString_truthy.
Qed.

(** C9. The fallback does not show the code in every session. The Cancel
    button of the verify step does not reset the bypass flag (which
    [handleBack] does): after "I have an Administrative Token" and Cancel,
    a "send code" request passes the guard whatever the day count, and when
    the mailer does not deliver, the session advances to the verify step
    with the code in the developer-mode display and without a message, but
    the banner shows nothing: the code is surfaced nowhere. After
    [handleBack] instead of Cancel, with no days left to wait, the banner
    shows the code. *)
Theorem delivery_failure_hidden_after_cancel profile env st :
  send_email_ok env = false →
  let code := JS.toString (random_code env) in
  let st1 := SettingsNav.cancelVerify (useAdministrativeToken st) in
  let r := handleRequestToken profile env st1 in
  let back :=
    SettingsNav.session
      (SettingsNav.handleBack SettingsNav.security
         (useAdministrativeToken st)) in
  step st1 = request
  ∧ isUsingSpecialToken st1 = true
  ∧ step (state r) = verify_token
  ∧ generatedToken (state r) = code
  ∧ devTokenDisplay (state r) = Some code
  ∧ message (state r) = None
  ∧ devTokenBanner (state r) = None
  ∧ ((daysRemaining st ≤ 0)%Z →
     devTokenBanner (state (handleRequestToken profile env back))
     = Some code).
Proof.
  intros Hmail code st1 r back.
  assert ((0 <? daysRemaining st1)%Z && negb (isUsingSpecialToken st1) = false)
    as Hguard by (simpl; apply andb_false_r).
  destruct (handleRequestToken_passes profile env st1 Hguard)
    as (Hstep & Hgen & _ & Husing & [[Hmsg Hdev]|(to & _ & Hok & _)]);
    [|congruence].
  fold r in Hstep, Hgen, Husing, Hmsg, Hdev.
  split; [done|]. split; [done|]. split; [done|]. split; [done|].
  split; [done|]. split; [done|]. split.
  { unfold devTokenBanner. rewrite Hstep, Hdev, Husing. simpl.
    by rewrite orb_true_r. }
  intros Hdays.
  destruct (delivery_failure_falls_back profile env back)
    as (_ & _ & _ & _ & _ & Hbanner); [|done|by apply Hbanner].
  simpl. destruct (Z.ltb_spec 0 (daysRemaining st)); [lia|done].
Qed.

(** The stored bypass token of a profile, as [handleVerifyToken] reads it. *)
Lemma verifyAttempt_bypass profile env st :
  isUsingSpecialToken st = true →
  let stored :=
    profiles_now env !! id profile
      ≫= (λ d : Doc, d !! "special_password_token"%string) in
  let entered := JS.trim (verificationToken st) in
  (verifyAttempt profile env st).2 = [ProfilesGet (id profile)]
  ∧ ((verifyAttempt profile env st).1 = None ↔
     get_error env = None ∧ stored = Some (VStr entered) ∧ entered ≠ [])
  ∧ (get_error env = None →
     (verifyAttempt profile env st).1 = None
     ∨ (verifyAttempt profile env st).1 = Some invalidAdminTokenText).
Proof.
  intros Hu stored entered. unfold verifyAttempt. rewrite Hu.
  destruct (get_error env) as [m|]; simpl.
  { split; [done|]. split; [|done]. split; [done|]. by intros [? _]. }
  fold stored entered.
  destruct stored as [[t| | |]|]; simpl;
    try (split; [done|]; split; [|by right]; split; [done|];
         by intros (_ & ? & _)).
  - destruct t as [|c t]; simpl.
    + split; [done|]. split; [|by right]. split; [done|].
      intros (_ & Heq & Hne). by injection Heq as <-.
    + case_bool_decide as Hne; simpl.
      * split; [done|]. split; [|by right]. split; [done|].
        intros (_ & Heq & _). by injection Heq.
      * split; [done|]. split; [|by left]. split; [|done].
        intros _. split; [done|]. by rewrite <- Hne.
  - destruct b; simpl; split; try done; (split; [|by right]); split; try done;
      by intros (_ & ? & _).
Qed.

Lemma handleVerifyToken_outcome profile env st :
  let r := handleVerifyToken profile env st in
  let attempt := verifyAttempt profile env st in
  calls r = attempt.2
  ∧ match attempt.1 with
    | None => step (state r) = set_password ∧ message (state r) = None
    | Some m =>
        step (state r) = step st
        ∧ message (state r) = Some {| type := error; text := m |}
    end.
Proof.
  unfold handleVerifyToken.
  replace (verifyAttempt profile env (setIsProcessing true (setMessage None st)))
    with (verifyAttempt profile env st) by reflexivity.
  destruct (verifyAttempt profile env st) as [[m|] made]; done.
Qed.

(** C2, as the code has it. In a session that uses a bypass token, the
    verify step succeeds iff the read of the persisted profile succeeds and
    the token stored there at that time is a non-empty string equal to the
    entered value with the white space at its ends trimmed. The token cached
    in the [profile] prop plays no part. In particular an entered old token
    (with no white space at its ends) fails once the persisted token has
    been changed or removed; the session then stays in the verify step with
    an error message. *)
Theorem verify_bypass_token profile env st :
  isUsingSpecialToken st = true →
  step st = verify_token →
  let r := handleVerifyToken profile env st in
  let stored :=
    profiles_now env !! id profile
      ≫= (λ d : Doc, d !! "special_password_token"%string) in
  let entered := JS.trim (verificationToken st) in
  (step (state r) = set_password ↔
     get_error env = None ∧ stored = Some (VStr entered) ∧ entered ≠ [])
  ∧ calls r = [ProfilesGet (id profile)]
  ∧ (∀ cached,
       handleVerifyToken
         {| id := id profile; email := email profile;
            last_password_change := last_password_change profile;
            special_password_token := cached |} env st = r)
  ∧ (step (state r) ≠ set_password →
       step (state r) = verify_token
       ∧ ∃ m, message (state r) = Some {| type := error; text := m |}
              ∧ (get_error env = None → m = invalidAdminTokenText))
  ∧ (JS.trim (verificationToken st) = verificationToken st →
     stored ≠ Some (VStr (verificationToken st)) →
     step (state r) = verify_token).
Proof.
  intros Hu Hstep r stored entered.
  destruct (verifyAttempt_bypass profile env st Hu) as (Hcalls & Hiff & Hmsg).
  destruct (handleVerifyToken_outcome profile env st) as (Hmade & Hout).
  fold r in Hmade, Hout. fold stored entered in Hiff.
  assert (step (state r) = set_password ↔
          (verifyAttempt profile env st).1 = None) as Hsucc.
  { destruct (verifyAttempt profile env st).1 as [m|]; simpl in *.
    - destruct Hout as [Hs _]. split; [congruence|done].
    - by destruct Hout as [Hs _]. }
  split; [by rewrite Hsucc|]. split; [congruence|]. split; [done|].
  split.
  - intros Hfail.
    destruct (verifyAttempt profile env st).1 as [m|] eqn:Hthrown;
      [|by destruct Hfail; apply Hsucc].
    destruct Hout as [Hs Hm]. split; [congruence|].
    exists m. split; [done|]. intros Hget.
    destruct (Hmsg Hget) as [?|?]; congruence.
  - intros Htrim Hold.
    destruct (verifyAttempt profile env st).1 as [m|] eqn:Hthrown.
    + destruct Hout as [Hs _]. congruence.
    + destruct Hiff as [Hiff _]. destruct (Hiff eq_refl) as (_ & Heq & _).
      unfold entered in Heq. rewrite Htrim in Heq. done.
Qed.

(** C7, as the code has it. In a session that does not use a bypass token,
    the verify step succeeds iff the entered value, with the white space at
    its ends trimmed, equals the code generated in this session. It calls
    no backend. An invalid entry leaves the session in the verify step with
    the invalid-code error, and so does the code of another session. *)
Theorem verify_emailed_code profile env st :
  isUsingSpecialToken st = false →
  step st = verify_token →
  let r := handleVerifyToken profile env st in
  (step (state r) = set_password ↔
     JS.trim (verificationToken st) = generatedToken st)
  ∧ calls r = []
  ∧ (step (state r) ≠ set_password →
       step (state r) = verify_token
       ∧ message (state r) =
           Some {| type := error; text := invalidCodeText |})
  ∧ (∀ mine other,
       generatedToken st = JS.toString mine →
       verificationToken st = JS.toString other →
       JS.toString other ≠ JS.toString mine →
       step (state r) = verify_token
       ∧ message (state r) =
           Some {| type := error; text := invalidCodeText |}).
Proof.
  intros Hu Hstep r.
  destruct (handleVerifyToken_outcome profile env st) as (Hmade & Hout).
  fold r in Hmade, Hout. unfold verifyAttempt in Hmade, Hout.
  rewrite Hu in Hmade, Hout.
  case_bool_decide as Hcmp; simpl in *; destruct Hout as [Hs Hm].
  - assert (step (state r) = verify_token) by congruence.
    split; [split; [congruence|done]|]. split; [done|]. split; [done|]. done.
  - split; [done|]. split; [done|]. split; [done|].
    intros mine other Hmine Hother Hdiff.
    rewrite Hother, JSFacts.trim_toString, Hmine in Hcmp. done.
Qed.

(** C6. A submission of the last step whose two passwords differ, or whose
    new password has fewer than 6 characters, is rejected before any call to
    the network: no credential update, no profile write, the persisted state
    as it was, and nothing of the session changed but the error message (so
    that it stays in its step). The mismatch is tested first. *)
Theorem password_update_rejected profile env db st :
  newPassword st ≠ confirmPassword st ∨ length (newPassword st) < 6 →
  let r := handlePasswordUpdate profile env db st in
  calls (after r) = []
  ∧ backend r = db
  ∧ onProfileUpdate r = None
  ∧ state (after r) =
      setMessage
        (Some {| type := error;
                 text := if bool_decide (newPassword st ≠ confirmPassword st)
                         then passwordsDoNotMatchText
                         else passwordTooShortText |}) st
  ∧ step (state (after r)) = step st.
Proof.
  intros Hbad r. unfold r, handlePasswordUpdate.
  case_bool_decide as Hne; [done|].
  case_bool_decide as Hlen; [done|].
  destruct Hbad; done.
Qed.

Lemma apply_update_lookup now (fields : Fields) (d : Doc) (k : string) :
  apply_update now fields d !! k = resolve now (fields !! k) (d !! k).
Proof.
  unfold apply_update. rewrite lookup_merge.
  by destruct (fields !! k), (d !! k).
Qed.

Lemma dbUpdates_lookup (bypass : bool) (k : string) :
  dbUpdates bypass !! k =
    if decide (k = "last_password_change"%string) then Some ServerTimestamp
    else if decide (k = "special_password_token"%string)
         then (if bypass then Some DeleteField else None)
         else None.
Proof.
  unfold dbUpdates. destruct bypass.
  - repeat case_decide; subst; by simplify_map_eq.
  - repeat case_decide; subst; by simplify_map_eq.
Qed.

(** A run of [handlePasswordUpdate] writes the profile at most once, and a
    run that does not end in success leaves the collection as it was. *)
Lemma password_update_no_partial_profile_write profile env db st :
  let r := handlePasswordUpdate profile env db st in
  (message (state (after r)) =
     Some {| type := success; text := passwordUpdatedText |}
   ∨ profiles (backend r) = profiles db)
  ∧ length (profileWrites (calls (after r))) ≤ 1.
Proof.
  intros r. unfold r, handlePasswordUpdate, profilesUpdate.
  repeat case_bool_decide; simpl; [by auto..|].
  destruct (update_user_error env); simpl; [by auto|].
  destruct (profile_update_error env); simpl; [by auto|].
  destruct (profiles db !! id profile); simpl; by auto.
Qed.

(** C4. A submission of the last step that completes with success has
    written the profile exactly once, by one [update] whose fields set
    [last_password_change] to the server time and, when the session used a
    bypass token, delete [special_password_token] too: the document after
    it has both changes, and nothing else of it has changed. *)
Theorem password_update_single_write profile env db st :
  message (state (after (handlePasswordUpdate profile env db st))) =
    Some {| type := success; text := passwordUpdatedText |} →
  let r := handlePasswordUpdate profile env db st in
  let bypass := isUsingSpecialToken st in
  ∃ d d',
    profiles db !! id profile = Some d
    ∧ calls (after r) =
        [AuthUpdateUser (newPassword st);
         ProfilesUpdate (id profile) (dbUpdates bypass)]
    ∧ profileWrites (calls (after r)) = [(id profile, dbUpdates bypass)]
    ∧ dbUpdates bypass !! "last_password_change"%string = Some ServerTimestamp
    ∧ (bypass = true →
       dbUpdates bypass !! "special_password_token"%string = Some DeleteField)
    ∧ profiles (backend r) = <[ id profile := d' ]> (profiles db)
    ∧ d' !! "last_password_change"%string = Some (VTime (server_now env))
    ∧ d' !! "special_password_token"%string =
        (if bypass then None else d !! "special_password_token"%string)
    ∧ (∀ k : string, k ≠ "last_password_change"%string →
         k ≠ "special_password_token"%string → d' !! k = d !! k)
    ∧ credential (backend r) = newPassword st.
Proof.
  intros Hok r bypass. revert Hok. unfold r, handlePasswordUpdate, profilesUpdate.
  repeat case_bool_decide; simpl; [done..|].
  destruct (update_user_error env); simpl; [done|].
  destruct (profile_update_error env); simpl; [done|].
  destruct (profiles db !! id profile) as [d|] eqn:Hdoc; simpl; [|done].
  intros _. fold bypass.
  exists d, (apply_update (server_now env) (dbUpdates bypass) d).
  split; [done|]. split; [done|]. split; [done|].
  split; [by rewrite dbUpdates_lookup|].
  split; [intros ->; by rewrite dbUpdates_lookup|].
  split; [done|].
  split; [by rewrite apply_update_lookup, dbUpdates_lookup|].
  split; [rewrite apply_update_lookup, dbUpdates_lookup; by destruct bypass|].
  split; [|done].
  intros k Hk1 Hk2. rewrite apply_update_lookup, dbUpdates_lookup.
  by repeat case_decide.
Qed.

(** *** The examples of the flow *)

(** C1 at a change made 10 days and 1 ms ago, in a zone without changes
    of offset: 20 days are reported. *)
Lemma request_rate_limited_witness :
  isUsingSpecialToken initialState = false
  ∧ ∃ count,
      message
        (state
           (handleRequestToken Samples.holder Samples.mailerDown
              (restrictionEffect Samples.utc Samples.holder
                 (10 * msPerDay + 1) initialState))) =
      Some {| type := error;
              text :=
                JS.lit "Security Limit: You can only change your password once every 30 days. Please wait "
                ++ count ++ JS.lit " more day(s)." |}
      ∧ Z.of_N (JS.decimal count) = 20%Z.
Proof.
  split; [reflexivity|].
  pose proof (request_rate_limited Samples.utc Samples.holder
                Samples.mailerDown initialState (10 * msPerDay + 1) eq_refl)
    as Hthm.
  change (last_password_change Samples.holder)
    with (Some (ValidDate 0%Z)) in Hthm.
  change (addDays Samples.utc 0 30) with (Some (30 * msPerDay)%Z) in Hthm.
  destruct Hthm as (_ & Hrefused & _).
  destruct Hrefused as (days & ((count & Hmsg & Hvalue) & _) & Hdays & _);
    [reflexivity|].
  exists count. split; [exact Hmsg|]. rewrite Hvalue, Hdays. reflexivity.
Defined.

(** C1 as stated fails across a change of the offset of the zone: the
    password was changed on 2025-03-15 at 12:00 UTC, summer time begins on
    2025-03-30, and 29 days 23 hours and 30 minutes after the change
    ([d < 30]) the request is not refused: [nextDate] is 2025-04-14 at
    11:00 UTC, 30 days less one hour after the change. *)
Lemma request_rate_limited_across_dst :
  let lastChange := 1742040000000%Z in
  let now := (lastChange + 30 * msPerDay - 1800000)%Z in
  let r :=
    handleRequestToken Samples.changedInMarch Samples.mailerDown
      (restrictionEffect Samples.centralEurope Samples.changedInMarch now
         initialState) in
  last_password_change Samples.changedInMarch = Some (ValidDate lastChange)
  ∧ isUsingSpecialToken initialState = false
  ∧ addDays Samples.centralEurope lastChange 30
    = Some (lastChange + 30 * msPerDay - 3600000)%Z
  ∧ ¬ ((∃ days, message (state r) =
                  Some {| type := error; text := securityLimitText days |})
       ↔ (now - lastChange < 30 * msPerDay)%Z).
Proof.
  intros lastChange now r.
  split; [reflexivity|]. split; [reflexivity|]. split; [reflexivity|].
  intros [_ Hrefused].
  destruct Hrefused as [days Hmsg]; [reflexivity|].
  vm_compute in Hmsg. discriminate.
Qed.

(** C9 from the initial state, with the mailer down. *)
Lemma delivery_failure_hidden_after_cancel_witness :
  let r :=
    handleRequestToken Samples.holder Samples.mailerDown
      (SettingsNav.cancelVerify (useAdministrativeToken initialState)) in
  step (state r) = verify_token
  ∧ devTokenDisplay (state r) = Some (JS.lit "123456")
  ∧ devTokenBanner (state r) = None.
Proof.
  destruct (delivery_failure_hidden_after_cancel Samples.holder
              Samples.mailerDown initialState eq_refl)
    as (_ & _ & Hstep & _ & Hdev & _ & Hbanner & _).
  split; [exact Hstep|]. split; [exact Hdev|exact Hbanner].
Defined.

(** C2 at the token the store holds. *)
Lemma verify_bypass_token_witness :
  step
    (state
       (handleVerifyToken Samples.holder Samples.tokenStore
          (Samples.verifying true [] (JS.lit "ABC123")))) = set_password.
Proof.
  destruct (verify_bypass_token Samples.holder Samples.tokenStore
              (Samples.verifying true [] (JS.lit "ABC123")) eq_refl eq_refl)
    as (Hiff & _).
  apply Hiff. vm_compute. repeat split; congruence.
Defined.

(** C2 as stated fails: the store holds [ABC123], the user enters [ABC123]
    followed by a space, and the verification succeeds although the entered
    value is not the stored token. *)
Lemma verify_bypass_token_padded_entry :
  let st := Samples.verifying true [] (JS.lit "ABC123 ") in
  let r := handleVerifyToken Samples.holder Samples.tokenStore st in
  let stored :=
    profiles_now Samples.tokenStore !! id Samples.holder
      ≫= (λ d : Doc, d !! "special_password_token"%string) in
  isUsingSpecialToken st = true
  ∧ step st = verify_token
  ∧ get_error Samples.tokenStore = None
  ∧ ¬ (step (state r) = set_password ↔
       stored = Some (VStr (verificationToken st))).
Proof.
  intros st r stored.
  split; [reflexivity|]. split; [reflexivity|]. split; [reflexivity|].
  intros [Hequal _].
  assert (step (state r) = set_password) as Hok by (vm_compute; reflexivity).
  apply Hequal in Hok. vm_compute in Hok. congruence.
Qed.

(** C7 at the code of the session. *)
Lemma verify_emailed_code_witness :
  step
    (state
       (handleVerifyToken Samples.holder Samples.tokenStore
          (Samples.verifying false (JS.lit "123456") (JS.lit "123456"))))
  = set_password.
Proof.
  destruct (verify_emailed_code Samples.holder Samples.tokenStore
              (Samples.verifying false (JS.lit "123456") (JS.lit "123456"))
              eq_refl eq_refl) as (Hiff & _).
  apply Hiff. reflexivity.
Defined.

(** C7 as stated fails: the code of the session is [123456], the user
    enters it after a space, and the verification succeeds although the
    entered value is not the code. *)
Lemma verify_emailed_code_padded_entry :
  let st := Samples.verifying false (JS.lit "123456") (JS.lit " 123456") in
  let r := handleVerifyToken Samples.holder Samples.tokenStore st in
  isUsingSpecialToken st = false
  ∧ step st = verify_token
  ∧ ¬ (step (state r) = set_password ↔
       verificationToken st = generatedToken st).
Proof.
  intros st r. split; [reflexivity|]. split; [reflexivity|].
  intros [Hequal _].
  assert (step (state r) = set_password) as Hok by (vm_compute; reflexivity).
  apply Hequal in Hok. vm_compute in Hok. congruence.
Qed.

(** C6 at a password of three characters. *)
Lemma password_update_rejected_witness :
  let st := Samples.settingPassword false (JS.lit "abc") (JS.lit "abc") in
  let r := handlePasswordUpdate Samples.holder Samples.servicesUp
             Samples.backend0 st in
  calls (after r) = [] ∧ backend r = Samples.backend0
  ∧ message (state (after r)) =
      Some {| type := error; text := passwordTooShortText |}.
Proof.
  intros st r.
  destruct (password_update_rejected Samples.holder Samples.servicesUp
              Samples.backend0 st) as (Hcalls & Hdb & _ & Hstate & _).
  { right. vm_compute. lia. }
  fold r in Hcalls, Hdb, Hstate.
  split; [done|]. split; [done|]. rewrite Hstate. reflexivity.
Defined.

(** C4 at a session that used the bypass token [ABC123]. *)
Lemma password_update_single_write_witness :
  let st := Samples.settingPassword true (JS.lit "s3cret!") (JS.lit "s3cret!") in
  let r := handlePasswordUpdate Samples.holder Samples.servicesUp
             Samples.backend0 st in
  ∃ d',
    profiles (backend r) !! JS.lit "u1" = Some d'
    ∧ d' !! "last_password_change"%string = Some (VTime 5000)
    ∧ d' !! "special_password_token"%string = None
    ∧ length (profileWrites (calls (after r))) = 1.
Proof.
  intros st r.
  destruct (password_update_single_write Samples.holder Samples.servicesUp
              Samples.backend0 st)
    as (d & d' & _ & _ & Hwrites & _ & _ & Hstore & Htime & Htoken & _).
  { vm_compute. reflexivity. }
  fold r in Hwrites, Hstore. exists d'.
  split; [rewrite Hstore; apply lookup_insert_eq|].
  split; [exact Htime|]. split; [exact Htoken|]. by rewrite Hwrites.
Defined.

End SettingsFacts.

Module MonitorFacts.
Import MonitorPage.

Section Bulk.
Variables (day user : JS.str) (s : Status).

(** [forEach] queues one write per row, in order, and overwrites the entry
    of every row in the optimistic map. *)
Lemma bulkStep_fold (fps : list Profile) batch m :
  foldl (bulkStep day user s) (batch, m) fps =
    (batch ++ (queuedWrite day user s ∘ id <$> fps),
     foldl (λ m p, <[ id p := shownRecord day user s (id p) ]> m) m fps).
Proof.
  revert batch m. induction fps as [|p fps IH]; intros batch m; simpl.
  - by rewrite app_nil_r.
  - unfold bulkStep at 2. simpl. rewrite IH, <- app_assoc. done.
Qed.

Lemma optimistic_lookup (fps : list Profile) (m : gmap JS.str AttendanceRecord)
    (uid : JS.str) :
  foldl (λ m p, <[ id p := shownRecord day user s (id p) ]> m) m fps !! uid =
    if decide (uid ∈ id <$> fps) then Some (shownRecord day user s uid)
    else m !! uid.
Proof.
  revert m. induction fps as [|p fps IH]; intros m; simpl; [done|].
  rewrite IH. destruct (decide (uid ∈ id <$> fps)) as [Hin|Hout].
  - rewrite decide_True by (by right). done.
  - destruct (decide (uid = id p)) as [->|Hne].
    + rewrite decide_True by (by left). apply lookup_insert_eq.
    + rewrite decide_False by (by intros [?|?]%elem_of_cons).
      by apply lookup_insert_ne.
Qed.

(** What [handleBulkStatusUpdate] does over a non-empty table: one batch
    with one write per row, committed once. *)
Lemma handleBulkStatusUpdate_run fps ok store st :
  selectedDate st = day → fps ≠ [] →
  handleBulkStatusUpdate user fps s ok store st =
    let batch := queuedWrite day user s ∘ id <$> fps in
    if ok then
      {| state :=
           {| selectedDate := day;
              attendanceData :=
                foldl (λ m p, <[ id p := shownRecord day user s (id p) ]> m)
                  (attendanceData st) fps;
              error := None; isBulkUpdating := false |};
         calls := [BatchCommit batch];
         attendance := applyBatch batch store |}
    else
      {| state :=
           {| selectedDate := day; attendanceData := attendanceData st;
              error := Some failedToUpdateAllText; isBulkUpdating := false |};
         calls := [BatchCommit batch];
         attendance := store |}.
Proof.
  intros Hday Hrows. unfold handleBulkStatusUpdate.
  rewrite bool_decide_eq_false_2
    by (intros Hlen; by apply length_zero_iff_nil in Hlen).
  rewrite Hday, bulkStep_fold. simpl. by destruct ok.
Qed.
End Bulk.

(** C5. When the commit of a bulk attendance update fails, the optimistic
    update is rolled back as a whole: the attendance map shown is the
    snapshot taken before it, and an error is shown; no error is shown only
    when the batch (the one chunk of this code) has been committed, and the
    map then holds the optimistic record of every row. The update of one
    row rolls back in the same way. *)
Theorem bulk_update_rolls_back user fps s ok store st :
  fps ≠ [] →
  let r := handleBulkStatusUpdate user fps s ok store st in
  ∃ batch,
    calls r = [BatchCommit batch]
    ∧ (ok = false →
       attendanceData (state r) = attendanceData st
       ∧ error (state r) = Some failedToUpdateAllText
       ∧ attendance r = store)
    ∧ (error (state r) = None →
       ok = true ∧ attendance r = applyBatch batch store)
    ∧ (ok = true →
       error (state r) = None
       ∧ ∀ p, p ∈ fps →
           attendanceData (state r) !! id p =
             Some (shownRecord (selectedDate st) user s (id p)))
    ∧ (∀ target,
         attendanceData
           (state (handleStatusUpdate user target s false store st))
         = attendanceData st).
Proof.
  intros Hrows r. unfold r.
  rewrite (handleBulkStatusUpdate_run (selectedDate st) user s fps ok store st
             eq_refl Hrows).
  eexists. destruct ok; simpl.
  - split; [done|]. split; [done|]. split; [done|]. split; [|done].
    intros _. split; [done|]. intros p Hp. rewrite optimistic_lookup.
    rewrite decide_True; [done|]. by apply list_elem_of_fmap_2.
  - split; [done|]. split; [done|]. split; [done|]. split; done.
Qed.

Lemma bulk_update_rolls_back_witness :
  attendanceData
    (state
       (handleBulkStatusUpdate (JS.lit "m1") (Samples.rows 3) Late false ∅
          Samples.unmarked)) = ∅.
Proof.
  destruct (bulk_update_rolls_back (JS.lit "m1") (Samples.rows 3) Late false ∅
              Samples.unmarked) as (batch & _ & Hfail & _).
  { discriminate. }
  destruct (Hfail eq_refl) as (Hshown & _). exact Hshown.
Defined.

(** C3 on the attendance path. A bulk update over 900 rows puts the 900
    writes in one batch and commits once: there is no partition into chunks
    of at most 450 writes, and not 2 commits. *)
Theorem bulk_update_900_rows_one_batch :
  let r := handleBulkStatusUpdate (JS.lit "m1") (Samples.rows 900) Present
             true ∅ Samples.unmarked in
  ∃ batch, calls r = [BatchCommit batch] ∧ length batch = 900.
Proof.
  intros r. unfold r.
  rewrite (handleBulkStatusUpdate_run (selectedDate Samples.unmarked)
             (JS.lit "m1") Present (Samples.rows 900) true ∅ Samples.unmarked
             eq_refl).
  - eexists. split; [reflexivity|].
    unfold Samples.rows. by rewrite !length_fmap, length_seq.
  - intros Hnil. apply (f_equal length) in Hnil.
    unfold Samples.rows in Hnil. rewrite length_fmap, length_seq in Hnil.
    discriminate.
Qed.

End MonitorFacts.

Module MayorFacts.
Import Firestore MayorPage.

(** The loop over the chunks when the store commits every batch: one
    document per id, in the order of the ids. *)
Lemma broadcastLoop_all_committed env t m (chunks : list (list JS.str)) :
  (∀ k, commit_error env k = None) →
  ∀ k p,
    broadcastLoop env t m k chunks p =
      ({| count := count p + length (concat chunks);
          commits :=
            commits p ++ (fmap (M := list) (notificationFor t m) <$> chunks);
          created := created p ++ (notificationFor t m <$> concat chunks) |},
       None).
Proof.
  intros Hok. induction chunks as [|chunk chunks IH]; intros k p; simpl.
  - rewrite Nat.add_0_r, !app_nil_r. by destruct p.
  - rewrite Hok, IH. simpl.
    rewrite length_app, fmap_app, <- !app_assoc, Nat.add_assoc. done.
Qed.

(** A broadcast whose read and commits the store accepts: the documents
    written, the batches and the status. *)
Lemma broadcast_all_committed env store st :
  get_error env = None →
  0 < size (profiles env) →
  (∀ k, commit_error env k = None) →
  let userIds := (map_to_list (profiles env)).*1 in
  let docs := notificationFor (title st) (message st) <$> userIds in
  ∃ r,
    executeBroadcast env store st = Some r
    ∧ notifications r = store ++ docs
    ∧ concat (batches r) = docs
    ∧ length docs = size (profiles env)
    ∧ user_id <$> docs = userIds
    ∧ Forall (λ batch, length batch ≤ 450) (batches r)
    ∧ (∀ k batch, batches r !! k = Some batch → S k < length (batches r) →
         length batch = 450)
    ∧ status (state r) =
        Some {| type := success; msg := sentText (size (profiles env)) |}.
Proof.
  intros Hget Hsome Hcommit userIds docs. unfold executeBroadcast.
  rewrite Hget. fold userIds.
  assert (length userIds = size (profiles env)) as Hlen
    by (unfold userIds; by rewrite length_fmap, length_map_to_list).
  rewrite bool_decide_eq_false_2; last first.
  { intros Hnil. unfold userIds in Hlen. rewrite Hnil in Hlen.
    simpl in Hlen. lia. }
  destruct (ChunkFacts.chunkArray_chunks userIds 450) as
    (chunks & Hchunks & Hcat & Hsizes & Hfull & _); [lia|].
  rewrite Hchunks. simpl.
  rewrite (broadcastLoop_all_committed env _ _ chunks Hcommit). simpl.
  rewrite Hcat, Hlen.
  eexists. split; [reflexivity|]. simpl.
  split; [done|]. split.
  { unfold docs. rewrite <- Hcat. clear.
    induction chunks as [|c cs IH]; simpl; [done|].
    rewrite fmap_app. f_equal. exact IH. }
  split; [unfold docs; by rewrite length_fmap|].
  split.
  { unfold docs. clear. induction userIds as [|uid ids IH]; simpl; [done|].
    by f_equal. }
  split.
  { apply Forall_fmap. eapply Forall_impl; [exact Hsizes|].
    intros c Hc. simpl in *. rewrite length_fmap. lia. }
  split; [|done].
  intros k batch Hk Hlast. rewrite length_fmap in Hlast.
  rewrite list_lookup_fmap in Hk.
  destruct (chunks !! k) as [c|] eqn:Hc; [|done].
  injection Hk as <-. rewrite length_fmap. by apply (Hfull k).
Qed.

(** The documents stored by batches of [s] writes, the last one possibly
    shorter: document [i] is created by commit [i / s]. *)
Lemma storedDocs_lookup commit_time s (committed : list (list Notification)) :
  0 < s →
  Forall (λ batch, length batch ≤ s) committed →
  (∀ k batch, committed !! k = Some batch → S k < length committed →
     length batch = s) →
  ∀ k0 i,
    concat (imap (λ k batch, storedAt (commit_time (k0 + k)) <$> batch)
              committed) !! i
    = storedAt (commit_time (k0 + i / s)) <$> (concat committed !! i).
Proof.
  intros Hs. induction committed as [|batch rest IH];
    intros Hsizes Hfull k0 i; [done|].
  apply Forall_cons in Hsizes as [Hbatch Hrest].
  rewrite imap_cons. simpl.
  destruct (decide (i < length batch)) as [Hi|Hi].
  - rewrite !lookup_app_l by (by rewrite ?length_fmap).
    rewrite list_lookup_fmap, Nat.div_small by lia.
    by rewrite Nat.add_0_r.
  - rewrite !lookup_app_r by (rewrite ?length_fmap; lia).
    rewrite length_fmap.
    destruct rest as [|next rest]; [done|].
    assert (length batch = s) as Hlen by (apply (Hfull 0); simpl; [done|lia]).
    rewrite (imap_ext _ (λ k b, storedAt (commit_time (S k0 + k)) <$> b))
      by (intros; simpl; do 3 f_equal; lia).
    rewrite (IH Hrest); last first.
    { intros k b Hk Hlast. apply (Hfull (S k)); [done|].
      cbn [length] in *. lia. }
    do 3 f_equal. rewrite Hlen.
    replace i with ((i - s) + 1 * s) at 2 by lia.
    rewrite Nat.div_add by lia. lia.
Qed.

Lemma storedDocs_imap commit_time s (committed : list (list Notification)) :
  0 < s →
  Forall (λ batch, length batch ≤ s) committed →
  (∀ k batch, committed !! k = Some batch → S k < length committed →
     length batch = s) →
  storedDocs commit_time committed
  = imap (λ i d, storedAt (commit_time (i / s)) d) (concat committed).
Proof.
  intros Hs Hsizes Hfull. apply list_eq. intros i. unfold storedDocs.
  rewrite list_lookup_imap.
  exact (storedDocs_lookup commit_time s committed Hs Hsizes Hfull 0 i).
Qed.

(** What the store holds after a broadcast whose read and commits it
    accepts. *)
Lemma broadcast_stored env store st commit_time :
  get_error env = None →
  0 < size (profiles env) →
  (∀ k, commit_error env k = None) →
  ∃ r,
    executeBroadcast env store st = Some r
    ∧ storedDocs commit_time (batches r)
      = imap (λ i uid,
                storedAt (commit_time (i / 450))
                  (notificationFor (title st) (message st) uid))
          (map_to_list (profiles env)).*1
    ∧ status (state r) =
        Some {| type := success; msg := sentText (size (profiles env)) |}.
Proof.
  intros Hget Hsome Hcommit.
  destruct (broadcast_all_committed env store st Hget Hsome Hcommit)
    as (r & Hrun & _ & Hcat & _ & _ & Hsizes & Hfull & Hstatus).
  exists r. split; [done|]. split; [|done].
  rewrite (storedDocs_imap commit_time 450) by (done || lia).
  rewrite Hcat. apply list_eq. intros i.
  rewrite !list_lookup_imap, list_lookup_fmap.
  by destruct (_ !! i).
Qed.

(** C8. A broadcast over a non-empty set of M registered users, whose
    read and commits the store accepts, creates exactly M notification
    documents, one per user: all with the same title and message, with
    recipient ids that are pairwise distinct and are exactly the ids of the
    registered users, and the count reported is M. The client writes the
    same [serverTimestamp] sentinel into every document, and the server
    puts the instant of the commit in its place: document [i] has the
    [created_at] of commit [i / 450], so that the documents of one batch
    share it, and all M do when [M <= 450]. *)
Theorem broadcast_one_notification_per_user env store st commit_time :
  get_error env = None →
  0 < size (profiles env) →
  (∀ k, commit_error env k = None) →
  ∃ r docs,
    executeBroadcast env store st = Some r
    ∧ notifications r = store ++ docs
    ∧ concat (batches r) = docs
    ∧ Forall (λ batch, length batch ≤ 450) (batches r)
    ∧ Forall (λ d, created_at d = ServerTimestamp) docs
    ∧ let stored := storedDocs commit_time (batches r) in
      length stored = size (profiles env)
      ∧ Forall (λ d, s_title d = announcementTitle (title st)
                     ∧ s_message d = message st) stored
      ∧ (∀ i d, stored !! i = Some d →
           s_created_at d = Some (VTime (commit_time (i / 450))))
      ∧ (size (profiles env) ≤ 450 →
         Forall (λ d, s_created_at d = Some (VTime (commit_time 0))) stored)
      ∧ NoDup (s_user_id <$> stored)
      ∧ (∀ uid, uid ∈ s_user_id <$> stored ↔ is_Some (profiles env !! uid))
      ∧ ∃ count,
          status (state r) =
            Some {| type := success;
                    msg := JS.lit "Broadcast successfully sent to "
                           ++ count ++ JS.lit " users." |}
          ∧ JS.decimal count = N.of_nat (size (profiles env)).
Proof.
  intros Hget Hsome Hcommit.
  destruct (broadcast_all_committed env store st Hget Hsome Hcommit)
    as (r & Hrun & Hdocs & Hcat & Hlen & Hids & Hsizes & Hfull & Hstatus).
  destruct (broadcast_stored env store st commit_time Hget Hsome Hcommit)
    as (r' & Hrun' & Hstored & _).
  assert (r' = r) as -> by congruence.
  set (userIds := (map_to_list (profiles env)).*1) in *.
  assert (length userIds = size (profiles env)) as Hsize
    by (unfold userIds; by rewrite length_fmap, length_map_to_list).
  exists r, (notificationFor (title st) (message st) <$> userIds).
  split; [done|]. split; [done|]. split; [done|]. split; [done|].
  split; [by apply Forall_fmap, Forall_true|].
  intros stored. unfold stored. rewrite Hstored.
  assert (∀ i d,
            imap (λ i uid,
                    storedAt (commit_time (i / 450))
                      (notificationFor (title st) (message st) uid))
              userIds !! i = Some d →
            ∃ uid, userIds !! i = Some uid
                   ∧ d = storedAt (commit_time (i / 450))
                           (notificationFor (title st) (message st) uid))
    as Hlook.
  { intros i d. rewrite list_lookup_imap.
    destruct (userIds !! i) as [uid|]; [|done]. intros [= <-]. eauto. }
  assert (s_user_id <$>
            imap (λ i uid,
                    storedAt (commit_time (i / 450))
                      (notificationFor (title st) (message st) uid))
              userIds = userIds) as Hrecipients.
  { apply list_eq. intros i.
    rewrite list_lookup_fmap, list_lookup_imap.
    by destruct (userIds !! i). }
  split; [by rewrite length_imap|].
  split.
  { apply Forall_lookup. intros i d (uid & _ & ->)%Hlook. done. }
  split.
  { intros i d (uid & _ & ->)%Hlook. done. }
  split.
  { intros Hsmall. apply Forall_lookup. intros i d Hd.
    pose proof (lookup_lt_Some _ _ _ Hd) as Hi. rewrite length_imap in Hi.
    apply Hlook in Hd as (uid & _ & ->).
    rewrite Nat.div_small by lia. done. }
  rewrite Hrecipients.
  split; [apply NoDup_fst_map_to_list|].
  split.
  { intros uid. unfold userIds. rewrite list_elem_of_fmap. split.
    - intros ([uid' d] & -> & Hin). apply elem_of_map_to_list in Hin. eauto.
    - intros [d Hd]. exists (uid, d). split; [done|].
      by apply elem_of_map_to_list. }
  exists (JS.toString (N.of_nat (size (profiles env)))).
  split; [done|]. apply JSFacts.decimal_toString.
Qed.

Lemma broadcast_one_notification_per_user_witness :
  ∃ r,
    executeBroadcast Samples.twoUsers [] Samples.announcement = Some r
    ∧ length (storedDocs Samples.everySecond (batches r)) = 2
    ∧ Forall (λ d, s_created_at d = Some (VTime 0))
        (storedDocs Samples.everySecond (batches r)).
Proof.
  destruct (broadcast_one_notification_per_user Samples.twoUsers []
              Samples.announcement Samples.everySecond)
    as (r & docs & Hrun & _ & _ & _ & _ & Hlen & _ & _ & Hsame & _).
  - reflexivity.
  - vm_compute. lia.
  - intros k. reflexivity.
  - exists r. split; [exact Hrun|]. split; [exact Hlen|].
    apply Hsame. vm_compute. lia.
Defined.

(** C8 as stated fails over more than 450 users: of the 451 documents of a
    broadcast to 451 users, committed in two batches one second apart, the
    first and the last do not have the same [created_at]. *)
Lemma broadcast_451_users_two_instants :
  ∃ r first last,
    executeBroadcast Samples.manyUsers [] Samples.announcement = Some r
    ∧ length (storedDocs Samples.everySecond (batches r)) = 451
    ∧ storedDocs Samples.everySecond (batches r) !! 0 = Some first
    ∧ storedDocs Samples.everySecond (batches r) !! 450 = Some last
    ∧ s_created_at first = Some (VTime 0)
    ∧ s_created_at last = Some (VTime 1000)
    ∧ s_created_at first ≠ s_created_at last.
Proof.
  assert (size (profiles Samples.manyUsers) = 451) as Hsize
    by (vm_compute; reflexivity).
  destruct (broadcast_stored Samples.manyUsers [] Samples.announcement
              Samples.everySecond) as (r & Hrun & Hstored & _);
    [reflexivity|lia|done|].
  assert (length (map_to_list (profiles Samples.manyUsers)).*1 = 451) as Hlen
    by (by rewrite length_fmap, length_map_to_list).
  destruct (lookup_lt_is_Some_2 (map_to_list (profiles Samples.manyUsers)).*1 0)
    as [u0 Hu0]; [lia|].
  destruct (lookup_lt_is_Some_2 (map_to_list (profiles Samples.manyUsers)).*1
              450) as [u450 Hu450]; [lia|].
  eexists r, _, _. split; [done|]. rewrite Hstored.
  split; [by rewrite length_imap|].
  split; [by rewrite list_lookup_imap, Hu0|].
  split; [by rewrite list_lookup_imap, Hu450|].
  split; [reflexivity|]. split; [reflexivity|]. discriminate.
Qed.

(** The broadcast path does what C3 says: over 900 registered users it
    commits 2 batches of 450 writes, one after the other. *)
Lemma broadcast_900_users_two_batches env store st :
  get_error env = None →
  size (profiles env) = 900 →
  (∀ k, commit_error env k = None) →
  ∃ r b1 b2,
    executeBroadcast env store st = Some r
    ∧ batches r = [b1; b2] ∧ length b1 = 450 ∧ length b2 = 450.
Proof.
  intros Hget Hsize Hcommit. unfold executeBroadcast. rewrite Hget.
  set (userIds := (map_to_list (profiles env)).*1).
  assert (length userIds = 900) as Hlen
    by (unfold userIds; by rewrite length_fmap, length_map_to_list).
  rewrite bool_decide_eq_false_2; last first.
  { intros Hnil. unfold userIds in Hlen. by rewrite Hnil in Hlen. }
  fold userIds.
  destruct (ChunkFacts.chunkArray_chunks userIds 450) as
    (chunks & Hchunks & Hcat & _ & Hfull & _ & Hcount); [lia|].
  rewrite Hlen in Hcount. change ((900 + (450 - 1)) / 450) with 2 in Hcount.
  destruct chunks as [|c1 [|c2 [|c3 chunks]]]; try discriminate.
  rewrite Hchunks. cbn [mbind option_bind].
  rewrite (broadcastLoop_all_committed env _ _ [c1; c2] Hcommit). simpl.
  eexists _, _, _. split; [reflexivity|]. simpl. split; [reflexivity|].
  assert (length c1 = 450) as H1 by (apply (Hfull 0 c1); simpl; [done|lia]).
  apply (f_equal length) in Hcat. simpl in Hcat.
  rewrite !length_app, Hlen in Hcat. simpl in Hcat.
  rewrite !length_fmap. lia.
Qed.

End MayorFacts.

Module SettingsFlowFacts.
Import Firestore SettingsPage SettingsNav.

(** X1. After the effect has run on a valid date of last change, the
    restriction ending at [nextDate] (the same local wall-clock time 30
    calendar days later), the day count is never negative, it is 0 exactly
    when the clock has reached [nextDate], it does not grow as the clock
    advances, and for a date that is not in the future it is at most [n]
    whenever [nextDate] is at most [n] days of 24 hours after the date. In
    a zone whose offset is the same at both dates [nextDate] is 30 days of
    24 hours after the date: the count is then 0 exactly when these have
    elapsed and at most 30. *)
Theorem restriction_days_range tz profile now st lastChange nextDate :
  last_password_change profile = Some (ValidDate lastChange) →
  addDays tz lastChange 30 = Some nextDate →
  let days t := daysRemaining (restrictionEffect tz profile t st) in
  (0 ≤ days now)%Z
  ∧ (days now = 0%Z ↔ (nextDate ≤ now)%Z)
  ∧ (∀ later, (now ≤ later)%Z → (days later ≤ days now)%Z)
  ∧ (∀ n, (nextDate - lastChange ≤ n * msPerDay)%Z → (lastChange ≤ now)%Z →
          (0 ≤ n)%Z → (days now ≤ n)%Z)
  ∧ (offsetOfLocal tz (LocalTime tz lastChange + 30 * msPerDay)
       = offsetAt tz lastChange →
     nextDate = (lastChange + 30 * msPerDay)%Z
     ∧ (days now = 0%Z ↔ (30 * msPerDay ≤ now - lastChange)%Z)
     ∧ ((lastChange ≤ now)%Z → (days now ≤ 30)%Z)).
Proof.
  intros Hlast Hnext days.
  assert (∀ t, days t =
            if (t <? nextDate)%Z then ceilDiv (nextDate - t) msPerDay
            else 0%Z) as Hdays.
  { intros t. unfold days.
    by rewrite (SettingsFacts.restrictionEffect_valid _ _ _ _ _ _ Hlast Hnext). }
  pose proof SettingsFacts.msPerDay_pos as Hday.
  assert (∀ t, let n := ceilDiv (nextDate - t) msPerDay in
               ((n - 1) * msPerDay < nextDate - t ≤ n * msPerDay)%Z) as Hceil
    by (intros t; by apply SettingsFacts.ceilDiv_bounds).
  assert ((0 ≤ days now)%Z ∧ (days now = 0%Z ↔ (nextDate ≤ now)%Z)
          ∧ (∀ n, (nextDate - lastChange ≤ n * msPerDay)%Z →
                  (lastChange ≤ now)%Z → (0 ≤ n)%Z → (days now ≤ n)%Z))
    as (Hpos & Hzero & Hbound).
  { rewrite Hdays. pose proof (Hceil now) as Hn. simpl in Hn.
    destruct (Z.ltb_spec now nextDate).
    - split; [nia|]. split; [split; [nia|lia]|]. intros n Hnext' Hpast _. nia.
    - split; [done|]. split; [done|]. intros; lia. }
  split; [done|]. split; [done|]. split.
  { intros later Hlater. rewrite !Hdays.
    pose proof (Hceil now) as H1. pose proof (Hceil later) as H2.
    simpl in H1, H2.
    destruct (Z.ltb_spec later nextDate); destruct (Z.ltb_spec now nextDate);
      try lia; nia. }
  split; [done|].
  intros Hsame.
  pose proof (SettingsFacts.addDays_same_offset tz lastChange 30 nextDate
                Hnext Hsame) as Hdate.
  split; [done|]. split; [rewrite Hzero; lia|].
  intros Hpast. apply Hbound; lia.
Qed.

Lemma restriction_days_range_witness :
  daysRemaining
    (restrictionEffect Samples.centralEurope Samples.changedInMarch
       1742040000000 initialState) = 30%Z.
Proof.
  destruct (restriction_days_range Samples.centralEurope
              Samples.changedInMarch 1742040000000 initialState
              1742040000000 (1742040000000 + 30 * msPerDay - 3600000)
              eq_refl eq_refl) as (Hpos & _ & _ & Hbound & _).
  apply Z.le_antisymm; [apply Hbound; vm_compute; discriminate|].
  vm_compute. discriminate.
Defined.

(** X2. The email flow closes: after a request that passes the guard in a
    session without bypass flag, typing the code the request generated
    verifies, whether the mailer delivered it or not, and without any
    backend call. *)
Theorem emailed_code_round_trip profile env venv st :
  isUsingSpecialToken st = false →
  (daysRemaining st ≤ 0)%Z →
  let r := handleRequestToken profile env st in
  let typed := typeToken (JS.toString (random_code env)) (state r) in
  let v := handleVerifyToken profile venv typed in
  step (state r) = verify_token
  ∧ step (state v) = set_password
  ∧ message (state v) = None
  ∧ calls v = [].
Proof.
  intros Hplain Hdays r typed v.
  assert ((0 <? daysRemaining st)%Z && negb (isUsingSpecialToken st) = false)
    as Hguard by (destruct (Z.ltb_spec 0 (daysRemaining st)); [lia|done]).
  destruct (SettingsFacts.handleRequestToken_passes profile env st Hguard)
    as (Hstep & Hgen & _ & Husing & _).
  fold r in Hstep, Hgen, Husing.
  destruct (SettingsFacts.handleVerifyToken_outcome profile venv typed)
    as (Hcalls & Hout).
  fold v in Hcalls, Hout. unfold verifyAttempt in Hcalls, Hout.
  assert (isUsingSpecialToken typed = false) as Hu by (simpl; congruence).
  rewrite Hu in Hcalls, Hout.
  assert (JS.trim (verificationToken typed) = generatedToken typed) as Hsame.
  { simpl. by rewrite JSFacts.trim_toString, Hgen. }
  rewrite bool_decide_eq_false_2 in Hcalls, Hout by (by intros ?).
  simpl in Hcalls, Hout. by destruct Hout.
Qed.

Lemma emailed_code_round_trip_witness :
  step
    (state
       (handleVerifyToken Samples.holder Samples.tokenStore
          (typeToken (JS.lit "123456")
             (state
                (handleRequestToken Samples.holder Samples.mailerDown
                   initialState))))) = set_password.
Proof.
  apply (emailed_code_round_trip Samples.holder Samples.mailerDown
           Samples.tokenStore initialState); [reflexivity|simpl; lia].
Defined.

(** X3. When the mailer delivers, the code travels by email only: the one
    message sent goes to the address of the profile (or, when the profile has
    none, to the address the auth service knows) and carries the code kept
    in the session; the developer-mode display stays empty and the banner
    shows nothing. *)
Theorem delivered_code_is_not_displayed profile env st to :
  (0 <? daysRemaining st)%Z && negb (isUsingSpecialToken st) = false →
  send_email_ok env = true →
  (if absent (email profile) then auth_user_email env else email profile)
    = Some to →
  JS.falsy to = false →
  let r := handleRequestToken profile env st in
  calls r =
    (if absent (email profile) then [AuthGetUser] else [])
    ++ [InvokeSendEmail to (generatedToken (state r))]
  ∧ generatedToken (state r) = JS.toString (random_code env)
  ∧ devTokenDisplay (state r) = None
  ∧ devTokenBanner (state r) = None
  ∧ message (state r) = Some {| type := success; text := codeSentText to |}.
Proof.
  intros Hguard Hok Hto Htruthy r. unfold r, handleRequestToken.
  rewrite Hguard. destruct (absent (email profile)); rewrite Hto, Htruthy, Hok;
    simpl; done.
Qed.

Lemma delivered_code_is_not_displayed_witness :
  devTokenBanner
    (state
       (handleRequestToken Samples.holder
          {| random_code := 654321; auth_user_email := None;
             send_email_ok := true |} initialState)) = None.
Proof.
  apply (delivered_code_is_not_displayed Samples.holder
           {| random_code := 654321; auth_user_email := None;
              send_email_ok := true |} initialState (JS.lit "u1@bsee.test"));
    reflexivity.
Defined.

(** X4. Cancel from the verify step does not reset the bypass flag. After
    "I have an Administrative Token" and Cancel, a "send code" request is
    never refused by the rate limit, its code is not shown by the banner, and
    typing the code does not verify it: the stored bypass token is read
    instead, and unless that token is the code, the session stays in the
    verify step with the invalid-administrative-token error. *)
Theorem stale_bypass_flag_after_cancel profile env venv st :
  get_error venv = None →
  profiles_now venv !! id profile
    ≫= (λ d : Doc, d !! "special_password_token"%string)
    ≠ Some (VStr (JS.toString (random_code env))) →
  let st1 := cancelVerify (useAdministrativeToken st) in
  let r := handleRequestToken profile env st1 in
  let v := handleVerifyToken profile venv
             (typeToken (JS.toString (random_code env)) (state r)) in
  step st1 = request
  ∧ isUsingSpecialToken st1 = true
  ∧ step (state r) = verify_token
  ∧ generatedToken (state r) = JS.toString (random_code env)
  ∧ devTokenBanner (state r) = None
  ∧ calls v = [ProfilesGet (id profile)]
  ∧ step (state v) = verify_token
  ∧ message (state v) =
      Some {| type := error; text := invalidAdminTokenText |}.
Proof.
  intros Hget Hstored st1 r v.
  assert ((0 <? daysRemaining st1)%Z && negb (isUsingSpecialToken st1) = false)
    as Hguard by (simpl; apply andb_false_r).
  destruct (SettingsFacts.handleRequestToken_passes profile env st1 Hguard)
    as (Hstep & Hgen & _ & Husing & Hshown).
  fold r in Hstep, Hgen, Husing, Hshown.
  set (typed := typeToken (JS.toString (random_code env)) (state r)) in *.
  assert (isUsingSpecialToken typed = true) as Hu by (simpl; by rewrite Husing).
  destruct (SettingsFacts.verifyAttempt_bypass profile venv typed Hu)
    as (Hcalls & Hiff & Hmsg).
  destruct (SettingsFacts.handleVerifyToken_outcome profile venv typed)
    as (Hmade & Hout).
  fold v in Hmade, Hout.
  assert ((verifyAttempt profile venv typed).1 = Some invalidAdminTokenText)
    as Hthrown.
  { destruct (Hmsg Hget) as [Hnone|Hsome]; [|done].
    apply Hiff in Hnone as (_ & Heq & _).
    simpl in Heq. rewrite JSFacts.trim_toString in Heq. done. }
  rewrite Hthrown in Hout. destruct Hout as [Hs Hm].
  split; [done|]. split; [done|]. split; [done|]. split; [done|].
  split.
  { unfold devTokenBanner. rewrite Hstep, Husing.
    destruct (devTokenDisplay (state r)) as [t|]; [|done].
    by rewrite orb_true_r. }
  split; [congruence|]. split; [|done]. rewrite Hs. simpl. exact Hstep.
Qed.

Lemma stale_bypass_flag_after_cancel_witness :
  message
    (state
       (handleVerifyToken Samples.holder Samples.tokenStore
          (typeToken (JS.lit "123456")
             (state
                (handleRequestToken Samples.holder Samples.mailerDown
                   (cancelVerify (useAdministrativeToken initialState)))))))
  = Some {| type := error; text := invalidAdminTokenText |}.
Proof.
  apply (stale_bypass_flag_after_cancel Samples.holder Samples.mailerDown
           Samples.tokenStore initialState); [reflexivity|].
  vm_compute. congruence.
Defined.

(** X5. [handleBack] from a tab other than the overview resets the bypass
    flag with the rest of the form, so that a request made afterwards is
    rate-limited again; the code generated earlier stays in the session.
    From the overview it changes nothing and calls [onBack]. *)
Theorem handleBack_resets_bypass profile env activeTab st :
  (0 < daysRemaining st)%Z →
  activeTab ≠ overview →
  let b := handleBack activeTab (useAdministrativeToken st) in
  let r := handleRequestToken profile env (session b) in
  tab b = overview
  ∧ onBackCalled b = false
  ∧ step (session b) = request
  ∧ isUsingSpecialToken (session b) = false
  ∧ verificationToken (session b) = []
  ∧ newPassword (session b) = [] ∧ confirmPassword (session b) = []
  ∧ generatedToken (session b) = generatedToken st
  ∧ calls r = []
  ∧ step (state r) = request
  ∧ message (state r) =
      Some {| type := error; text := securityLimitText (daysRemaining st) |}
  ∧ handleBack overview st =
      {| tab := overview; session := st; onBackCalled := true |}.
Proof.
  intros Hdays Htab b r.
  assert (session b =
          setIsUsingSpecialToken false
            (setDevTokenDisplay None
               (setStep request
                  (setVerificationToken []
                     (setConfirmPassword []
                        (setNewPassword []
                           (setMessage None (useAdministrativeToken st))))))))
    as Hb by (unfold b; by destruct activeTab).
  assert (tab b = overview ∧ onBackCalled b = false) as [Ht Hc]
    by (unfold b; by destruct activeTab).
  unfold r. rewrite Hb.
  rewrite SettingsFacts.handleRequestToken_refuses by done.
  repeat (split; [done|]). done.
Qed.

Lemma handleBack_resets_bypass_witness :
  calls
    (handleRequestToken Samples.holder Samples.mailerDown
       (session
          (handleBack security
             (useAdministrativeToken (setDaysRemaining 12 initialState))))) = [].
Proof.
  apply (handleBack_resets_bypass Samples.holder Samples.mailerDown security
           (setDaysRemaining 12 initialState)); [simpl; lia|discriminate].
Defined.

(** What a successful run of [handlePasswordUpdate] has done. *)
Lemma password_update_success profile env db st :
  message (state (after (handlePasswordUpdate profile env db st))) =
    Some {| type := success; text := passwordUpdatedText |} →
  ∃ d,
    profiles db !! id profile = Some d
    ∧ backend (handlePasswordUpdate profile env db st) =
        {| credential := newPassword st;
           profiles :=
             <[ id profile :=
                  apply_update (server_now env)
                    (dbUpdates (isUsingSpecialToken st)) d ]> (profiles db) |}
    ∧ state (after (handlePasswordUpdate profile env db st)) =
        setIsProcessing false
          (resetForm
             (setMessage
                (Some {| type := success; text := passwordUpdatedText |}) st)).
Proof.
  unfold handlePasswordUpdate, profilesUpdate.
  repeat case_bool_decide; simpl; [done..|].
  destruct (update_user_error env); simpl; [done|].
  destruct (profile_update_error env); simpl; [done|].
  destruct (profiles db !! id profile) as [d|] eqn:Hdoc; simpl; [|done].
  intros _. by exists d.
Qed.

(** A run of [handlePasswordUpdate] that ended in success had both
    services accept. *)
Lemma password_update_success_env profile env db st :
  message (state (after (handlePasswordUpdate profile env db st))) =
    Some {| type := success; text := passwordUpdatedText |} →
  update_user_error env = None ∧ profile_update_error env = None.
Proof.
  unfold handlePasswordUpdate, profilesUpdate.
  repeat case_bool_decide; simpl; [done..|].
  destruct (update_user_error env); simpl; [done|].
  by destruct (profile_update_error env).
Qed.

(** A submission with valid passwords that both services accept, for a
    profile that exists, succeeds: nothing else is looked at. *)
Lemma password_update_succeeds profile env db st :
  update_user_error env = None →
  profile_update_error env = None →
  is_Some (profiles db !! id profile) →
  newPassword st = confirmPassword st →
  6 ≤ length (newPassword st) →
  let r := handlePasswordUpdate profile env db st in
  message (state (after r)) =
    Some {| type := success; text := passwordUpdatedText |}
  ∧ credential (backend r) = newPassword st.
Proof.
  intros Hauth Hstore [d Hd] Hsame Hlong r.
  unfold r, handlePasswordUpdate, profilesUpdate.
  rewrite bool_decide_eq_false_2 by (by intros ?).
  rewrite bool_decide_eq_false_2 by lia.
  rewrite Hauth, Hstore. simpl. by rewrite Hd.
Qed.

(** X6. A bypass token that was consumed is refused afterwards, but the
    password change itself does not look at it. Once a password change of
    a bypass session has ended in success, the token is gone from the
    persisted profile, the form is reset to the request step without
    bypass flag, and whatever is entered in a later verification of a
    bypass session is refused with the invalid-administrative-token error.
    [handlePasswordUpdate] never reads the token: on the backend so left,
    and with the same answers of the services, the submission of any other
    session with valid passwords (one that had been verified before, say)
    changes the password again. *)
Theorem consumed_bypass_token_is_refused profile env db st later other :
  message (state (after (handlePasswordUpdate profile env db st))) =
    Some {| type := success; text := passwordUpdatedText |} →
  isUsingSpecialToken st = true →
  isUsingSpecialToken later = true →
  newPassword other = confirmPassword other →
  6 ≤ length (newPassword other) →
  let r := handlePasswordUpdate profile env db st in
  let v := handleVerifyToken profile
             {| profiles_now := profiles (backend r); get_error := None |}
             later in
  let again := handlePasswordUpdate profile env (backend r) other in
  step (state (after r)) = request
  ∧ isUsingSpecialToken (state (after r)) = false
  ∧ verificationToken (state (after r)) = []
  ∧ (∃ d, profiles (backend r) !! id profile = Some d
          ∧ d !! "special_password_token"%string = None)
  ∧ step (state v) = step later
  ∧ message (state v) =
      Some {| type := error; text := invalidAdminTokenText |}
  ∧ message (state (after again)) =
      Some {| type := success; text := passwordUpdatedText |}
  ∧ credential (backend again) = newPassword other.
Proof.
  intros Hok Hused Hlater Hsame Hlong r v again.
  destruct (password_update_success profile env db st Hok)
    as (d & Hdoc & Hdb & Hstate).
  destruct (password_update_success_env profile env db st Hok)
    as [Hauth Hstore].
  fold r in Hdb, Hstate. rewrite Hstate.
  split; [done|]. split; [done|]. split; [done|].
  assert (profiles (backend r) !! id profile
          = Some (apply_update (server_now env) (dbUpdates true) d)) as Hnew
    by (rewrite Hdb, <- Hused; simpl; by rewrite lookup_insert_eq).
  split.
  { eexists. split; [exact Hnew|].
    by rewrite SettingsFacts.apply_update_lookup,
      SettingsFacts.dbUpdates_lookup. }
  set (venv := {| profiles_now := profiles (backend r); get_error := None |}).
  destruct (SettingsFacts.verifyAttempt_bypass profile venv later Hlater)
    as (_ & Hiff & Hmsg).
  destruct (SettingsFacts.handleVerifyToken_outcome profile venv later)
    as (_ & Hout).
  fold v in Hout.
  assert ((verifyAttempt profile venv later).1 = Some invalidAdminTokenText)
    as Hthrown.
  { destruct (Hmsg eq_refl) as [Hnone|Hsome]; [|done].
    apply Hiff in Hnone as (_ & Heq & _). exfalso. revert Heq.
    unfold venv. cbn [profiles_now]. rewrite Hnew. cbn [mbind option_bind].
    by rewrite SettingsFacts.apply_update_lookup,
      SettingsFacts.dbUpdates_lookup. }
  rewrite Hthrown in Hout. split; [apply Hout|]. split; [apply Hout|].
  apply password_update_succeeds; [done..| |done|done].
  by rewrite Hnew.
Qed.

Lemma consumed_bypass_token_is_refused_witness :
  let r := handlePasswordUpdate Samples.holder Samples.servicesUp
             Samples.backend0
             (Samples.settingPassword true (JS.lit "s3cret!") (JS.lit "s3cret!")) in
  message
    (state
       (handleVerifyToken Samples.holder
          {| profiles_now := profiles (backend r); get_error := None |}
          (Samples.verifying true [] (JS.lit "ABC123"))))
  = Some {| type := error; text := invalidAdminTokenText |}
  ∧ credential
      (backend
         (handlePasswordUpdate Samples.holder Samples.servicesUp (backend r)
            (Samples.settingPassword true (JS.lit "another") (JS.lit "another"))))
    = JS.lit "another".
Proof.
  intros r.
  destruct (consumed_bypass_token_is_refused Samples.holder
              Samples.servicesUp Samples.backend0
              (Samples.settingPassword true (JS.lit "s3cret!") (JS.lit "s3cret!"))
              (Samples.verifying true [] (JS.lit "ABC123"))
              (Samples.settingPassword true (JS.lit "another")
                 (JS.lit "another")))
    as (_ & _ & _ & _ & _ & Hrefused & _ & Hagain);
    [vm_compute; reflexivity|reflexivity|reflexivity|reflexivity
    |vm_compute; lia|].
  split; [exact Hrefused|exact Hagain].
Defined.

(** X7. How a submission with valid passwords fails. When the auth service
    refuses the new credential, nothing persisted changes and the profile is
    not written. When the credential update succeeds and the profile update
    is rejected, the credential has changed all the same while the profile
    keeps its bypass token and its old date. In both cases the session stays
    in its step with its fields and an error message, and nothing is handed
    to [onProfileUpdate]. *)
Theorem password_update_failure_modes profile env db st :
  newPassword st = confirmPassword st →
  6 ≤ length (newPassword st) →
  let r := handlePasswordUpdate profile env db st in
  let writes := dbUpdates (isUsingSpecialToken st) in
  (∀ m, update_user_error env = Some m →
     backend r = db
     ∧ calls (after r) = [AuthUpdateUser (newPassword st)]
     ∧ state (after r) =
         setIsProcessing false
           (setMessage
              (Some {| type := error;
                       text := messageOr m failedToUpdateText |}) st)
     ∧ onProfileUpdate r = None)
  ∧ (∀ m, update_user_error env = None →
     profilesUpdate env (id profile) writes (profiles db) = inl m →
     credential (backend r) = newPassword st
     ∧ profiles (backend r) = profiles db
     ∧ calls (after r) =
         [AuthUpdateUser (newPassword st); ProfilesUpdate (id profile) writes]
     ∧ state (after r) =
         setIsProcessing false
           (setMessage
              (Some {| type := error;
                       text := messageOr m failedToUpdateText |}) st)
     ∧ onProfileUpdate r = None).
Proof.
  intros Hsame Hlen r writes. unfold r, handlePasswordUpdate.
  rewrite bool_decide_eq_false_2 by (by intros ?).
  rewrite bool_decide_eq_false_2 by lia.
  split; intros m Hauth; rewrite Hauth; simpl; [done|].
  intros Hwrite. fold writes. rewrite Hwrite. done.
Qed.

Lemma password_update_failure_modes_witness :
  let env := {| update_user_error := None;
                profile_update_error := Some (JS.lit "offline");
                server_now := 5000; client_now := 4990 |} in
  let r := handlePasswordUpdate Samples.holder env Samples.backend0
             (Samples.settingPassword true (JS.lit "s3cret!") (JS.lit "s3cret!")) in
  credential (backend r) = JS.lit "s3cret!"
  ∧ profiles (backend r) = profiles Samples.backend0.
Proof.
  intros env r.
  destruct (password_update_failure_modes Samples.holder env Samples.backend0
              (Samples.settingPassword true (JS.lit "s3cret!") (JS.lit "s3cret!")))
    as (_ & Hgap); [reflexivity|simpl; lia|].
  destruct (Hgap (JS.lit "offline") eq_refl eq_refl) as (Hcred & Hstore & _).
  by split.
Defined.

(** X8. A privacy save the primary store accepts writes the three privacy
    fields, each with a non-empty value ([only_me] for an empty choice),
    into the profile document, keeps every other field of it and every
    other document, reports success and hands the new settings up; a failure
    of the mirror write changes none of this. *)
Theorem privacy_save_merges profile ps env store :
  primary_error env = None →
  let r := handlePrivacySave profile ps env store in
  let old := default ∅ (store !! id profile) in
  ∃ d,
    primary r !! id profile = Some d
    ∧ d !! "privacy_email"%string = Some (VStr (orOnlyMe (p_email ps)))
    ∧ d !! "privacy_student_id"%string = Some (VStr (orOnlyMe (p_studentId ps)))
    ∧ d !! "privacy_last_seen"%string = Some (VStr (orOnlyMe (p_lastSeen ps)))
    ∧ (∀ v, orOnlyMe v ≠ [])
    ∧ (∀ k : string,
         k ≠ "privacy_email"%string → k ≠ "privacy_student_id"%string →
         k ≠ "privacy_last_seen"%string → d !! k = old !! k)
    ∧ (∀ other, other ≠ id profile → primary r !! other = store !! other)
    ∧ shown r = Some {| type := success; text := privacySavedText |}
    ∧ handedUp r = Some (newSettings ps)
    ∧ (∀ flag,
         let r' := handlePrivacySave profile ps
                     {| primary_error := None; mirror_throws := flag |} store in
         primary r' = primary r ∧ shown r' = shown r
         ∧ handedUp r' = handedUp r ∧ made r' = made r).
Proof.
  intros Hok r old. unfold r, handlePrivacySave. rewrite Hok. simpl.
  unfold setMerge. fold old. eexists. rewrite lookup_insert_eq.
  split; [reflexivity|].
  split; [by rewrite lookup_union_l'; simplify_map_eq|].
  split; [by rewrite lookup_union_l'; simplify_map_eq|].
  split; [by rewrite lookup_union_l'; simplify_map_eq|].
  split; [intros v; unfold orOnlyMe; by destruct v|].
  split.
  { intros k H1 H2 H3. apply lookup_union_r. unfold newSettings.
    by simplify_map_eq. }
  split; [intros other Hother; by rewrite lookup_insert_ne|].
  done.
Qed.

Lemma privacy_save_merges_witness :
  let r := handlePrivacySave Samples.holder
             {| p_email := JS.lit "friends"; p_studentId := [];
                p_lastSeen := JS.lit "public" |}
             {| primary_error := None; mirror_throws := true |}
             (SettingsPage.profiles Samples.backend0) in
  ∃ d, primary r !! JS.lit "u1" = Some d
       ∧ d !! "privacy_student_id"%string = Some (VStr (JS.lit "only_me"))
       ∧ d !! "full_name"%string = Some (VStr (JS.lit "U One")).
Proof.
  intros r.
  destruct (privacy_save_merges Samples.holder
              {| p_email := JS.lit "friends"; p_studentId := [];
                 p_lastSeen := JS.lit "public" |}
              {| primary_error := None; mirror_throws := true |}
              (SettingsPage.profiles Samples.backend0) eq_refl)
    as (d & Hd & _ & Hid & _ & _ & Hkeep & _).
  exists d. split; [exact Hd|]. split; [exact Hid|].
  rewrite Hkeep by discriminate. vm_compute. reflexivity.
Defined.

(** X9. A privacy save the primary store rejects changes nothing: the
    store is as before, the mirror write is not attempted, nothing is handed
    up, and the error shown is the thrown string, the message of the thrown
    error or object, or, for anything without a message, the default
    text. *)
Theorem privacy_save_rejected profile ps env store err :
  primary_error env = Some err →
  let r := handlePrivacySave profile ps env store in
  primary r = store
  ∧ made r = [PrimarySetMerge (id profile) (newSettings ps)]
  ∧ handedUp r = None
  ∧ isSavingPrivacy r = false
  ∧ shown r = Some {| type := error; text := errMsgOf err |}
  ∧ (∀ m, err = ThrownError m ∨ err = ThrownString m
          ∨ err = ThrownObject (Some m) → errMsgOf err = m)
  ∧ (err = ThrownObject None ∨ err = ThrownOther →
     errMsgOf err = failedToSaveText).
Proof.
  intros Herr r. unfold r, handlePrivacySave. rewrite Herr. simpl.
  repeat (split; [done|]). split.
  - intros m [->|[->| ->]]; done.
  - intros [->| ->]; done.
Qed.

Lemma privacy_save_rejected_witness :
  shown
    (handlePrivacySave Samples.holder
       {| p_email := []; p_studentId := []; p_lastSeen := [] |}
       {| primary_error := Some ThrownOther; mirror_throws := false |} ∅)
  = Some {| type := error; text := failedToSaveText |}.
Proof.
  apply (privacy_save_rejected Samples.holder
           {| p_email := []; p_studentId := []; p_lastSeen := [] |}
           {| primary_error := Some ThrownOther; mirror_throws := false |} ∅
           ThrownOther eq_refl).
Defined.

End SettingsFlowFacts.

Module BroadcastFacts.
Import Firestore MayorPage.

Lemma broadcastLoop_fails_at env t m (pre : list (list JS.str)) c post msg :
  ∀ k0 p,
    (∀ j, j < length pre → commit_error env (k0 + j) = None) →
    commit_error env (k0 + length pre) = Some msg →
    broadcastLoop env t m k0 (pre ++ c :: post) p =
      ({| count := count p + length (concat pre) + length c;
          commits :=
            commits p ++ (fmap (M := list) (notificationFor t m) <$> pre)
            ++ [notificationFor t m <$> c];
          created := created p ++ (notificationFor t m <$> concat pre) |},
       Some msg).
Proof.
  induction pre as [|c0 pre IH]; intros k0 p Hok Hfail; simpl in *.
  - rewrite Nat.add_0_r in Hfail. rewrite Hfail, Nat.add_0_r, app_nil_r. done.
  - pose proof (Hok 0 ltac:(lia)) as H0. rewrite Nat.add_0_r in H0.
    rewrite H0, IH; simpl.
    + rewrite length_app, fmap_app, <- !app_assoc. do 2 f_equal. lia.
    + intros j Hj. rewrite <- (Hok (S j)) by lia. f_equal. lia.
    + rewrite <- Hfail. f_equal. lia.
Qed.

(** The first [k] chunks, when they are full, are the first [k * s]
    elements. *)
Lemma concat_take_full {T} (chunks : list (list T)) s k :
  (∀ j c, chunks !! j = Some c → j < k → length c = s) →
  k ≤ length chunks →
  concat (take k chunks) = take (k * s) (concat chunks).
Proof.
  revert k. induction chunks as [|c chunks IH]; intros k Hfull Hk; simpl in *.
  - assert (k = 0) as -> by lia. done.
  - destruct k as [|k]; simpl; [done|].
    assert (length c = s) as Hc by (apply (Hfull 0 c); [done|lia]).
    rewrite take_app_ge by (rewrite Hc; lia).
    rewrite Hc. replace (s + k * s - s) with (k * s) by lia.
    f_equal. apply IH; [|lia].
    intros j c' Hj Hlt. apply (Hfull (S j) c'); [done|lia].
Qed.

(** X10. A broadcast whose commit number [k] (from 0) is the first one
    the store rejects leaves the documents of the first [k] chunks, that is
    of the first [450 k] users, committed; it has asked for [k + 1] commits
    and no more, reports the failure with the message of the error, and
    keeps the title and the message typed. *)
Theorem broadcast_partial_failure env store st k failure :
  get_error env = None →
  (∀ j, j < k → commit_error env j = None) →
  commit_error env k = Some failure →
  k * 450 < size (profiles env) →
  ∃ r,
    executeBroadcast env store st = Some r
    ∧ notifications r =
        store ++ (notificationFor (title st) (message st)
                    <$> take (k * 450) (map_to_list (profiles env)).*1)
    ∧ length (batches r) = S k
    ∧ status (state r) = Some {| type := error; msg := failedText failure |}
    ∧ title (state r) = title st
    ∧ message (state r) = message st
    ∧ isSending (state r) = false.
Proof.
  intros Hget Hok Hfail Hk. unfold executeBroadcast. rewrite Hget.
  set (userIds := (map_to_list (profiles env)).*1).
  assert (length userIds = size (profiles env)) as Hlen
    by (unfold userIds; by rewrite length_fmap, length_map_to_list).
  rewrite bool_decide_eq_false_2; last first.
  { intros Hnil. unfold userIds in Hlen. rewrite Hnil in Hlen.
    simpl in Hlen. lia. }
  fold userIds.
  destruct (ChunkFacts.chunkArray_chunks userIds 450) as
    (chunks & Hchunks & Hcat & _ & Hfull & _ & Hcount); [lia|].
  rewrite Hchunks. cbn [mbind option_bind].
  assert (k < length chunks) as Hkc.
  { rewrite Hcount, Hlen.
    apply (Nat.lt_le_trans _ ((k * 450 + 450) / 450)).
    - replace (k * 450 + 450) with ((k + 1) * 450) by lia.
      rewrite Nat.div_mul by lia. lia.
    - apply Nat.Div0.div_le_mono. lia. }
  destruct (lookup_lt_is_Some_2 chunks k Hkc) as [c Hc].
  rewrite <- (take_drop_middle chunks k c Hc).
  rewrite (broadcastLoop_fails_at env _ _ (take k chunks) c _ failure).
  - eexists. split; [reflexivity|]. simpl.
    split.
    { f_equal. f_equal. rewrite <- Hcat. apply concat_take_full; [|lia].
      intros j c' Hj Hlt. apply (Hfull j c' Hj). lia. }
    split; [|done].
    rewrite length_app, length_fmap, length_take. simpl. lia.
  - intros j Hj. rewrite length_take in Hj. apply Hok. lia.
  - rewrite length_take. replace (k `min` length chunks) with k by lia.
    exact Hfail.
Qed.

Lemma broadcast_partial_failure_witness :
  ∃ r,
    executeBroadcast
      {| profiles := profiles Samples.twoUsers; get_error := None;
         commit_error := λ _, Some (JS.lit "quota") |} [] Samples.announcement
      = Some r
    ∧ notifications r = []
    ∧ status (state r) =
        Some {| type := error; msg := failedText (JS.lit "quota") |}.
Proof.
  destruct (broadcast_partial_failure
              {| profiles := profiles Samples.twoUsers; get_error := None;
                 commit_error := λ _, Some (JS.lit "quota") |} []
              Samples.announcement 0 (JS.lit "quota"))
    as (r & Hrun & Hdocs & _ & Hstatus & _).
  - reflexivity.
  - intros j Hj. lia.
  - reflexivity.
  - vm_compute. lia.
  - exists r. split; [exact Hrun|]. split; [exact Hdocs|]. exact Hstatus.
Defined.

(** X11. A broadcast whose read of the profiles is rejected, or that finds
    no profile, asks for no commit and creates nothing: it reports a failure
    (with the message of the read error, or "No users found to broadcast
    to.") and keeps the title and the message typed. *)
Theorem broadcast_nothing_to_send env store st :
  get_error env ≠ None ∨ profiles env = ∅ →
  ∃ r reason,
    executeBroadcast env store st = Some r
    ∧ batches r = []
    ∧ notifications r = store
    ∧ status (state r) = Some {| type := error; msg := failedText reason |}
    ∧ (∀ m, get_error env = Some m → reason = m)
    ∧ (get_error env = None → reason = noUsersText)
    ∧ title (state r) = title st
    ∧ message (state r) = message st.
Proof.
  intros Hnothing. unfold executeBroadcast.
  destruct (get_error env) as [m|] eqn:Hget.
  - eexists _, m. split; [reflexivity|]. simpl. rewrite app_nil_r.
    repeat (split; [done|]). split; [congruence|done].
  - destruct Hnothing as [?|Hempty]; [done|]. rewrite Hempty, map_to_list_empty.
    rewrite bool_decide_eq_true_2 by done.
    eexists _, noUsersText. split; [reflexivity|]. simpl. rewrite app_nil_r.
    repeat (split; [done|]). done.
Qed.

Lemma broadcast_nothing_to_send_witness :
  ∃ r,
    executeBroadcast
      {| profiles := ∅; get_error := None; commit_error := λ _, None |} []
      Samples.announcement = Some r
    ∧ status (state r) =
        Some {| type := error; msg := failedText noUsersText |}.
Proof.
  destruct (broadcast_nothing_to_send
              {| profiles := ∅; get_error := None; commit_error := λ _, None |}
              [] Samples.announcement) as (r & reason & Hrun & _ & _ & Hst & _ & Hwhy & _).
  - right. reflexivity.
  - exists r. split; [exact Hrun|]. rewrite Hst, (Hwhy eq_refl). reflexivity.
Defined.

Lemma trimStart_nil (s : JS.str) :
  JS.trimStart s = [] ↔ Forall (λ c, JS.isWhiteSpace c = true) s.
Proof.
  induction s as [|c s IH]; simpl; [by split|].
  destruct (JS.isWhiteSpace c) eqn:Hc.
  - rewrite IH. split; [by constructor|by inversion 1].
  - split; [done|]. inversion 1; congruence.
Qed.

Lemma trimStart_head (s : JS.str) c rest :
  JS.trimStart s = c :: rest → JS.isWhiteSpace c = false.
Proof.
  induction s as [|c0 s IH]; simpl; [done|].
  destruct (JS.isWhiteSpace c0) eqn:Hc; [done|]. by intros [= <- _].
Qed.

Lemma trimStart_snoc (s : JS.str) c :
  JS.isWhiteSpace c = false → JS.trimStart (s ++ [c]) ≠ [].
Proof.
  intros Hc. induction s as [|c0 s IH]; simpl; [by rewrite Hc|].
  by destruct (JS.isWhiteSpace c0).
Qed.

(** A string trims to the empty string exactly when it is all white
    space. *)
Lemma trim_nil (s : JS.str) :
  JS.trim s = [] ↔ Forall (λ c, JS.isWhiteSpace c = true) s.
Proof.
  rewrite <- trimStart_nil. unfold JS.trim, JS.trimEnd.
  destruct (JS.trimStart s) as [|c rest] eqn:Hs; [done|].
  split; [|done]. intros Hnil. exfalso.
  apply (f_equal reverse) in Hnil. rewrite reverse_involutive in Hnil.
  rewrite reverse_cons in Hnil.
  by apply (trimStart_snoc (reverse rest) c (trimStart_head s c rest Hs)).
Qed.

(** X12. The broadcast form asks for confirmation exactly when both the
    title and the message have a character that is not white space; a title
    or a message of spaces only leaves the form as it is. The texts typed are
    never changed. *)
Theorem blank_broadcast_is_not_confirmed st :
  let blank (s : JS.str) := Forall (λ c, JS.isWhiteSpace c = true) s in
  let st' := MayorTabs.handleBroadcastClick st in
  (blank (title st) ∨ blank (message st) → st' = st)
  ∧ (¬ blank (title st) → ¬ blank (message st) → isConfirmOpen st' = true)
  ∧ title st' = title st ∧ message st' = message st
  ∧ status st' = status st.
Proof.
  intros blank st'. unfold st', MayorTabs.handleBroadcastClick.
  pose proof (trim_nil (title st)) as Ht.
  pose proof (trim_nil (message st)) as Hm. fold (blank (title st)) in Ht.
  fold (blank (message st)) in Hm.
  destruct (JS.trim (title st)) as [|c1 r1];
    destruct (JS.trim (message st)) as [|c2 r2]; simpl.
  - split; [done|]. split; [|done]. intros Hn. destruct Hn. by apply Ht.
  - split; [done|]. split; [|done]. intros Hn. destruct Hn. by apply Ht.
  - split; [done|]. split; [|done]. intros _ Hn. destruct Hn. by apply Hm.
  - split; [|done]. intros [Hb|Hb]; [by apply Ht in Hb|by apply Hm in Hb].
Qed.

End BroadcastFacts.

Module SecurityExceptionsFacts.
Import Firestore MayorTabs.

Lemma chars_not_white : Forall (λ c, JS.isWhiteSpace c = false) chars.
Proof. vm_compute. repeat constructor. Qed.

Lemma chars_length : length chars = 62.
Proof. reflexivity. Qed.

Lemma charAt_length i : i < 62 → length (charAt chars i) = 1.
Proof.
  intros Hi. unfold charAt.
  destruct (lookup_lt_is_Some_2 chars i) as [c Hc];
    [by rewrite chars_length|]. by rewrite Hc.
Qed.

Lemma charAt_not_white i : Forall (λ c, JS.isWhiteSpace c = false) (charAt chars i).
Proof.
  unfold charAt. destruct (chars !! i) as [c|] eqn:Hc; [|constructor].
  constructor; [|constructor].
  by apply (Forall_lookup_1 _ _ _ _ chars_not_white Hc).
Qed.

Lemma randomPart_fold draw (idxs : list nat) (part : JS.str) :
  let out := foldl (λ part i, part ++ charAt chars (draw i)) part idxs in
  (Forall (λ c, JS.isWhiteSpace c = false) part →
   Forall (λ c, JS.isWhiteSpace c = false) out)
  ∧ (Forall (λ i, draw i < 62) idxs → length out = length part + length idxs).
Proof.
  revert part. induction idxs as [|i idxs IH]; intros part; simpl.
  - split; [done|]. intros _. lia.
  - destruct (IH (part ++ charAt chars (draw i))) as [IH1 IH2]. split.
    + intros Hp. apply IH1. apply Forall_app. split; [done|].
      apply charAt_not_white.
    + intros Hdraw. inversion Hdraw as [|? ? Hi His]; subst.
      rewrite (IH2 His), length_app, charAt_length by done. lia.
Qed.

Lemma newToken_trim draw :
  JS.trim (newToken draw) = newToken draw ∧ JS.falsy (newToken draw) = false.
Proof.
  destruct (randomPart_fold draw (seq 0 32) []) as [Hwhite _].
  split; [|reflexivity].
  apply JSFacts.trim_id. unfold newToken. apply Forall_app. split.
  - vm_compute. repeat constructor.
  - by apply Hwhite.
Qed.

(** X13. The token [handleGenerate] makes starts with [sk_live_], has no
    white space (trimming leaves it as it is) and is never empty; when every
    draw is an index of [chars] it has exactly 40 characters. *)
Theorem new_token_shape draw :
  take 8 (newToken draw) = JS.lit "sk_live_"
  ∧ JS.trim (newToken draw) = newToken draw
  ∧ JS.falsy (newToken draw) = false
  ∧ ((∀ i, i < 32 → draw i < 62) → length (newToken draw) = 40).
Proof.
  destruct (randomPart_fold draw (seq 0 32) []) as [Hwhite Hlen].
  split; [reflexivity|]. split; [|split; [reflexivity|]].
  - apply JSFacts.trim_id. unfold newToken. apply Forall_app. split.
    + vm_compute. repeat constructor.
    + by apply Hwhite.
  - intros Hdraw. unfold newToken, randomPart. rewrite length_app, Hlen.
    + reflexivity.
    + apply Forall_forall. intros i Hi%elem_of_seq. apply Hdraw. lia.
Qed.

Lemma updateDoc_plain (now : Z) (target : JS.str) (k : string) (v : Value)
    (profiles : gmap JS.str Doc) (d : Doc) :
  profiles !! target = Some d →
  updateDoc false now target {[ k := Plain v ]} profiles =
    Some (<[ target := <[ k := v ]> d ]> profiles).
Proof.
  intros Hd. unfold updateDoc. rewrite Hd. simpl. do 2 f_equal.
  apply map_eq. intros k'. rewrite SettingsFacts.apply_update_lookup.
  destruct (decide (k' = k)) as [->|Hne]; by simplify_map_eq.
Qed.

Lemma updateDoc_delete (now : Z) (target : JS.str) (k : string)
    (profiles : gmap JS.str Doc)
    (d : Doc) :
  profiles !! target = Some d →
  updateDoc false now target {[ k := DeleteField ]} profiles =
    Some (<[ target := delete k d ]> profiles).
Proof.
  intros Hd. unfold updateDoc. rewrite Hd. simpl. do 2 f_equal.
  apply map_eq. intros k'. rewrite SettingsFacts.apply_update_lookup.
  destruct (decide (k' = k)) as [->|Hne]; by simplify_map_eq.
Qed.

(** X14. A token the administrator generates for a user is stored on the
    profile of that user, the other fields of the profile staying, it is the
    token shown to the administrator, the user is listed among the active
    exceptions, and the user who types it in a bypass session passes the
    verify step. *)
Theorem issued_token_verifies draw now profiles st sel d
    (holder : SettingsPage.Profile) session :
  selectedUser st = Some sel →
  profiles !! id sel = Some d →
  SettingsPage.id holder = id sel →
  SettingsPage.isUsingSpecialToken session = true →
  let o := handleGenerate draw false now profiles st in
  let token := newToken draw in
  let v := SettingsPage.handleVerifyToken holder
             {| SettingsPage.profiles_now := store o;
                SettingsPage.get_error := None |}
             (SettingsNav.typeToken token session) in
  alerted o = false
  ∧ generatedToken (state o) = Some token
  ∧ store o =
      <[ id sel := <[ "special_password_token"%string := VStr token ]> d ]>
        profiles
  ∧ SettingsPage.step (SettingsPage.state v) = SettingsPage.set_password
  ∧ (sel ∈ users st →
     withToken (Some token) sel ∈ activeExceptions (users (state o))).
Proof.
  intros Hsel Hd Hid Hbypass o token v.
  assert (o = {| state :=
                   {| users := markUser (id sel) (Some token) (users st);
                      selectedUser := selectedUser st;
                      generatedToken := Some token; isGenerating := false;
                      isRevokeModalOpen := isRevokeModalOpen st;
                      tokenToRevokeId := tokenToRevokeId st;
                      isRevoking := isRevoking st |};
                 store :=
                   <[ id sel :=
                        <[ "special_password_token"%string := VStr token ]> d ]>
                     profiles;
                 alerted := false |}) as Ho.
  { unfold o, handleGenerate. rewrite Hsel. fold token.
    by rewrite (updateDoc_plain _ _ _ _ _ d Hd). }
  destruct (newToken_trim draw) as (Htrim & Htruthy).
  fold token in Htrim, Htruthy.
  split; [by rewrite Ho|]. split; [by rewrite Ho|]. split; [by rewrite Ho|].
  split.
  - set (venv := {| SettingsPage.profiles_now := store o;
                    SettingsPage.get_error := None |}).
    set (typed := SettingsNav.typeToken token session).
    assert (SettingsPage.isUsingSpecialToken typed = true) as Hu by done.
    destruct (SettingsFacts.verifyAttempt_bypass holder venv typed Hu)
      as (_ & Hiff & _).
    destruct (SettingsFacts.handleVerifyToken_outcome holder venv typed)
      as (_ & Hout).
    fold v in Hout.
    assert ((SettingsPage.verifyAttempt holder venv typed).1 = None) as Hnone.
    { apply Hiff. split; [done|]. simpl. rewrite Htrim, Hid, Ho. simpl.
      rewrite lookup_insert_eq. simpl. rewrite lookup_insert_eq.
      split; [done|]. by destruct token. }
    rewrite Hnone in Hout. by destruct Hout.
  - intros Hin. rewrite Ho. simpl. unfold activeExceptions.
    apply list_elem_of_In, filter_In. split.
    + apply list_elem_of_In. unfold markUser. apply list_elem_of_fmap.
      exists sel. split; [|done]. by rewrite bool_decide_eq_true_2.
    + unfold hasToken. cbn [special_password_token withToken].
      by rewrite Htruthy.
Qed.

(** X15. After the administrator has revoked the token of a user, the
    profile of the user has no token left (its other fields stay), no row of
    that user is among the active exceptions, the dialog is closed, and
    whatever the user enters in a bypass session is refused. When the store
    rejects the revocation, the rows and the store are as before and an
    alert is raised; the dialog is closed all the same. *)
Theorem revoked_token_is_refused now profiles st target d
    (holder : SettingsPage.Profile) session :
  tokenToRevokeId st = Some target →
  target ≠ [] →
  profiles !! target = Some d →
  SettingsPage.id holder = target →
  SettingsPage.isUsingSpecialToken session = true →
  let o := confirmRevoke false now profiles st in
  let v := SettingsPage.handleVerifyToken holder
             {| SettingsPage.profiles_now := store o;
                SettingsPage.get_error := None |} session in
  let o' := confirmRevoke true now profiles st in
  store o = <[ target := delete "special_password_token"%string d ]> profiles
  ∧ Forall (λ u, id u = target → hasToken u = false) (users (state o))
  ∧ tokenToRevokeId (state o) = None
  ∧ isRevokeModalOpen (state o) = false
  ∧ SettingsPage.step (SettingsPage.state v) = SettingsPage.step session
  ∧ SettingsPage.message (SettingsPage.state v) =
      Some {| SettingsPage.type := SettingsPage.error;
              SettingsPage.text := SettingsPage.invalidAdminTokenText |}
  ∧ store o' = profiles ∧ users (state o') = users st ∧ alerted o' = true
  ∧ isRevokeModalOpen (state o') = false.
Proof.
  intros Htarget Hne Hd Hid Hbypass o v o'.
  assert (JS.falsy target = false) as Htruthy by (by destruct target).
  assert (o = {| state :=
                   {| users := markUser target None (users st);
                      selectedUser := selectedUser st;
                      generatedToken := generatedToken st;
                      isGenerating := isGenerating st;
                      isRevokeModalOpen := false; tokenToRevokeId := None;
                      isRevoking := false |};
                 store :=
                   <[ target := delete "special_password_token"%string d ]>
                     profiles;
                 alerted := false |}) as Ho.
  { unfold o, confirmRevoke. rewrite Htarget, Htruthy.
    by rewrite (updateDoc_delete _ _ _ _ d Hd). }
  split; [by rewrite Ho|]. split.
  { rewrite Ho. simpl. unfold markUser. apply Forall_fmap, Forall_forall.
    intros u _. simpl. case_bool_decide; [done|]. intros ?. done. }
  split; [by rewrite Ho|]. split; [by rewrite Ho|].
  assert (SettingsPage.step (SettingsPage.state v) = SettingsPage.step session
          ∧ SettingsPage.message (SettingsPage.state v) =
              Some {| SettingsPage.type := SettingsPage.error;
                      SettingsPage.text := SettingsPage.invalidAdminTokenText |})
    as [Hstep Hmsg].
  { set (venv := {| SettingsPage.profiles_now := store o;
                    SettingsPage.get_error := None |}).
    destruct (SettingsFacts.verifyAttempt_bypass holder venv session Hbypass)
      as (_ & Hiff & Hwhy).
    destruct (SettingsFacts.handleVerifyToken_outcome holder venv session)
      as (_ & Hout).
    fold v in Hout.
    assert ((SettingsPage.verifyAttempt holder venv session).1 =
            Some SettingsPage.invalidAdminTokenText) as Hthrown.
    { destruct (Hwhy eq_refl) as [Hnone|Hsome]; [|done].
      apply Hiff in Hnone as (_ & Heq & _). exfalso. revert Heq.
      simpl. rewrite Hid, Ho. simpl. rewrite lookup_insert_eq. simpl.
      by rewrite lookup_delete_eq. }
    by rewrite Hthrown in Hout. }
  split; [done|]. split; [done|].
  unfold o', confirmRevoke. rewrite Htarget, Htruthy. done.
Qed.

Lemma issued_token_verifies_witness :
  let st := {| users := []; selectedUser :=
                 Some {| id := JS.lit "u1"; full_name := None;
                         student_id := None; special_password_token := None |};
               generatedToken := None; isGenerating := false;
               isRevokeModalOpen := false; tokenToRevokeId := None;
               isRevoking := false |} in
  let o := handleGenerate (λ i, i) false 7000
             (SettingsPage.profiles Samples.backend0) st in
  SettingsPage.step
    (SettingsPage.state
       (SettingsPage.handleVerifyToken Samples.holder
          {| SettingsPage.profiles_now := store o;
             SettingsPage.get_error := None |}
          (SettingsNav.typeToken (newToken (λ i, i))
             (Samples.verifying true [] []))))
  = SettingsPage.set_password.
Proof.
  intros st o.
  apply (issued_token_verifies (λ i, i) 7000
           (SettingsPage.profiles Samples.backend0) st
           {| id := JS.lit "u1"; full_name := None; student_id := None;
              special_password_token := None |}
           Samples.holderDoc Samples.holder (Samples.verifying true [] []));
    [reflexivity|vm_compute; reflexivity|reflexivity|reflexivity].
Defined.

Lemma revoked_token_is_refused_witness :
  let st := {| users := []; selectedUser := None; generatedToken := None;
               isGenerating := false; isRevokeModalOpen := true;
               tokenToRevokeId := Some (JS.lit "u1"); isRevoking := false |} in
  let o := confirmRevoke false 7000 (SettingsPage.profiles Samples.backend0) st in
  SettingsPage.message
    (SettingsPage.state
       (SettingsPage.handleVerifyToken Samples.holder
          {| SettingsPage.profiles_now := store o;
             SettingsPage.get_error := None |}
          (Samples.verifying true [] (JS.lit "ABC123"))))
  = Some {| SettingsPage.type := SettingsPage.error;
            SettingsPage.text := SettingsPage.invalidAdminTokenText |}.
Proof.
  intros st o.
  apply (revoked_token_is_refused 7000
           (SettingsPage.profiles Samples.backend0) st (JS.lit "u1")
           Samples.holderDoc Samples.holder
           (Samples.verifying true [] (JS.lit "ABC123")));
    [reflexivity|discriminate|vm_compute; reflexivity|reflexivity|reflexivity].
Defined.

End SecurityExceptionsFacts.

Module MayorAdminFacts.
Import Firestore MayorTabs.

(** X16. A confirmed deletion the store accepts removes the document from
    the collection and every row with that id from the list, keeps the other
    rows in their order and the other documents, and closes the dialog. A
    rejected deletion keeps the list and the collection and closes the dialog
    too. Without an event chosen, nothing happens. *)
Theorem confirmed_event_is_deleted coll st target :
  eventToDelete st = Some target →
  target ≠ [] →
  let done := confirmDeleteEvent false coll st in
  let failed := confirmDeleteEvent true coll st in
  done.2 !! target = None
  ∧ (∀ other, other ≠ target → done.2 !! other = coll !! other)
  ∧ Forall (λ e, docId e ≠ target) (events done.1)
  ∧ events done.1 = List.filter (λ e, bool_decide (docId e ≠ target)) (events st)
  ∧ (∀ e, docId e ≠ target → e ∈ events done.1 ↔ e ∈ events st)
  ∧ sublist (events done.1) (events st)
  ∧ isConfirmModalOpen done.1 = false ∧ eventToDelete done.1 = None
  ∧ failed.2 = coll ∧ events failed.1 = events st
  ∧ isConfirmModalOpen failed.1 = false ∧ eventToDelete failed.1 = None
  ∧ (∀ rejected st0, eventToDelete st0 = None →
       confirmDeleteEvent rejected coll st0 = (st0, coll)).
Proof.
  intros Htarget Hne done failed.
  assert (JS.falsy target = false) as Htruthy by (by destruct target).
  unfold done, failed, confirmDeleteEvent. rewrite Htarget, Htruthy. simpl.
  split; [apply lookup_delete_eq|].
  split; [intros other Hother; by apply lookup_delete_ne|].
  split.
  { apply Forall_forall. intros e He%list_elem_of_In%filter_In.
    destruct He as [_ He]. by apply bool_decide_eq_true in He. }
  split; [done|]. split.
  { intros e He. rewrite !list_elem_of_In, filter_In.
    rewrite bool_decide_eq_true. tauto. }
  split.
  { generalize (events st). intros l. induction l as [|e l IH]; simpl;
      [done|]. case_bool_decide; by constructor. }
  repeat (split; [done|]).
  intros rejected st0 Hnone. by rewrite Hnone.
Qed.

Lemma confirmed_event_is_deleted_witness :
  let st := {| events :=
                 [ {| docId := JS.lit "e1"; ev_title := JS.lit "Exam";
                      eventDate := JS.lit "2025-02-01" |};
                   {| docId := JS.lit "e2"; ev_title := JS.lit "Fair";
                      eventDate := JS.lit "2025-03-01" |} ];
               isConfirmModalOpen := true;
               eventToDelete := Some (JS.lit "e1"); isDeleting := false |} in
  docId <$> events (confirmDeleteEvent false ∅ st).1 = [JS.lit "e2"].
Proof.
  intros st.
  destruct (confirmed_event_is_deleted ∅ st (JS.lit "e1"))
    as (_ & _ & _ & Hrows & _); [reflexivity|discriminate|].
  rewrite Hrows. reflexivity.
Defined.

(** X17. Saving the treasurer URL and reading the settings again gives the
    URL saved when it is not empty and the default URL when it is; the save
    keeps the other fields of the configuration document. Whatever the
    store holds, and when the read fails, what is read is never an empty
    value. *)
Theorem treasurer_url_round_trip (url : JS.str) (settings : gmap JS.str Doc) :
  let saved := handleSave false url settings in
  saved.1 = ConfigurationSaved
  ∧ fetchSettings false saved.2 =
      VStr (if JS.falsy url then defaultTreasurerUrl else url)
  ∧ (∀ (k : string) d d',
       settings !! globalConfig = Some d →
       saved.2 !! globalConfig = Some d' →
       k ≠ "treasurer_portal_url"%string → d' !! k = d !! k)
  ∧ handleSave true url settings = (FailedToSave, settings)
  ∧ (∀ read_fails store, falsy (Some (fetchSettings read_fails store)) = false)
  ∧ (∀ store, fetchSettings true store = VStr defaultTreasurerUrl).
Proof.
  intros saved. unfold saved, handleSave, SettingsNav.setMerge. simpl.
  split; [done|]. split.
  { unfold fetchSettings. rewrite lookup_insert_eq. simpl.
    rewrite lookup_union_l' by (by simplify_map_eq).
    rewrite lookup_singleton_eq. simpl. by destruct url. }
  split.
  { intros k d d' Hd. rewrite lookup_insert_eq, Hd. simpl.
    intros [= <-] Hk. apply lookup_union_r. by simplify_map_eq. }
  split; [done|]. split; [|done].
  intros read_fails store. unfold fetchSettings.
  destruct read_fails; [done|].
  destruct (store !! globalConfig ≫= _) as [v|]; [|done].
  destruct (falsy (Some v)) eqn:Hv; done.
Qed.

End MayorAdminFacts.

Module MonitorDataFacts.
Import MonitorPage MonitorData.

Section FoldInsert.
Context {X K V : Type} `{Countable K}.
Variables (key : X → K) (val : X → V).

(** Writing a list of entries one after the other into a map: an entry
    that was written is read back, provided entries with the same key have
    the same value; a key that was not written is untouched. *)
Lemma foldl_insert_written (l : list X) (m : gmap K V) x :
  (∀ y z, y ∈ l → z ∈ l → key y = key z → val y = val z) →
  x ∈ l →
  foldl (λ m y, <[ key y := val y ]> m) m l !! key x = Some (val x).
Proof.
  induction l as [|y l IH] using rev_ind; [by intros _ ?%elem_of_nil|].
  intros Hsame Hx. rewrite foldl_app. simpl.
  destruct (decide (key y = key x)) as [Heq|Hne].
  - rewrite Heq, lookup_insert_eq. f_equal.
    apply Hsame; [apply elem_of_app; right; constructor|done..].
  - rewrite lookup_insert_ne by done. apply IH.
    + intros a b Ha Hb. apply Hsame; apply elem_of_app; by left.
    + apply elem_of_app in Hx as [?|Hx]; [done|].
      apply list_elem_of_singleton in Hx. congruence.
Qed.

Lemma foldl_insert_untouched (l : list X) (m : gmap K V) k :
  k ∉ key <$> l →
  foldl (λ m y, <[ key y := val y ]> m) m l !! k = m !! k.
Proof.
  induction l as [|y l IH] using rev_ind; [done|].
  intros Hk. rewrite foldl_app. simpl. rewrite fmap_app in Hk.
  apply not_elem_of_app in Hk as [Hl Hy]. simpl in Hy.
  rewrite lookup_insert_ne by (intros <-; apply Hy; constructor). by apply IH.
Qed.
End FoldInsert.

Lemma docIdOf_inj day u1 u2 : docIdOf day u1 = docIdOf day u2 → u1 = u2.
Proof. unfold docIdOf. intros Heq. by do 2 apply app_inv_head in Heq. Qed.

Lemma keyed_insert store day u r :
  keyed store → date r = day → userId r = u →
  keyed (<[ docIdOf day u := r ]> store).
Proof.
  intros Hk Hd Hu k r'. destruct (decide (k = docIdOf day u)) as [->|Hne].
  - rewrite lookup_insert_eq. intros [= <-]. by rewrite Hd, Hu.
  - rewrite lookup_insert_ne by done. apply Hk.
Qed.

(** In a collection where every document is under the id of its date and
    user, the map loaded for a day has, for each user, the document of that
    day and user. *)
Lemma attendanceMapOf_lookup store day u :
  keyed store →
  attendanceMapOf (attendanceOf store day) !! u =
    withId (docIdOf day u) <$> store !! docIdOf day u
    ≫= (λ r, if bool_decide (date r = day ∧ userId r = u) then Some r else None).
Proof.
  intros Hkeyed. unfold attendanceMapOf.
  set (docs := attendanceOf store day).
  assert (∀ doc, doc ∈ docs ↔
            store !! doc.1 = Some doc.2 ∧ date doc.2 = day) as Hdocs.
  { intros [k r]. unfold docs, attendanceOf.
    rewrite list_elem_of_In, filter_In, <- list_elem_of_In.
    rewrite elem_of_map_to_list, bool_decide_eq_true. done. }
  assert (∀ doc, doc ∈ docs → doc.1 = docIdOf day (userId doc.2)) as Hid.
  { intros doc [Hin Hday]%Hdocs. rewrite <- Hday. by apply Hkeyed. }
  destruct (store !! docIdOf day u) as [r|] eqn:Hr; simpl;
    [case_bool_decide as Hru; simpl|].
  - destruct Hru as [Hd Hu].
    assert ((docIdOf day u, r) ∈ docs) as Hin by (by apply Hdocs).
    rewrite <- Hu at 1.
    apply (foldl_insert_written (λ doc, userId doc.2)
             (λ doc, withId doc.1 doc.2) docs ∅ (docIdOf day u, r)); [|done].
    intros y z Hy Hz Hsame.
    assert (y.1 = z.1) as H1 by (rewrite (Hid y Hy), (Hid z Hz); congruence).
    apply Hdocs in Hy as [Hy _]. apply Hdocs in Hz as [Hz _].
    rewrite H1 in Hy. assert (y.2 = z.2) as H2 by congruence.
    cbv beta. by rewrite H1, H2.
  - rewrite (foldl_insert_untouched (λ doc, userId doc.2)); [done|].
    intros (doc & Hu & Hin)%list_elem_of_fmap.
    pose proof (Hid doc Hin) as Hk. apply Hdocs in Hin as [Hin Hday].
    rewrite <- Hu in Hk. rewrite Hk, Hr in Hin. injection Hin as ->.
    by destruct Hru.
  - rewrite (foldl_insert_untouched (λ doc, userId doc.2)); [done|].
    intros (doc & Hu & Hin)%list_elem_of_fmap.
    pose proof (Hid doc Hin) as Hk. apply Hdocs in Hin as [Hin Hday].
    rewrite <- Hu in Hk. by rewrite Hk, Hr in Hin.
Qed.

(** X18. A status marked for a user and accepted by the store is what a
    reload of the day shows for that user: the record written, with the id
    made of the day and the user. It is the record the optimistic update
    had put in the map, the time stamp apart. The collection stays one where
    every document is under the id of its date and user. *)
Theorem marked_status_is_reloaded user target s store st :
  keyed store →
  let r := handleStatusUpdate user target s true store st in
  let docId := docIdOf (selectedDate st) target in
  let record := newRecord (selectedDate st) user target s in
  let reloaded := fetchData false (attendance r) (state r) in
  keyed (attendance r)
  ∧ attendance r !! docId = Some record
  ∧ attendanceData reloaded !! target = Some (withId docId record)
  ∧ attendanceData (state r) !! target = Some (optimistic docId record)
  ∧ withId docId record =
      {| rec_id := Some docId; userId := target; date := selectedDate st;
         status := s; markedBy := user; timestamp := ServerStamp |}
  ∧ optimistic docId record =
      {| rec_id := Some docId; userId := target; date := selectedDate st;
         status := s; markedBy := user; timestamp := LocalPlaceholder |}
  ∧ error reloaded = None.
Proof.
  intros Hkeyed r docId record reloaded.
  assert (keyed (attendance r)) as Hk' by (by apply keyed_insert).
  split; [done|]. split; [apply lookup_insert_eq|]. split.
  { unfold reloaded, fetchData. simpl.
    rewrite attendanceMapOf_lookup by done.
    fold docId record. rewrite lookup_insert_eq. simpl.
    by rewrite bool_decide_eq_true_2. }
  split; [apply lookup_insert_eq|]. done.
Qed.

Lemma marked_status_is_reloaded_witness :
  status
    <$> attendanceData
          (fetchData false
             (attendance
                (handleStatusUpdate (JS.lit "m1") (JS.lit "7") Late true ∅
                   Samples.unmarked))
             Samples.unmarked) !! JS.lit "7"
  = Some Late.
Proof.
  destruct (marked_status_is_reloaded (JS.lit "m1") (JS.lit "7") Late ∅
              Samples.unmarked) as (_ & _ & Hre & _).
  { intros k r Hr. by rewrite lookup_empty in Hr. }
  simpl in Hre. simpl. by rewrite Hre.
Defined.

(** X19. Marking the same user again on the same day replaces the record:
    the collection and the map shown are those of the last marking alone,
    whoever did the first, and no other document is touched. *)
Theorem remarking_overwrites user1 user2 target s1 s2 store st :
  let r1 := handleStatusUpdate user1 target s1 true store st in
  let r2 := handleStatusUpdate user2 target s2 true (attendance r1) (state r1) in
  let once := handleStatusUpdate user2 target s2 true store st in
  attendance r2 = attendance once
  ∧ attendanceData (state r2) = attendanceData (state once)
  ∧ (∀ k, k ≠ docIdOf (selectedDate st) target →
          attendance r2 !! k = store !! k)
  ∧ (∀ u, u ≠ target →
          attendanceData (state r2) !! u = attendanceData st !! u)
  ∧ size (attendance r2) ≤ S (size store).
Proof.
  intros r1 r2 once. unfold r2, r1, once, handleStatusUpdate. simpl.
  rewrite !insert_insert_eq.
  split; [done|]. split; [done|].
  split; [intros k Hk; by rewrite lookup_insert_ne|].
  split; [intros u Hu; by rewrite lookup_insert_ne|].
  destruct (store !! docIdOf (selectedDate st) target) eqn:Hold.
  - rewrite map_size_insert_Some by done. lia.
  - by rewrite map_size_insert_None.
Qed.

Lemma keyed_applyBatch batch store :
  keyed store →
  Forall (λ w : SetOp, w.1 = docIdOf (date w.2) (userId w.2)) batch →
  keyed (applyBatch batch store).
Proof.
  intros Hk Hall. revert store Hk.
  induction Hall as [|w batch Hw _ IH]; intros store Hk; simpl; [done|].
  apply IH. rewrite Hw. by apply keyed_insert.
Qed.

(** X20. A bulk update the store commits writes, for every row, the
    record of that row under the id made of the day and the row, touches no
    other document and no entry of the map shown for a user outside the
    rows, and a reload of the day shows the new status for every row. Over
    no row at all it does nothing. *)
Theorem bulk_update_writes_every_row user fps s store st :
  fps ≠ [] →
  keyed store →
  let day := selectedDate st in
  let r := handleBulkStatusUpdate user fps s true store st in
  let reloaded := fetchData false (attendance r) (state r) in
  (∀ p, p ∈ fps →
     attendance r !! docIdOf day (id p) = Some (newRecord day user (id p) s)
     ∧ attendanceData reloaded !! id p =
         Some (withId (docIdOf day (id p)) (newRecord day user (id p) s)))
  ∧ (∀ k, k ∉ docIdOf day ∘ id <$> fps → attendance r !! k = store !! k)
  ∧ (∀ u, u ∉ id <$> fps →
          attendanceData (state r) !! u = attendanceData st !! u)
  ∧ keyed (attendance r)
  ∧ (∀ ok, handleBulkStatusUpdate user [] s ok store st =
             {| state := st; calls := []; attendance := store |}).
Proof.
  intros Hrows Hkeyed day r reloaded.
  pose proof (MonitorFacts.handleBulkStatusUpdate_run day user s fps true
                store st eq_refl Hrows) as Hrun.
  fold r in Hrun. simpl in Hrun.
  set (batch := queuedWrite day user s ∘ id <$> fps) in *.
  assert (attendance r = applyBatch batch store) as Hstore by (by rewrite Hrun).
  assert (keyed (attendance r)) as Hk'.
  { rewrite Hstore. apply keyed_applyBatch; [done|].
    unfold batch. apply Forall_fmap, Forall_forall. by intros p _. }
  assert (∀ p, p ∈ fps →
            attendance r !! docIdOf day (id p)
            = Some (newRecord day user (id p) s)) as Hwritten.
  { intros p Hp. rewrite Hstore. unfold applyBatch.
    apply (foldl_insert_written fst snd batch store
             (queuedWrite day user s (id p))).
    - intros y z (py & -> & _)%list_elem_of_fmap (pz & -> & _)%list_elem_of_fmap.
      simpl. intros Hsame%docIdOf_inj. by rewrite Hsame.
    - unfold batch. apply list_elem_of_fmap. by exists p. }
  split; [|split; [|split; [|split; [done|done]]]].
  - intros p Hp. split; [by apply Hwritten|].
    unfold reloaded, fetchData. simpl.
    replace (selectedDate (state r)) with day by (by rewrite Hrun).
    rewrite attendanceMapOf_lookup by done. rewrite (Hwritten p Hp). simpl.
    by rewrite bool_decide_eq_true_2.
  - intros k Hk. rewrite Hstore. unfold applyBatch.
    apply (foldl_insert_untouched fst snd).
    unfold batch. rewrite <- list_fmap_compose. exact Hk.
  - intros u Hu. rewrite Hrun. simpl.
    rewrite MonitorFacts.optimistic_lookup. by rewrite decide_False.
Qed.

Lemma bulk_update_writes_every_row_witness :
  status
    <$> attendance
          (handleBulkStatusUpdate (JS.lit "m1") (Samples.rows 3) Excused true ∅
             Samples.unmarked) !! JS.lit "2025-01-15_2"
  = Some Excused.
Proof.
  destruct (bulk_update_writes_every_row (JS.lit "m1") (Samples.rows 3)
              Excused ∅ Samples.unmarked) as (Hrows & _).
  { discriminate. }
  { intros k r Hr. by rewrite lookup_empty in Hr. }
  destruct (Hrows {| id := JS.lit "2"; full_name := JS.lit "Student";
                     student_id := JS.lit "2" |}) as [Hw _].
  { vm_compute. do 2 right. left. }
  etransitivity; [exact (f_equal (fmap (M := option) status) Hw)|].
  reflexivity.
Defined.

Lemma profileMap_untouched (profiles : list Profile) own k :
  k ∉ id <$> profiles →
  foldl (λ m p, setProperty (id p) (full_name p) m) own profiles !! k
  = own !! k.
Proof.
  revert own. induction profiles as [|p ps IH]; intros own Hout; [done|].
  simpl. apply not_elem_of_cons in Hout as [Hp Hps].
  rewrite IH by done. unfold setProperty.
  case_bool_decide; [done|]. by rewrite lookup_insert_ne.
Qed.

Lemma profileMap_no_proto (profiles : list Profile) own :
  own !! protoKey = None →
  foldl (λ m p, setProperty (id p) (full_name p) m) own profiles !! protoKey
  = None.
Proof.
  revert own. induction profiles as [|p ps IH]; intros own Hown; [done|].
  simpl. apply IH. unfold setProperty.
  case_bool_decide; [done|]. by rewrite lookup_insert_ne.
Qed.

(** X21. What is shown for the id of a monitor. It is "You" for the
    signed-in user, whatever the profiles say. For another id that is no
    name of a member of [Object.prototype], it is a text that is never
    empty: the name of the profile with that id (of the last one, when
    several have it), or "Unknown" when there is no such profile or its
    name is empty. The map being a plain object, an id that is such a name
    finds the inherited member when no profile has it, and for [__proto__]
    also when one has: what is returned is then no string. *)
Theorem monitor_name_lookup user profiles monitorId :
  let name := getMonitorName user profiles monitorId in
  name ≠ Text []
  ∧ (monitorId = user → name = Text (JS.lit "You"))
  ∧ (monitorId ≠ user → monitorId ∉ id <$> profiles →
     name = if bool_decide (monitorId ∈ objectPrototypeKeys)
            then Member monitorId else Text (JS.lit "Unknown"))
  ∧ (∀ before p after,
       monitorId ≠ user → monitorId ≠ protoKey →
       profiles = before ++ p :: after →
       id p = monitorId → monitorId ∉ id <$> after →
       name = Text (if JS.falsy (full_name p) then JS.lit "Unknown"
                    else full_name p))
  ∧ (monitorId ≠ user → monitorId = protoKey → name = Member protoKey)
  ∧ (monitorId ∉ objectPrototypeKeys → ∃ text, name = Text text ∧ text ≠ []).
Proof.
  intros name. unfold name, getMonitorName, getProperty, profileMap.
  split; [|split; [|split; [|split; [|split]]]].
  - case_bool_decide; [done|].
    destruct (foldl _ _ _ !! monitorId) as [n|]; [by destruct n|].
    by case_bool_decide.
  - intros ->. by rewrite bool_decide_eq_true_2.
  - intros Hne Hout. rewrite bool_decide_eq_false_2 by done.
    rewrite profileMap_untouched by done. rewrite lookup_empty.
    by case_bool_decide.
  - intros before p after Hne Hproto -> Hp Hout.
    rewrite bool_decide_eq_false_2 by done.
    rewrite foldl_app. simpl.
    rewrite profileMap_untouched by done. unfold setProperty.
    rewrite bool_decide_eq_false_2 by congruence.
    by rewrite <- Hp, lookup_insert_eq.
  - intros Hne ->. rewrite bool_decide_eq_false_2 by done.
    by rewrite profileMap_no_proto.
  - intros Hplain. case_bool_decide; [by eexists|].
    destruct (foldl _ _ _ !! monitorId) as [n|].
    + destruct n; by eexists.
    + rewrite bool_decide_eq_false_2 by done. by eexists.
Qed.

End MonitorDataFacts.

Module JSTextFacts.
Import JSText.

Lemma slice_take (s : JS.str) (n : nat) : slice s 0 (Z.of_nat n) = take n s.
Proof.
  unfold slice, clampIndex. simpl.
  destruct (Z.ltb_spec (Z.of_nat n) 0) as [?|_]; [lia|].
  rewrite Nat2Z.id, Nat.sub_0_r. change (drop 0 s) with s.
  destruct (decide (n ≤ length s)).
  - by rewrite Nat.min_l.
  - rewrite Nat.min_r by lia. rewrite (take_ge s n) by lia.
    by apply take_ge.
Qed.

Lemma sliceFrom_drop (s : JS.str) (n : nat) : sliceFrom s (Z.of_nat n) = drop n s.
Proof.
  unfold sliceFrom, clampIndex.
  destruct (Z.ltb_spec (Z.of_nat n) 0) as [?|_]; [lia|].
  rewrite Nat2Z.id. destruct (decide (n ≤ length s)).
  - by rewrite Nat.min_l.
  - rewrite Nat.min_r by lia. rewrite (drop_ge s n) by lia.
    by apply drop_ge.
Qed.

Lemma splitWhiteFrom_word (w cur : JS.str) :
  Forall (λ c, JS.isWhiteSpace c = false) w →
  splitWhiteFrom w cur = [cur ++ w].
Proof.
  intros Hw. revert cur. induction Hw as [|c w Hc _ IH]; intros cur; simpl.
  - by rewrite app_nil_r.
  - rewrite Hc, IH, <- app_assoc. done.
Qed.

Lemma splitWhiteFrom_nonempty (s cur : JS.str) : splitWhiteFrom s cur ≠ [].
Proof.
  revert cur. induction s as [|c s IH]; intros cur; simpl; [done|].
  destruct (JS.isWhiteSpace c); [done|apply IH].
Qed.

(** The last piece of a split is what follows the last white space. *)
Lemma splitWhiteFrom_last (p w cur : JS.str) c :
  JS.isWhiteSpace c = true →
  last (splitWhiteFrom (p ++ c :: w) cur) = last (splitWhiteFrom w []).
Proof.
  intros Hc. revert cur. induction p as [|a p IH]; intros cur; simpl.
  - rewrite Hc. pose proof (splitWhiteFrom_nonempty w []).
    by destruct (splitWhiteFrom w []).
  - destruct (JS.isWhiteSpace a); [|apply IH].
    rewrite <- (IH []). pose proof (splitWhiteFrom_nonempty (p ++ c :: w) []).
    by destruct (splitWhiteFrom (p ++ c :: w) []).
Qed.

Lemma lastIndexFrom_app c (a b : JS.str) i found :
  lastIndexFrom c (a ++ b) i found =
    lastIndexFrom c b (i + Z.of_nat (length a)) (lastIndexFrom c a i found).
Proof.
  revert i found. induction a as [|x a IH]; intros i found; simpl.
  - by rewrite Z.add_0_r.
  - rewrite IH. f_equal. lia.
Qed.

Lemma lastIndexFrom_absent c (s : JS.str) i found :
  c ∉ s → lastIndexFrom c s i found = found.
Proof.
  revert i found. induction s as [|x s IH]; intros i found Hc; simpl; [done|].
  apply not_elem_of_cons in Hc as [Hx Hs]. rewrite IH by done.
  destruct (N.eqb_spec x c); [congruence|done].
Qed.

(** The first white space of a string, as [search] reports it. *)
Lemma indexFrom_white (w tail : JS.str) i :
  Forall (λ c, JS.isWhiteSpace c = false) w →
  indexFrom JS.isWhiteSpace (w ++ tail) i =
    match tail with
    | c :: _ => if JS.isWhiteSpace c then (i + Z.of_nat (length w))%Z
                else indexFrom JS.isWhiteSpace tail (i + Z.of_nat (length w))
    | [] => (-1)%Z
    end.
Proof.
  intros Hw. revert i. induction Hw as [|c w Hc _ IH]; intros i; simpl.
  - rewrite Z.add_0_r. destruct tail as [|c tail]; [done|]. simpl.
    by destruct (JS.isWhiteSpace c).
  - rewrite Hc, IH. destruct tail as [|c' tail]; [done|].
    replace (i + 1 + Z.of_nat (length w))%Z
      with (i + Z.pos (Pos.of_succ_nat (length w)))%Z by lia. done.
Qed.

End JSTextFacts.

Module PostDetailFacts.
Import JSText PostDetail.


Lemma current_word (prefix w : JS.str) :
  atWordStart prefix →
  Forall (λ c, JS.isWhiteSpace c = false) w →
  last (splitWhite (prefix ++ w)) = Some w.
Proof.
  intros [->|(p & c & -> & Hc)] Hw; unfold splitWhite.
  - simpl. by rewrite (JSTextFacts.splitWhiteFrom_word w []).
  - rewrite <- app_assoc. simpl.
    rewrite (JSTextFacts.splitWhiteFrom_last p w [] c Hc).
    by rewrite (JSTextFacts.splitWhiteFrom_word w []).
Qed.

(** What [handleInputChange] records while a mention is being typed. *)
Lemma typing_a_mention prefix q rest st :
  atWordStart prefix →
  Forall (λ c, JS.isWhiteSpace c = false) q →
  let val := prefix ++ [at_sign] ++ q ++ rest in
  let typed := handleInputChange val (length prefix + 1 + length q) st in
  commentText typed = val
  ∧ mentionQuery typed = Some q
  ∧ mentionIndex typed =
      lastIndexFrom at_sign q (Z.of_nat (length prefix) + 1)
        (Z.of_nat (length prefix)).
Proof.
  intros Hstart Hq val typed.
  assert (take (length prefix + 1 + length q) val = prefix ++ [at_sign] ++ q)
    as Hbefore.
  { unfold val. rewrite !app_assoc. rewrite take_app_length'; [done|].
    rewrite !length_app. simpl. lia. }
  assert (last (splitWhite (prefix ++ [at_sign] ++ q)) = Some (at_sign :: q))
    as Hword.
  { apply current_word; [done|]. constructor; [reflexivity|done]. }
  unfold typed, handleInputChange.
  rewrite !JSTextFacts.slice_take, Hbefore, Hword. simpl.
  split; [done|]. split; [done|]. unfold lastIndexOfChar.
  rewrite JSTextFacts.lastIndexFrom_app. simpl. done.
Qed.

(** X22. Typing a word that starts with [@] at a word start, the cursor
    being at the end of what was typed of it, opens a mention whose query is
    the word without its [@], and, when the query has no [@] of its own,
    whose index is the position of the [@]. With the cursor after white
    space, or at the start of the text, no mention is open. *)
Theorem mention_is_detected prefix q rest st :
  atWordStart prefix →
  Forall (λ c, JS.isWhiteSpace c = false) q →
  let val := prefix ++ [at_sign] ++ q ++ rest in
  let typed := handleInputChange val (length prefix + 1 + length q) st in
  let idle := handleInputChange (prefix ++ rest) (length prefix) st in
  commentText typed = val
  ∧ mentionQuery typed = Some q
  ∧ (at_sign ∉ q → mentionIndex typed = Z.of_nat (length prefix))
  ∧ mentionQuery idle = None
  ∧ mentionIndex idle = mentionIndex st.
Proof.
  intros Hstart Hq val typed idle.
  destruct (typing_a_mention prefix q rest st Hstart Hq)
    as (Htext & Hquery & Hidx).
  fold val typed in Htext, Hquery, Hidx.
  split; [done|]. split; [done|]. split.
  { intros Hat. rewrite Hidx. by apply JSTextFacts.lastIndexFrom_absent. }
  assert (take (length prefix) (prefix ++ rest) = prefix) as Hidle
    by (by rewrite take_app_length).
  assert (last (splitWhite prefix) = Some []) as Hnone.
  { rewrite <- (app_nil_r prefix). by apply current_word. }
  unfold idle, handleInputChange.
  by rewrite !JSTextFacts.slice_take, Hidle, Hnone.
Qed.

Lemma mention_is_detected_witness :
  mentionQuery
    (handleInputChange (JS.lit "hi @jo") 6
       {| commentText := []; mentionQuery := None; mentionIndex := -1 |})
  = Some (JS.lit "jo").
Proof.
  apply (mention_is_detected (JS.lit "hi ") (JS.lit "jo") []
           {| commentText := []; mentionQuery := None; mentionIndex := -1 |}).
  - right. exists (JS.lit "hi"), 32%N. split; reflexivity.
  - repeat constructor.
Defined.

(** X23. Choosing a suggestion replaces the word of the mention, from its
    [@] to the next white space (also the part of the word after the
    cursor), by [@], the full name and a space; the text before the [@] and
    the text from that white space on are kept, and the mention is closed.
    With no mention ever opened (index -1) nothing changes. *)
Theorem mention_select_replaces_word prefix q w tail name st :
  atWordStart prefix →
  Forall (λ c, JS.isWhiteSpace c = false) q →
  at_sign ∉ q →
  Forall (λ c, JS.isWhiteSpace c = false) w →
  head (JS.isWhiteSpace <$> tail) ≠ Some false →
  let val := prefix ++ [at_sign] ++ q ++ w ++ tail in
  let typed := handleInputChange val (length prefix + 1 + length q) st in
  let chosen := handleMentionSelect name typed in
  commentText chosen = prefix ++ [at_sign] ++ name ++ JS.lit " " ++ tail
  ∧ mentionQuery chosen = None
  ∧ (∀ idle, mentionIndex idle = (-1)%Z → handleMentionSelect name idle = idle).
Proof.
  intros Hstart Hq Hat Hw Htail val typed chosen.
  destruct (typing_a_mention prefix q (w ++ tail) st Hstart Hq)
    as (Htext & _ & Hidx).
  fold val typed in Htext, Hidx.
  rewrite JSTextFacts.lastIndexFrom_absent in Hidx by done.
  split; [|split].
  - unfold chosen, handleMentionSelect. rewrite Hidx, Htext.
    destruct (Z.eqb_spec (Z.of_nat (length prefix)) (-1)) as [?|_]; [lia|].
    rewrite JSTextFacts.slice_take, JSTextFacts.sliceFrom_drop.
    unfold val. rewrite take_app_length, drop_app_length.
    cbn [commentText]. do 2 f_equal.
    set (word := at_sign :: q ++ w).
    assert (Forall (λ c, JS.isWhiteSpace c = false) word) as Hword.
    { constructor; [reflexivity|]. by apply Forall_app. }
    replace ([at_sign] ++ q ++ w ++ tail) with (word ++ tail)
      by (unfold word; simpl; by rewrite <- app_assoc).
    unfold searchWhite.
    rewrite (JSTextFacts.indexFrom_white word tail 0 Hword).
    destruct tail as [|c tail]; [done|]. simpl in Htail.
    destruct (JS.isWhiteSpace c) eqn:Hc; [|done].
    destruct (Z.eqb_spec (0 + Z.of_nat (length word)) (-1)) as [?|_]; [lia|].
    rewrite Z.add_0_l, JSTextFacts.sliceFrom_drop.
    by rewrite drop_app_length.
  - unfold chosen, handleMentionSelect. rewrite Hidx.
    by destruct (Z.eqb_spec (Z.of_nat (length prefix)) (-1)) as [?|_]; [lia|].
  - intros idle Hidle. unfold handleMentionSelect. by rewrite Hidle.
Qed.

Lemma mention_select_replaces_word_witness :
  commentText
    (handleMentionSelect (JS.lit "John Doe")
       (handleInputChange (JS.lit "hi @jo there") 6
          {| commentText := []; mentionQuery := None; mentionIndex := -1 |}))
  = JS.lit "hi @John Doe  there".
Proof.
  apply (mention_select_replaces_word (JS.lit "hi ") (JS.lit "jo") []
           (JS.lit " there") (JS.lit "John Doe")
           {| commentText := []; mentionQuery := None; mentionIndex := -1 |}).
  - right. exists (JS.lit "hi"), 32%N. split; reflexivity.
  - repeat constructor.
  - vm_compute. intros H. repeat (inversion H as [|? ? ? H']; clear H;
      rename H' into H).
  - constructor.
  - discriminate.
Defined.

(** X24. The relative time of a comment: "Just now" under a minute (and
    for a time stamp that is absent or in the future), a number of whole
    minutes from 1 to 59 under an hour, a number of whole hours from 1 to 23
    under a day, and the date from one day on. *)
Theorem relative_time_bounds now t :
  formatTime now None = JustNow
  ∧ match formatTime now (Some t) with
    | JustNow => (now - t < 60000)%Z
    | MinutesAgo n =>
        (1 ≤ n ≤ 59)%Z ∧ (n * 60000 ≤ now - t < (n + 1) * 60000)%Z
    | HoursAgo n =>
        (1 ≤ n ≤ 23)%Z ∧ (n * 3600000 ≤ now - t < (n + 1) * 3600000)%Z
    | OnDate d => d = t ∧ (86400000 ≤ now - t)%Z
    end.
Proof.
  split; [done|]. unfold formatTime.
  set (diff := ((now - t) / 1000)%Z).
  assert (1000 * diff ≤ now - t < 1000 * (diff + 1))%Z as Hdiff.
  { unfold diff. pose proof (Z.mul_div_le (now - t) 1000 eq_refl).
    pose proof (Z.mul_succ_div_gt (now - t) 1000 eq_refl). lia. }
  destruct (Z.ltb_spec diff 60); [lia|].
  destruct (Z.ltb_spec diff 3600).
  { pose proof (Z.mul_div_le diff 60 eq_refl).
    pose proof (Z.mul_succ_div_gt diff 60 eq_refl).
    generalize dependent (diff / 60)%Z. intros n ? ?. lia. }
  destruct (Z.ltb_spec diff 86400); [|split; [done|lia]].
  pose proof (Z.mul_div_le diff 3600 eq_refl).
  pose proof (Z.mul_succ_div_gt diff 3600 eq_refl).
  generalize dependent (diff / 3600)%Z. intros n ? ?. lia.
Qed.

End PostDetailFacts.

Module PostReactionsFacts.
Import PostReactions.

Lemma elem_of_applyArrayOp op (l : list JS.str) v :
  v ∈ applyArrayOp op l ↔
    match op with
    | ArrayUnion u => v = u ∨ v ∈ l
    | ArrayRemove u => v ≠ u ∧ v ∈ l
    end.
Proof.
  destruct op as [u|u]; simpl.
  - case_bool_decide as Hin.
    + split; [by right|]. intros [->|?]; done.
    + rewrite elem_of_app, list_elem_of_singleton. tauto.
  - rewrite list_elem_of_filter. tauto.
Qed.

Lemma reactedWith_update d k op lo v k' :
  reactedWith (applyOp d (UpdateReaction k op lo)) v k' ↔
    if decide (k' = k)
    then match op with
         | ArrayUnion u => v = u ∨ reactedWith d v k
         | ArrayRemove u => v ≠ u ∧ reactedWith d v k
         end
    else reactedWith d v k'.
Proof.
  unfold reactedWith. simpl. case_decide as Hk.
  - subst. rewrite lookup_insert_eq. simpl. apply elem_of_applyArrayOp.
  - by rewrite lookup_insert_ne.
Qed.

Lemma likes_update d k op lo v :
  v ∈ likes (applyOp d (UpdateReaction k op lo)) ↔
    match lo with
    | Some (ArrayUnion u) => v = u ∨ v ∈ likes d
    | Some (ArrayRemove u) => v ≠ u ∧ v ∈ likes d
    | None => v ∈ likes d
    end.
Proof.
  simpl. destruct lo as [o|]; [|done].
  rewrite elem_of_applyArrayOp. by destruct o.
Qed.

Lemma existingOf_Some u (current : Reactions) e :
  existingOf u current = Some e → ∃ l, (e, l) ∈ current ∧ u ∈ l.
Proof.
  unfold existingOf. destruct (find _ current) as [[k l]|] eqn:Hfind; [|done].
  intros [= <-]. apply find_some in Hfind as [Hin Hu].
  exists l. split; [by apply list_elem_of_In|].
  by apply bool_decide_eq_true in Hu.
Qed.

Lemma existingOf_None u (current : Reactions) k l :
  existingOf u current = None → (k, l) ∈ current → u ∉ l.
Proof.
  unfold existingOf. destruct (find _ current) as [?|] eqn:Hfind; [done|].
  intros _ Hin%list_elem_of_In Hu.
  pose proof (find_none _ _ Hfind _ Hin) as Hno. simpl in Hno.
  by apply bool_decide_eq_false in Hno.
Qed.

(** The reaction the handler finds is the one the user has. *)
Lemma existing_is_the_reaction u (current : Reactions) k l :
  oneReactionOf u current → (k, l) ∈ current → u ∈ l →
  existingOf u current = Some k ∧ k ≠ [].
Proof.
  intros [Hkeys Hone] Hin Hu. split.
  - destruct (existingOf u current) as [e|] eqn:Hex.
    + apply existingOf_Some in Hex as (l' & Hin' & Hu').
      f_equal. by apply (Hone e l' k l).
    + by destruct (existingOf_None u current k l Hex Hin).
  - intros ->. apply Hkeys. apply list_elem_of_fmap. by exists ([], l).
Qed.

Lemma mirrors_reacted (current : Reactions) d u k :
  mirrors current (reactions d) → reactedWith d u k →
  ∃ l, (k, l) ∈ current ∧ u ∈ l.
Proof.
  intros [Hnodup Hstored]. unfold reactedWith. rewrite Hstored.
  destruct (list_to_map current !! k) as [l|] eqn:Hl; simpl;
    [|by intros ?%elem_of_nil].
  intros Hu. exists l. split; [|done]. by apply elem_of_list_to_map.
Qed.

(** The shape both handlers give their batch, and what its commit does to
    the reactions of the user and of the others. *)
Lemma toggle_batch d u emoji (was : option JS.str) lo1 lo2 lo3 notes :
  (∀ k, reactedWith d u k → was = Some k) →
  (∀ e, was = Some e → JS.falsy e = false) →
  Forall (λ op, ∃ n, op = SetNotification n) notes →
  let batch :=
    if bool_decide (was = Some emoji)
    then [UpdateReaction emoji (ArrayRemove u) lo1]
    else (match was with
          | Some e => if JS.falsy e then []
                      else [UpdateReaction e (ArrayRemove u) (lo2 e)]
          | None => []
          end)
         ++ [UpdateReaction emoji (ArrayUnion u) lo3] ++ notes in
  let d' := commit batch d in
  (∀ k, reactedWith d' u k ↔ k = emoji ∧ was ≠ Some emoji)
  ∧ (∀ v k, v ≠ u → reactedWith d' v k ↔ reactedWith d v k).
Proof.
  intros Hwas Htruthy Hnotes batch d'.
  assert (∀ x, foldl applyOp x notes = x) as Hskip.
  { intros x. induction Hnotes as [|op notes [n ->] _ IH]; [done|].
    simpl. exact IH. }
  unfold d', batch, commit. case_bool_decide as Hsame; cbn [foldl].
  - assert (∀ k, reactedWith d u k → k = emoji) as Honly
      by (intros k Hk%Hwas; congruence).
    split.
    + intros k. rewrite reactedWith_update. case_decide; naive_solver.
    + intros v k Hv. rewrite reactedWith_update. case_decide; naive_solver.
  - rewrite !foldl_app, Hskip. cbn [foldl].
    destruct was as [e|].
    + assert (∀ k, reactedWith d u k → k = e) as Honly
        by (intros k Hk%Hwas; congruence).
      assert (e ≠ emoji) as Hother by congruence.
      rewrite (Htruthy e eq_refl). cbn [foldl]. split.
      * intros k. repeat (rewrite reactedWith_update; case_decide);
          naive_solver.
      * intros v k Hv. repeat (rewrite reactedWith_update; case_decide);
          naive_solver.
    + assert (∀ k, ¬ reactedWith d u k) as Hnone
        by (intros k Hk%Hwas; congruence).
      cbn [foldl]. split.
      * intros k. repeat (rewrite reactedWith_update; case_decide);
          naive_solver.
      * intros v k Hv. repeat (rewrite reactedWith_update; case_decide);
          naive_solver.
Qed.

Lemma mirrored_reaction_is_found u (current : Reactions) d :
  mirrors current (reactions d) → oneReactionOf u current →
  (∀ k, reactedWith d u k → existingOf u current = Some k)
  ∧ (∀ e, existingOf u current = Some e → JS.falsy e = false).
Proof.
  intros Hmirror Hone. split.
  - intros k (l & Hin & Hu)%(mirrors_reacted current); [|done].
    by apply (existing_is_the_reaction u current k l).
  - intros e (l & Hin & Hu)%existingOf_Some.
    destruct (existing_is_the_reaction u current e l Hone Hin Hu) as [_ Hne].
    by destruct e.
Qed.

(** X25. Reacting to a comment keeps a user under at most one emoji. When
    the reactions the client holds are those stored, with the user under at
    most one of them, then after the batch the user is under the emoji
    chosen and no other, or under none when the emoji chosen was the one of
    the user already (the reaction is taken back); the reactions of the
    other users are as before. *)
Theorem comment_reaction_toggles comments u name postId commentId emoji
    current d :
  mirrors current (reactions d) →
  oneReactionOf u current →
  let was := existingOf u current in
  let batch := handleCommentReaction comments u name postId commentId emoji
                 (Some current) in
  let d' := commit batch d in
  (∀ k, reactedWith d' u k ↔ k = emoji ∧ was ≠ Some emoji)
  ∧ (∀ v k, v ≠ u → reactedWith d' v k ↔ reactedWith d v k).
Proof.
  intros Hmirror Hone was batch d'.
  destruct (mirrored_reaction_is_found u current d Hmirror Hone)
    as [Hwas Htruthy].
  unfold d', batch, handleCommentReaction.
  apply (toggle_batch d u emoji was None (λ _, None) None); [done..|].
  destruct (find _ comments) as [c|]; [|constructor].
  destruct (_ && _); repeat constructor. by eexists.
Qed.

Lemma comment_reaction_toggles_witness :
  let u := JS.lit "u1" in
  let current := [(JS.lit "+1", [JS.lit "u2"; JS.lit "u1"])] in
  let d := {| reactions := list_to_map current; likes := [] |} in
  let d' := commit
              (handleCommentReaction [] u None None (JS.lit "c1") (JS.lit "+1")
                 (Some current)) d in
  ¬ reactedWith d' u (JS.lit "+1") ∧ reactedWith d' (JS.lit "u2") (JS.lit "+1").
Proof.
  intros u current d d'.
  destruct (comment_reaction_toggles [] u None None (JS.lit "c1") (JS.lit "+1")
              current d) as [Hmine Hothers].
  - split; [|reflexivity]. repeat constructor. by intros ?%elem_of_nil.
  - split.
    + intros Hin. apply list_elem_of_singleton in Hin. discriminate.
    + intros k1 l1 k2 l2 H1%list_elem_of_singleton H2%list_elem_of_singleton.
      congruence.
  - split.
    + intros Hr. apply Hmine in Hr as [_ Hr]. by apply Hr.
    + apply Hothers; [discriminate|]. vm_compute. left.
Defined.

(** X26. A reaction notifies at most one user, never the one who reacts:
    the author of the comment (of the post) reacted to, and only when the
    user had no reaction before, so neither for taking a reaction back nor for
    changing its emoji. A comment that is not in the list notifies nobody. *)
Theorem reaction_notifies_the_author comments u name postId commentId emoji
    current post :
  let onComment := notificationsOf
                     (handleCommentReaction comments u name postId commentId
                        emoji current) in
  let onPost := notificationsOf (handleReaction u name post emoji) in
  let comment := List.find (λ c, bool_decide (c_id c = commentId)) comments in
  let before := current ≫= existingOf u in
  let beforePost := existingOf u (effectiveReactions post) in
  length onComment ≤ 1 ∧ length onPost ≤ 1
  ∧ (∀ n, n ∈ onComment →
       user_id n ≠ u ∧ truthy before = false
       ∧ ∃ c, comment = Some c ∧ user_id n = c_userId c)
  ∧ (∀ c, comment = Some c → c_userId c ≠ u → before = None →
       onComment =
         [reactionNotice (c_userId c) (senderNameOf name) emoji
            (JS.lit "comment") postId])
  ∧ (∀ n, n ∈ onPost →
       user_id n ≠ u ∧ truthy beforePost = false
       ∧ user_id n = p_userId post)
  ∧ (p_userId post ≠ u → beforePost = None →
       onPost =
         [reactionNotice (p_userId post) (senderNameOf name) emoji
            (JS.lit "post") (Some (p_id post))]).
Proof.
  intros onComment onPost comment before beforePost.
  unfold onComment, onPost, handleCommentReaction, handleReaction.
  fold comment before beforePost.
  assert (∀ pre : list BatchOp,
            (pre = [] ∨ ∃ e o l, pre = [UpdateReaction e o l]) →
            ∀ rest, notificationsOf (pre ++ rest) = notificationsOf rest)
    as Hpre.
  { intros pre [->|(e & o & l & ->)] rest; done. }
  assert (∀ (was : option JS.str) (mk : JS.str → list BatchOp),
            (∀ e, ∃ o l, mk e = [UpdateReaction e o l]) →
            (match was with
             | Some e => if JS.falsy e then [] else mk e
             | None => []
             end = []
             ∨ ∃ e o l, match was with
                        | Some e => if JS.falsy e then [] else mk e
                        | None => []
                        end = [UpdateReaction e o l])) as Hshape.
  { intros [e|] mk Hmk; [|by left]. destruct (JS.falsy e); [by left|].
    right. destruct (Hmk e) as (o & l & ->). eauto. }
  split; [|split; [|split; [|split; [|split]]]].
  - case_bool_decide; [simpl; lia|].
    rewrite (Hpre _ (Hshape before
                       (λ e, [UpdateReaction e (ArrayRemove u) None])
                       ltac:(eauto))). simpl.
    destruct comment as [c|]; [|simpl; lia].
    destruct (_ && _); simpl; lia.
  - case_bool_decide; [simpl; lia|].
    rewrite (Hpre _ (Hshape beforePost
                       (λ e, [UpdateReaction e (ArrayRemove u)
                                (likesOp e (ArrayRemove u))])
                       ltac:(eauto))). simpl.
    destruct (_ && _); simpl; lia.
  - intros n. case_bool_decide; [by intros ?%elem_of_nil|].
    rewrite (Hpre _ (Hshape before
                       (λ e, [UpdateReaction e (ArrayRemove u) None])
                       ltac:(eauto))). simpl.
    destruct comment as [c|]; [|by intros ?%elem_of_nil].
    destruct (bool_decide (c_userId c ≠ u)) eqn:Hc; simpl;
      [|by intros ?%elem_of_nil].
    destruct (truthy before) eqn:Ht; simpl; [by intros ?%elem_of_nil|].
    intros ->%list_elem_of_singleton. simpl.
    apply bool_decide_eq_true in Hc. eauto.
  - intros c Hc Hother Hnone. rewrite Hc, Hnone.
    rewrite bool_decide_eq_false_2 by done. simpl.
    by rewrite bool_decide_eq_true_2.
  - intros n. case_bool_decide; [by intros ?%elem_of_nil|].
    rewrite (Hpre _ (Hshape beforePost
                       (λ e, [UpdateReaction e (ArrayRemove u)
                                (likesOp e (ArrayRemove u))])
                       ltac:(eauto))). simpl.
    destruct (bool_decide (p_userId post ≠ u)) eqn:Hc; simpl;
      [|by intros ?%elem_of_nil].
    destruct (truthy beforePost) eqn:Ht; simpl; [by intros ?%elem_of_nil|].
    intros ->%list_elem_of_singleton. simpl.
    by apply bool_decide_eq_true in Hc.
  - intros Hother Hnone. rewrite Hnone.
    rewrite bool_decide_eq_false_2 by done. simpl.
    by rewrite bool_decide_eq_true_2.
Qed.

Lemma notifications_leave_document notes x :
  Forall (λ op, ∃ n, op = SetNotification n) notes →
  foldl applyOp x notes = x.
Proof.
  intros Hnotes. revert x.
  induction Hnotes as [|op notes [n ->] _ IH]; [done|].
  intros x. simpl. apply IH.
Qed.

Lemma likes_update_likesOp d k op lop v :
  v ∈ likes (applyOp d (UpdateReaction k op (likesOp k lop))) ↔
    if decide (k = heart)
    then match lop with
         | ArrayUnion u => v = u ∨ v ∈ likes d
         | ArrayRemove u => v ≠ u ∧ v ∈ likes d
         end
    else v ∈ likes d.
Proof.
  rewrite likes_update. unfold likesOp.
  case_bool_decide; case_decide; done.
Qed.

(** What the commit of the batch of [handleReaction] does to [likes]. *)
Lemma toggle_batch_likes d u emoji (was : option JS.str) notes :
  (u ∈ likes d → was = Some heart) →
  (∀ e, was = Some e → JS.falsy e = false) →
  Forall (λ op, ∃ n, op = SetNotification n) notes →
  let batch :=
    if bool_decide (was = Some emoji)
    then [UpdateReaction emoji (ArrayRemove u)
            (likesOp emoji (ArrayRemove u))]
    else (match was with
          | Some e => if JS.falsy e then []
                      else [UpdateReaction e (ArrayRemove u)
                              (likesOp e (ArrayRemove u))]
          | None => []
          end)
         ++ [UpdateReaction emoji (ArrayUnion u)
               (likesOp emoji (ArrayUnion u))] ++ notes in
  let d' := commit batch d in
  (u ∈ likes d' ↔ emoji = heart ∧ was ≠ Some heart)
  ∧ (∀ v, v ≠ u → v ∈ likes d' ↔ v ∈ likes d).
Proof.
  intros Hwas Htruthy Hnotes batch d'.
  unfold d', batch, commit. case_bool_decide as Hsame; cbn [foldl].
  - assert (u ∈ likes d → emoji = heart) as Honly
      by (intros Hu%Hwas; congruence).
    split.
    + rewrite likes_update_likesOp. case_decide; naive_solver.
    + intros v Hv. rewrite likes_update_likesOp. case_decide; naive_solver.
  - rewrite !foldl_app, notifications_leave_document by done. cbn [foldl].
    destruct was as [e|].
    + assert (u ∈ likes d → e = heart) as Honly
        by (intros Hu%Hwas; congruence).
      assert (e ≠ emoji) as Hother by congruence.
      rewrite (Htruthy e eq_refl). cbn [foldl]. split.
      * repeat (rewrite likes_update_likesOp; case_decide); naive_solver.
      * intros v Hv.
        repeat (rewrite likes_update_likesOp; case_decide); naive_solver.
    + assert (u ∉ likes d) as Hnone by (intros Hu%Hwas; congruence).
      cbn [foldl]. split.
      * repeat (rewrite likes_update_likesOp; case_decide); naive_solver.
      * intros v Hv.
        repeat (rewrite likes_update_likesOp; case_decide); naive_solver.
Qed.

Lemma effectiveReactions_includes post k l :
  (k, l) ∈ default [] (p_reactions post) → (k, l) ∈ effectiveReactions post.
Proof.
  intros Hin. unfold effectiveReactions.
  destruct (p_likes post) as [[|v vs]|]; [done| |done].
  case_bool_decide; [done|]. apply elem_of_app. by left.
Qed.

(** X27. Reacting to a post keeps [likes] in step with the heart. When the
    reactions of the post the client holds are those stored, the user is
    under at most one emoji of the view the handler works on (the reactions,
    with the likes of an old post entered under the heart), and a user the
    store has in [likes] is under the heart of this view, then after the
    batch the user is under the emoji chosen and no other (under none when
    the reaction is taken back), is in [likes] exactly when reacting with
    the heart, so in [likes] exactly when under the heart, and the
    reactions and likes of the other users are as before. *)
Theorem post_reaction_keeps_likes_in_step u name post emoji d :
  mirrors (default [] (p_reactions post)) (reactions d) →
  oneReactionOf u (effectiveReactions post) →
  (u ∈ likes d → ∃ l, (heart, l) ∈ effectiveReactions post ∧ u ∈ l) →
  let was := existingOf u (effectiveReactions post) in
  let d' := commit (handleReaction u name post emoji) d in
  (∀ k, reactedWith d' u k ↔ k = emoji ∧ was ≠ Some emoji)
  ∧ (u ∈ likes d' ↔ emoji = heart ∧ was ≠ Some heart)
  ∧ (u ∈ likes d' ↔ reactedWith d' u heart)
  ∧ (∀ v k, v ≠ u → reactedWith d' v k ↔ reactedWith d v k)
  ∧ (∀ v, v ≠ u → v ∈ likes d' ↔ v ∈ likes d).
Proof.
  intros Hmirror Hone Hlikes was d'.
  assert (∀ k, reactedWith d u k → was = Some k) as Hwas.
  { intros k (l & Hin & Hu)%(mirrors_reacted (default [] (p_reactions post)));
      [|done].
    apply effectiveReactions_includes in Hin.
    by apply (existing_is_the_reaction u _ k l). }
  assert (∀ e, was = Some e → JS.falsy e = false) as Htruthy.
  { intros e (l & Hin & Hu)%existingOf_Some.
    destruct (existing_is_the_reaction u _ e l Hone Hin Hu) as [_ Hne].
    by destruct e. }
  assert (u ∈ likes d → was = Some heart) as Hheart.
  { intros (l & Hin & Hu)%Hlikes.
    by apply (existing_is_the_reaction u _ heart l). }
  set (notes := if bool_decide (p_userId post ≠ u) && negb (truthy was)
                then [SetNotification
                        (reactionNotice (p_userId post) (senderNameOf name)
                           emoji (JS.lit "post") (Some (p_id post)))]
                else []).
  assert (Forall (λ op, ∃ n, op = SetNotification n) notes) as Hnotes.
  { unfold notes. destruct (_ && _); repeat constructor. by eexists. }
  destruct (toggle_batch d u emoji was
              (likesOp emoji (ArrayRemove u))
              (λ e, likesOp e (ArrayRemove u))
              (likesOp emoji (ArrayUnion u)) notes Hwas Htruthy Hnotes)
    as [Hmine Hothers].
  destruct (toggle_batch_likes d u emoji was notes Hheart Htruthy Hnotes)
    as [Hmy_like Hother_likes].
  change (commit _ d) with d' in Hmine, Hothers, Hmy_like, Hother_likes.
  split; [exact Hmine|]. split; [exact Hmy_like|].
  split; [|by split].
  rewrite Hmy_like, Hmine. naive_solver.
Qed.

Lemma post_reaction_keeps_likes_in_step_witness :
  let u := JS.lit "u1" in
  let post := {| p_id := JS.lit "p1"; p_userId := JS.lit "u2";
                 p_reactions := None; p_likes := Some [u] |} in
  let d := {| reactions := ∅; likes := [u] |} in
  let d' := commit (handleReaction u None post (JS.lit "+1")) d in
  reactedWith d' u (JS.lit "+1") ∧ u ∉ likes d'.
Proof.
  intros u post d d'.
  destruct (post_reaction_keeps_likes_in_step u None post (JS.lit "+1") d)
    as (Hmine & Hlike & _).
  - split; [constructor|reflexivity].
  - split.
    + intros Hin. apply list_elem_of_singleton in Hin. discriminate.
    + intros k1 l1 k2 l2 H1%list_elem_of_singleton H2%list_elem_of_singleton.
      congruence.
  - intros _. exists [u]. split; [vm_compute|]; left.
  - split.
    + apply Hmine. split; [done|]. vm_compute. discriminate.
    + intros Hin. apply Hlike in Hin as [Hin _]. discriminate.
Defined.

End PostReactionsFacts.


Module PostCommentsFacts.
Import PostReactions PostComments.

(** X28. Deleting a comment is two writes, and they are not one
    transaction. A confirmed deletion always closes the dialog. When the
    store rejects the delete, nothing is written. When it accepts it, the
    comment is gone, the other comments are as before, and the reply
    count of the post falls by one, for this post only, exactly when the
    post exists and the second write is accepted too; otherwise the
    comment is gone and the count is as before. The count falls whether or
    not a comment was stored under the id. *)
Theorem comment_delete_outcomes env p (st : State) b commentId :
  commentToDeleteId st = Some commentId →
  JS.falsy commentId = false →
  let r := confirmDeleteComment env (Some p) st b in
  commentToDeleteId r.1 = None ∧ isDeletingComment r.1 = false
  ∧ (delete_rejected env = true → r.2 = b)
  ∧ (delete_rejected env = false →
       comments r.2 !! commentId = None
       ∧ (∀ c, c ≠ commentId → comments r.2 !! c = comments b !! c)
       ∧ (∀ q, q ≠ p_id p → posts r.2 !! q = posts b !! q)
       ∧ (update_rejected env = true ∨ posts b !! p_id p = None →
            posts r.2 = posts b)
       ∧ (∀ d, update_rejected env = false → posts b !! p_id p = Some d →
            posts r.2 !! p_id p
            = Some {| replyCount :=
                        Some (default 0%Z (replyCount d) - 1)%Z |})).
Proof.
  intros Hid Htruthy r. unfold r, confirmDeleteComment.
  rewrite Hid, Htruthy.
  destruct (delete_rejected env) eqn:Hdel; simpl; [by repeat split|].
  destruct (posts b !! p_id p) as [d|] eqn:Hpost;
    [destruct (update_rejected env) eqn:Hupd|]; simpl;
    (split; [done|]); (split; [done|]); (split; [done|]); intros _;
    (split; [by rewrite lookup_delete_eq|]);
    (split; [by intros c Hc; rewrite lookup_delete_ne|]).
  - split; [done|]. split; [done|]. by intros d' [=].
  - split; [by intros q Hq; rewrite lookup_insert_ne|].
    split; [by intros [[=]|[=]]|].
    intros d' _ [= <-]. by rewrite lookup_insert_eq.
  - split; [done|]. split; [done|]. by intros d' _ [=].
Qed.

Lemma comment_delete_outcomes_witness :
  let p := {| p_id := JS.lit "p1"; p_userId := JS.lit "u1";
              p_reactions := None; p_likes := None |} in
  let st := {| commentToDeleteId := Some (JS.lit "c1");
               isDeletingComment := false; activeCommentMenuId := None |} in
  let b := {| comments := {[ JS.lit "c1" :=
                               {| content := JS.lit "hi";
                                  isEdited := false |} ]};
              posts := {[ JS.lit "p1" := {| replyCount := Some 1%Z |} ]} |} in
  let r := confirmDeleteComment
             {| delete_rejected := false; update_rejected := true |}
             (Some p) st b in
  comments r.2 !! JS.lit "c1" = None ∧ posts r.2 = posts b.
Proof.
  intros p st b r.
  destruct (comment_delete_outcomes
              {| delete_rejected := false; update_rejected := true |}
              p st b (JS.lit "c1") eq_refl eq_refl)
    as (_ & _ & _ & Hdeleted).
  destruct (Hdeleted eq_refl) as (Hgone & _ & _ & Hcount & _).
  split; [exact Hgone|]. apply Hcount. by left.
Defined.

End PostCommentsFacts.

Module PostStatsFacts.
Import PostReactions PostStats.

Lemma getKey_setKey k v (o : Reactions) : getKey k (setKey k v o) = Some v.
Proof.
  unfold getKey. induction o as [|[k' v'] o IH]; simpl.
  - by rewrite bool_decide_eq_true_2.
  - case_bool_decide as Hk; simpl.
    + by rewrite bool_decide_eq_true_2.
    + by rewrite bool_decide_eq_false_2.
Qed.

Lemma uniq_fold (l acc : list JS.str) :
  NoDup acc →
  let r := foldl (λ acc x, if bool_decide (x ∈ acc) then acc else acc ++ [x])
             acc l in
  NoDup r ∧ ∀ x, x ∈ r ↔ x ∈ acc ∨ x ∈ l.
Proof.
  revert acc. induction l as [|y l IH]; intros acc Hacc; simpl.
  - split; [done|]. intros x. rewrite elem_of_nil. tauto.
  - case_bool_decide as Hy.
    + destruct (IH acc Hacc) as [Hnodup Hin]. split; [done|].
      intros x. rewrite Hin, elem_of_cons.
      split; [tauto|]. intros [?|[->|?]]; tauto.
    + assert (NoDup (acc ++ [y])) as Hacc'.
      { apply NoDup_app. split; [done|]. split; [|apply NoDup_singleton].
        intros x Hx ->%list_elem_of_singleton. done. }
      destruct (IH _ Hacc') as [Hnodup Hin]. split; [done|].
      intros x. rewrite Hin, elem_of_app, list_elem_of_singleton, elem_of_cons.
      tauto.
Qed.

Lemma uniq_spec (l : list JS.str) :
  NoDup (uniq l) ∧ ∀ x, x ∈ uniq l ↔ x ∈ l.
Proof.
  destruct (uniq_fold l [] (NoDup_nil_2)) as [Hnodup Hin].
  split; [done|]. intros x. unfold uniq. rewrite Hin, elem_of_nil. tauto.
Qed.

Lemma tally_fold u (l : Reactions) t top m :
  let r := foldl (tally u) (t, top, m) l in
  r.1.1 = t + sum_list (length ∘ snd <$> l)
  ∧ r.1.2 = top ++ (counted <$> filter (λ e, 0 < length e.2) l)
  ∧ (∀ k, r.2 = Some k → m = Some k ∨ ∃ users, (k, users) ∈ l ∧ u ∈ users)
  ∧ (r.2 = None → m = None ∧ ∀ k users, (k, users) ∈ l → u ∉ users).
Proof.
  revert t top m. induction l as [|[k users] l IH]; intros t top m; simpl.
  - split; [lia|]. split; [by rewrite app_nil_r|].
    split; [by left|]. split; [done|]. by intros k users ?%elem_of_nil.
  - destruct (IH (t + length users)
                (if bool_decide (0 < length users)
                 then top ++ [{| emoji := k; count := length users |}]
                 else top)
                (if bool_decide (u ∈ users) then Some k else m))
      as (Htotal & Htop & Hmine & Hnone).
    split; [by rewrite Htotal, <- Nat.add_assoc|]. split; [|split].
    + rewrite Htop. case_bool_decide as Hpos.
      * rewrite filter_cons_True by done. by rewrite fmap_cons, <- app_assoc.
      * by rewrite filter_cons_False.
    + intros k' Hk'. destruct (Hmine k' Hk') as [Hm|(us & Hin & Hu)].
      * case_bool_decide; [|by left]. injection Hm as <-.
        right. exists users. split; [left|done].
      * right. exists us. split; [by right|done].
    + intros Hr. destruct (Hnone Hr) as [Hm Hnot].
      case_bool_decide as Hu; [done|]. split; [done|].
      intros k' us [[= -> ->]|Hin]%elem_of_cons; [done|]. by eapply Hnot.
Qed.

Lemma insertDesc_Permutation x l : insertDesc x l ≡ₚ x :: l.
Proof.
  induction l as [|y l IH]; simpl; [done|].
  case_bool_decide; [done|]. rewrite IH. apply Permutation_swap.
Qed.

Lemma descending_app l1 l2 :
  descending (l1 ++ l2) ↔
    descending l1 ∧ descending l2
    ∧ ∀ x1 x2, x1 ∈ l1 → x2 ∈ l2 → count x2 ≤ count x1.
Proof.
  induction l1 as [|x l1 IH]; simpl.
  - split; [|tauto]. intros Hl2. split; [done|]. split; [done|].
    by intros x1 x2 ?%elem_of_nil.
  - rewrite IH, Forall_app, !Forall_forall. split.
    + intros ([Hx1 Hx2] & Hl1 & Hl2 & Hcross). repeat split; try done.
      intros x1 x2 [->|Hx]%elem_of_cons Hin; [by apply Hx2|by apply Hcross].
    + intros ([Hx1 Hl1] & Hl2 & Hcross). repeat split; try done.
      * intros y Hy. apply Hcross; [left|done].
      * intros x1 x2 Hin1 Hin2. apply Hcross; [by right|done].
Qed.

Lemma insertDesc_sorted x l : descending l → descending (insertDesc x l).
Proof.
  induction l as [|y l IH]; simpl.
  - by split.
  - intros [Hy Hl]. case_bool_decide as Hlt; simpl.
    + split; [|done]. constructor; [lia|].
      eapply Forall_impl; [exact Hy|]. simpl. intros; lia.
    + split; [|by apply IH].
      rewrite insertDesc_Permutation. constructor; [lia|done].
Qed.

Lemma sortDesc_fold l acc :
  descending acc →
  let r := foldl (λ acc x, insertDesc x acc) acc l in
  descending r ∧ r ≡ₚ acc ++ l.
Proof.
  revert acc. induction l as [|x l IH]; intros acc Hacc; simpl.
  - split; [done|]. by rewrite app_nil_r.
  - destruct (IH _ (insertDesc_sorted x acc Hacc)) as [Hsorted Hperm].
    split; [done|]. rewrite Hperm, insertDesc_Permutation.
    simpl. apply Permutation_middle.
Qed.

Lemma sortDesc_spec l : descending (sortDesc l) ∧ sortDesc l ≡ₚ l.
Proof. by apply (sortDesc_fold l []). Qed.

(** The first [n] of a list in descending order are at least as large as
    the others. *)
Lemma take_sorted_dominates n (l : list EmojiCount) x :
  descending l → x ∈ l →
  x ∈ take n l
  ∨ (length (take n l) = n ∧ ∀ e, e ∈ take n l → count x ≤ count e).
Proof.
  intros Hsorted Hx. rewrite <- (take_drop n l) in Hx, Hsorted.
  apply elem_of_app in Hx as [Hx|Hx]; [by left|]. right.
  split.
  - apply length_take_le. destruct (decide (n ≤ length l)) as [|Hn]; [done|].
    rewrite drop_ge in Hx by lia. by apply elem_of_nil in Hx.
  - intros e He. apply descending_app in Hsorted as (_ & _ & Hcross).
    by apply Hcross.
Qed.

(** X29. The statistics of the reactions of a post. The total is the number
    of user entries over all emojis of the effective reactions; at most
    three emojis are shown, the most used first, none of them unused, each
    with the number of its users, and an emoji in use that is not shown has
    no more users than any emoji shown. The reaction reported as the
    user's is an emoji the user is under, and none is reported only when
    the user is under none. Every user of [likes] is counted under the
    heart, whose users are counted once each. *)
Theorem post_stats_rank_the_reactions u p :
  let s := getPostStats u (Some p) in
  total s = sum_list (length ∘ snd <$> effectivePostReactions s)
  ∧ length (topEmojis s) ≤ 3
  ∧ descending (topEmojis s)
  ∧ (∀ e, e ∈ topEmojis s →
       0 < count e
       ∧ ∃ users, (emoji e, users) ∈ effectivePostReactions s
                  ∧ count e = length users)
  ∧ (∀ entry, entry ∈ effectivePostReactions s → entry.2 ≠ [] →
       counted entry ∈ topEmojis s
       ∨ (length (topEmojis s) = 3
          ∧ ∀ e, e ∈ topEmojis s → length entry.2 ≤ count e))
  ∧ (∀ k, myReaction s = Some k →
       ∃ users, (k, users) ∈ effectivePostReactions s ∧ u ∈ users)
  ∧ (myReaction s = None →
       ∀ k users, (k, users) ∈ effectivePostReactions s → u ∉ users)
  ∧ (∀ v l, p_likes p = Some l → v ∈ l →
       ∃ hearts, getKey heart (effectivePostReactions s) = Some hearts
                 ∧ v ∈ hearts ∧ NoDup hearts).
Proof.
  intros s. unfold s, getPostStats.
  destruct (tally_fold u (withLikes p) 0 [] None)
    as (Htotal & Htop & Hmine & Hnone).
  destruct (foldl (tally u) (0, [], None) (withLikes p)) as [[t top] m].
  simpl in *. subst t top.
  set (used := counted <$> filter (λ e, 0 < length e.2) (withLikes p)).
  destruct (sortDesc_spec used) as [Hsorted Hperm].
  assert (∀ e, e ∈ used ↔
               ∃ entry, entry ∈ withLikes p ∧ 0 < length entry.2
                        ∧ e = counted entry) as Hused.
  { intros e. unfold used. rewrite list_elem_of_fmap. split.
    - intros (entry & -> & [Hpos Hin]%list_elem_of_filter). eauto.
    - intros (entry & Hin & Hpos & ->). exists entry. split; [done|].
      by apply list_elem_of_filter. }
  split; [done|]. split; [rewrite length_take; lia|].
  split.
  { rewrite <- (take_drop 3 (sortDesc used)) in Hsorted.
    by apply descending_app in Hsorted as (? & _). }
  split.
  { intros e He%subseteq_take. rewrite Hperm in He.
    apply Hused in He as ([k users] & Hin & Hpos & ->). simpl in *.
    split; [done|]. by exists users. }
  split.
  { intros entry Hin Hne.
    assert (counted entry ∈ sortDesc used) as Hsorted_in.
    { rewrite Hperm. apply Hused. exists entry. split; [done|].
      split; [|done]. destruct (entry.2); [done|simpl; lia]. }
    by apply (take_sorted_dominates 3) in Hsorted_in. }
  split.
  { intros k Hk. by destruct (Hmine k Hk) as [?|?]. }
  split.
  { intros Hm. by destruct (Hnone Hm). }
  intros v l Hl Hv. unfold withLikes. rewrite Hl.
  destruct l as [|w l]; [by apply elem_of_nil in Hv|].
  set (merged := uniq (default [] (getKey heart (default [] (p_reactions p)))
                       ++ w :: l)).
  destruct (uniq_spec (default [] (getKey heart (default [] (p_reactions p)))
                       ++ w :: l)) as [Hnodup Hmerged].
  fold merged in Hnodup, Hmerged.
  assert (v ∈ merged) as Hin by (apply Hmerged, elem_of_app; by right).
  rewrite bool_decide_eq_true_2
    by (destruct merged; [by apply elem_of_nil in Hin|simpl; lia]).
  exists merged. by rewrite getKey_setKey.
Qed.

End PostStatsFacts.

Module SearchHistoryFacts.
Import SearchHistory.

Lemma recordSelection_touches now (view : list Item) target history newId i d :
  shows view history →
  List.find (λ h : Item, bool_decide (targetId h.2 = t_id target)) view
    = Some (i, d) →
  recordSelection false newId now view target history
    = Some (<[i := touch now d]> history)
  ∧ history !! i = Some d ∧ targetId d = t_id target.
Proof.
  intros Hshows Hfind. unfold recordSelection. rewrite Hfind. simpl.
  apply find_some in Hfind as [Hin Htarget].
  apply list_elem_of_In, Hshows in Hin.
  apply bool_decide_eq_true in Htarget. by rewrite Hin.
Qed.

Lemma recordSelection_adds now (view : list Item) target history newId :
  shows view history →
  List.find (λ h : Item, bool_decide (targetId h.2 = t_id target)) view
    = None →
  recordSelection false newId now view target history
    = Some (<[newId := entryOf now target]> history)
  ∧ ∀ i d, history !! i = Some d → targetId d ≠ t_id target.
Proof.
  intros Hshows Hfind. unfold recordSelection. rewrite Hfind.
  split; [done|]. intros i d Hin%Hshows%list_elem_of_In.
  pose proof (find_none _ _ Hfind _ Hin) as Hno. simpl in Hno.
  by apply bool_decide_eq_false in Hno.
Qed.

(** What an accepted selection makes of the history. *)
Lemma recordSelection_spec now (view : list Item) target history newId :
  shows view history → oneEntryPerTarget history → history !! newId = None →
  ∃ history',
    recordSelection false newId now view target history = Some history'
    ∧ oneEntryPerTarget history'
    ∧ (∃ i d, history' !! i = Some d ∧ targetId d = t_id target
              ∧ timestamp d = now)
    ∧ (∀ i d, targetId d ≠ t_id target →
         history' !! i = Some d ↔ history !! i = Some d)
    ∧ (∀ i d, history !! i = Some d → targetId d = t_id target →
         history' = <[i := touch now d]> history).
Proof.
  intros Hshows Hone Hfresh.
  destruct (List.find (λ h : Item, bool_decide (targetId h.2 = t_id target))
              view) as [[i d]|] eqn:Hfind.
  - destruct (recordSelection_touches now view target history newId i d
                Hshows Hfind) as (-> & Hi & Htarget).
    eexists. split; [done|]. split; [|split; [|split]].
    + intros j k dj dk Hj Hk Heq.
      destruct (decide (j = i)) as [->|Hji], (decide (k = i)) as [->|Hki];
        [done| | |].
      * rewrite lookup_insert_eq in Hj. injection Hj as <-.
        rewrite lookup_insert_ne in Hk by done. by apply (Hone i k d dk).
      * rewrite lookup_insert_eq in Hk. injection Hk as <-.
        rewrite lookup_insert_ne in Hj by done. by apply (Hone j i dj d).
      * rewrite !lookup_insert_ne in Hj, Hk by done. by apply (Hone j k dj dk).
    + exists i, (touch now d). by rewrite lookup_insert_eq.
    + intros j dj Hother. destruct (decide (j = i)) as [->|Hji].
      * rewrite lookup_insert_eq, Hi.
        split; intros [= <-]; by destruct Hother.
      * by rewrite lookup_insert_ne.
    + intros j dj Hj Hdj.
      assert (j = i) as -> by (apply (Hone j i dj d); congruence).
      by assert (dj = d) as -> by congruence.
  - destruct (recordSelection_adds now view target history newId
                Hshows Hfind) as (-> & Hnone).
    eexists. split; [done|]. split; [|split; [|split]].
    + intros j k dj dk Hj Hk Heq.
      destruct (decide (j = newId)) as [->|Hji],
               (decide (k = newId)) as [->|Hki]; [done| | |].
      * rewrite lookup_insert_eq in Hj. injection Hj as <-.
        rewrite lookup_insert_ne in Hk by done.
        by destruct (Hnone k dk Hk).
      * rewrite lookup_insert_eq in Hk. injection Hk as <-.
        rewrite lookup_insert_ne in Hj by done.
        by destruct (Hnone j dj Hj).
      * rewrite !lookup_insert_ne in Hj, Hk by done. by apply (Hone j k dj dk).
    + exists newId, (entryOf now target). by rewrite lookup_insert_eq.
    + intros j dj Hother. destruct (decide (j = newId)) as [->|Hji].
      * rewrite lookup_insert_eq, Hfresh.
        split; [|done]. intros [= <-]. by destruct Hother.
      * by rewrite lookup_insert_ne.
    + intros j dj Hj Hdj. by destruct (Hnone j dj Hj).
Qed.

(** X30. The search history keeps one entry per profile. When the history
    shown is the history stored, with no two entries about the same
    profile, then choosing a profile, the write accepted, leaves a history
    with no two entries about the same profile, in which the profile
    chosen has an entry, dated now; the entries about other profiles are
    as before, and an entry there was about the profile is the one kept,
    with its date changed and nothing else; so choosing an item of the
    history adds no entry. The search is closed and the profile is handed
    to the view. A write the store rejects ends the handler: the search
    stays as it was and no profile is viewed. *)
Theorem selection_keeps_one_entry_per_target pid onViewProfile newId now
    (view : list Item) target st history :
  JS.falsy pid = false →
  shows view history →
  oneEntryPerTarget history →
  history !! newId = None →
  let r := handleSelectUser (Some pid) onViewProfile false newId now view
             target st history in
  let r' := handleSelectUser (Some pid) onViewProfile true newId now view
              target st history in
  thrown r = false
  ∧ oneEntryPerTarget (store r)
  ∧ (∃ i d, store r !! i = Some d ∧ targetId d = t_id target
            ∧ timestamp d = now)
  ∧ (∀ i d, targetId d ≠ t_id target →
       store r !! i = Some d ↔ history !! i = Some d)
  ∧ (∀ i d, history !! i = Some d → targetId d = t_id target →
       store r = <[i := touch now d]> history)
  ∧ searchQuery (ui r) = [] ∧ isSearchActive (ui r) = false
  ∧ mobileSearchOpen (ui r) = false
  ∧ viewed r = (if onViewProfile then Some target else None)
  ∧ thrown r' = true ∧ ui r' = st ∧ viewed r' = None ∧ store r' = history
  ∧ (∀ item, item ∈ view →
       store (handleSelectHistory (Some pid) onViewProfile false newId now
                view item st history)
       = <[item.1 := touch now item.2]> history).
Proof.
  intros Hpid Hshows Hone Hfresh r r'.
  assert (∀ item, item ∈ view →
            store (handleSelectHistory (Some pid) onViewProfile false newId
                     now view item st history)
            = <[item.1 := touch now item.2]> history) as Hitems.
  { intros [i d] Hin%Hshows. unfold handleSelectHistory, handleSelectUser.
    rewrite Hpid. cbv zeta.
    match goal with
    | |- context [recordSelection _ _ _ _ ?dummy _] =>
        destruct (recordSelection_spec now view dummy history newId
                    Hshows Hone Hfresh) as (h & -> & _ & _ & _ & Hitem)
    end.
    simpl. by apply Hitem. }
  destruct (recordSelection_spec now view target history newId
              Hshows Hone Hfresh)
    as (history' & Hwrite & Hone' & Hentry & Hothers & Hkept).
  unfold r, r', handleSelectUser. rewrite Hpid, Hwrite. simpl.
  split; [done|]. split; [done|]. split; [done|]. split; [done|].
  split; [done|]. by repeat (split; [done|]).
Qed.

Lemma selection_keeps_one_entry_per_target_witness :
  let d := {| targetId := JS.lit "u2"; full_name := JS.lit "Ana";
              avatar_url := None; student_id := JS.lit "21-001";
              timestamp := 5%Z |} in
  let history : gmap JS.str HistoryDoc := {[ JS.lit "h1" := d ]} in
  let target := {| t_id := JS.lit "u2"; t_full_name := JS.lit "Ana";
                   t_avatar_url := None; t_student_id := JS.lit "21-001";
                   t_role := JS.lit "user" |} in
  let st := {| searchQuery := JS.lit "an"; isSearchActive := true;
               mobileSearchOpen := false |} in
  store (handleSelectUser (Some (JS.lit "u1")) true false (JS.lit "h2") 9%Z
           [(JS.lit "h1", d)] target st history)
  = {[ JS.lit "h1" := touch 9%Z d ]}.
Proof.
  intros d history target st.
  destruct (selection_keeps_one_entry_per_target (JS.lit "u1") true
              (JS.lit "h2") 9%Z [(JS.lit "h1", d)] target st history)
    as (_ & _ & _ & _ & Hkept & _).
  - reflexivity.
  - intros i e. rewrite list_elem_of_singleton. unfold history.
    rewrite lookup_singleton_Some. split; [by intros [= -> ->]|].
    by intros [<- <-].
  - intros i j e e' Hi Hj _. unfold history in Hi, Hj.
    apply lookup_singleton_Some in Hi as [<- _].
    by apply lookup_singleton_Some in Hj as [<- _].
  - reflexivity.
  - rewrite (Hkept (JS.lit "h1") d); [|reflexivity..].
    unfold history. by rewrite insert_singleton.
Defined.

End SearchHistoryFacts.
